(** * Derived Codable conformances: a shallow embedding of
      lib/Sema/DerivedConformanceCodable.cpp

    The C++ file synthesises, for a struct, class or enum that asks for
    [Encodable] / [Decodable], a [CodingKeys] enum, the body of
    [encode(to:)] and the body of [init(from:)].  The embedding keeps the
    shape of the source: declarations are records, AST fragments are an
    inductive type, and every routine that reads or extends the nominal
    type, emits diagnostics, or can hit an assertion runs in one small
    state-and-trap monad ([Sema]). *)

From Stdlib Require Import String Ascii List Bool Arith Lia.
From Stdlib Require Import DecimalString DecimalNat.
Import ListNotations.
Open Scope string_scope.
Open Scope list_scope.

Set Implicit Arguments.
Set Warnings "-register-all".

(* ------------------------------------------------------------------ *)
(** ** Identifiers and the few string helpers the file relies on *)

Definition Identifier := string.

(** [Identifier()] : the empty identifier. *)
Definition Identifier_empty : Identifier := "".

Definition Identifier_isEmpty (i : Identifier) : bool := String.eqb i "".

(** [std::to_string] on an index. *)
Definition to_string (n : nat) : string := NilZero.string_of_uint (Nat.to_uint n).

(** [clang::toUppercase] on one ASCII character (swift/Basic/StringExtras.h). *)
Definition toUppercase (c : ascii) : ascii :=
  let n := nat_of_ascii c in
  if ((97 <=? n)%nat && (n <=? 122)%nat)%bool then ascii_of_nat (n - 32) else c.

(** [camel_case::appendSentenceCase(scratch, s)]: appends [s] with its first
    character upper-cased. *)
Definition appendSentenceCase (scratch s : string) : string :=
  match s with
  | EmptyString => scratch
  | String c rest => (scratch ++ String (toUppercase c) rest)%string
  end.

(** The well-known identifiers of the [ASTContext] that this file uses. *)
Definition Id_CodingKeys : Identifier := "CodingKeys".
Definition Id_super : Identifier := "super".
Definition Id_Context : Identifier := "Context".
Definition Id_container : Identifier := "container".
Definition Id_nestedContainer : Identifier := "nestedContainer".
Definition Id_keyedBy : Identifier := "keyedBy".
Definition Id_forKey : Identifier := "forKey".
Definition Id_codingPath : Identifier := "codingPath".
Definition Id_debugDescription : Identifier := "debugDescription".
Definition Id_underlyingError : Identifier := "underlyingError".
Definition Id_typeMismatch : Identifier := "typeMismatch".
Definition Id_invalidValue : Identifier := "invalidValue".
Definition Id_encode : Identifier := "encode".
Definition Id_encodeIfPresent : Identifier := "encodeIfPresent".
Definition Id_decode : Identifier := "decode".
Definition Id_decodeIfPresent : Identifier := "decodeIfPresent".
Definition Id_superEncoder : Identifier := "superEncoder".
Definition Id_superDecoder : Identifier := "superDecoder".
Definition Id_allKeys : Identifier := "allKeys".
Definition Id_count : Identifier := "count".
Definition Id_first : Identifier := "first".
Definition Id_from : Identifier := "from".
Definition Id_to : Identifier := "to".
Definition Id_encoder : Identifier := "encoder".
Definition Id_decoder : Identifier := "decoder".
Definition Id_self : Identifier := "self".
(** [DeclBaseName::createConstructor()]. *)
Definition Id_init : Identifier := "init".

Inductive KnownProtocolKind : Type :=
| Encodable
| Decodable
| CodingKey.

Definition isSpecificProtocol (p k : KnownProtocolKind) : bool :=
  match p, k with
  | Encodable, Encodable | Decodable, Decodable | CodingKey, CodingKey => true
  | _, _ => false
  end.

(* ------------------------------------------------------------------ *)
(** ** Types of members *)

(** A member's interface type.  Only what the synthesiser asks of a type is
    kept: whether it is [Optional<T>] ([getOptionalObjectType]) and whether
    it conforms to [Encodable] / [Decodable]. *)
Inductive Ty : Type :=
| NominalTy (name : Identifier) (encodable decodable : bool)
| OptionalTy (object : Ty).

Definition getOptionalObjectType (t : Ty) : option Ty :=
  match t with
  | OptionalTy o => Some o
  | NominalTy _ _ _ => None
  end.

(** [TypeChecker::conformsToProtocol] on a member type; [Optional] conforms
    exactly when its object type does. *)
Fixpoint conformsToProtocol (t : Ty) (p : KnownProtocolKind) : bool :=
  match t with
  | NominalTy _ enc dec =>
      match p with
      | Encodable => enc
      | Decodable => dec
      | CodingKey => false
      end
  | OptionalTy o => conformsToProtocol o p
  end.

(* ------------------------------------------------------------------ *)
(** ** The generated AST *)

Inductive TypeRepr : Type :=
| DeclaredType (decl : Identifier)
| MemberType (parent member : Identifier)
| ValueType (t : Ty)
| BoundGenericType (decl : Identifier) (arg : TypeRepr).

Inductive AccessSemantics : Type :=
| Ordinary
| DirectToStorage.

Inductive Expr : Type :=
| DeclRefExpr (decl : Identifier) (semantics : AccessSemantics)
| SuperRefExpr
| TypeExpr (t : TypeRepr)
| DotSelfExpr (sub : Expr)
| MemberRefExpr (base : Expr) (member : Identifier)
| UnresolvedDotExpr (base : Expr) (name : Identifier)
                    (argLabels : option (list Identifier))
| UnresolvedDeclRefExpr (name : Identifier)
| DotSyntaxCallExpr (fn : Expr) (base : Expr)
| CallExpr (fn : Expr) (args : list Expr) (argLabels : list Identifier)
| TryExpr (sub : Expr)
| AssignExpr (dest src : Expr)
| NilLiteralExpr
| StringLiteralExpr (value : string)
| IntegerLiteralExpr (value : nat)
| TupleExpr (elements : list Expr)
| BinaryExpr (fn : Expr) (arg : Expr)
(* an expression written by the user, e.g. the default of a parameter *)
| OpaqueExpr (tag : string).

Inductive Introducer : Type :=
| Let
| Var.

Inductive Pattern : Type :=
| NamedPattern (var : Identifier)
| TuplePattern (elements : list (Identifier * Identifier))
| EnumElementPattern (parent : TypeRepr) (element : Identifier)
                     (sub : option Pattern)
| OptionalSomePattern (sub : Pattern).

Inductive ASTNode : Type :=
| N_Expr (e : Expr)
| N_PatternBinding (pattern : Pattern) (init : Expr)
| N_VarDecl (name : Identifier) (introducer : Introducer) (type : TypeRepr)
| N_Throw (e : Expr)
| N_Guard (cond : Expr) (body : list ASTNode)
| N_Switch (subject : Expr) (cases : list CaseStmt)
with CaseStmt : Type :=
| CaseStmt_create (label : Pattern) (body : list ASTNode)
                  (caseBodyVarDecls : option (list Identifier)).

Definition case_label (c : CaseStmt) : Pattern :=
  match c with CaseStmt_create l _ _ => l end.
Definition case_body (c : CaseStmt) : list ASTNode :=
  match c with CaseStmt_create _ b _ => b end.

(* ------------------------------------------------------------------ *)
(** ** Declarations the synthesiser queries *)

Record PatternBindingDecl : Type := {
  pbd_isDefaultInitializable : bool;
  pbd_hasInit : bool
}.

(** A [VarDecl] is either bound by a pattern (a stored or computed
    property, with or without a parent [PatternBindingDecl]) or is a
    [ParamDecl] (here: a payload slot of an enum case), which has no parent
    pattern binding and may carry a default expression. *)
Inductive VarOrigin : Type :=
| FromPattern (pbd : option PatternBindingDecl)
| FromParameter (defaultExpr : option Expr).

Record VarDecl : Type := {
  var_name : Identifier;
  var_type : Ty;
  var_isStatic : bool;
  var_isLet : bool;
  var_hasStorage : bool;
  var_isUserAccessible : bool;
  var_originalWrappedProperty : option Identifier;
  var_origin : VarOrigin
}.

Definition getParentPatternBinding (v : VarDecl) : option PatternBindingDecl :=
  match var_origin v with
  | FromPattern pbd => pbd
  | FromParameter _ => None
  end.

Definition isParentInitialized (v : VarDecl) : bool :=
  match getParentPatternBinding v with
  | Some pbd => pbd_hasInit pbd
  | None => false
  end.

Record ParamDecl : Type := {
  param_name : Identifier;
  param_type : Ty;
  param_isUserAccessible : bool;
  param_defaultExpr : option Expr
}.

Definition hasDefaultExpr (p : ParamDecl) : bool :=
  match param_defaultExpr p with Some _ => true | None => false end.

(** A [ParamDecl] viewed through its [VarDecl] base class. *)
Definition ParamDecl_asVarDecl (p : ParamDecl) : VarDecl :=
  {| var_name := param_name p;
     var_type := param_type p;
     var_isStatic := false;
     var_isLet := true;
     var_hasStorage := false;
     var_isUserAccessible := param_isUserAccessible p;
     var_originalWrappedProperty := None;
     var_origin := FromParameter (param_defaultExpr p) |}.

(** [dyn_cast<ParamDecl>] on a [VarDecl]: only the default expression is
    used afterwards. *)
Definition dyn_cast_ParamDecl (v : VarDecl) : option (option Expr) :=
  match var_origin v with
  | FromParameter d => Some d
  | FromPattern _ => None
  end.

Record EnumElementDecl : Type := {
  elt_name : Identifier;
  elt_params : option (list ParamDecl)
}.

Definition hasAssociatedValues (e : EnumElementDecl) : bool :=
  match elt_params e with Some _ => true | None => false end.

Definition getParameterList (e : EnumElementDecl) : list ParamDecl :=
  match elt_params e with Some ps => ps | None => [] end.

(** A key enumeration ([CodingKeys] or a per-case [<Case>CodingKeys]). *)
Record EnumDecl : Type := {
  enum_name : Identifier;
  enum_elements : list Identifier;
  enum_isImplicit : bool
}.

Definition hasCases (e : EnumDecl) : bool :=
  match enum_elements e with [] => false | _ :: _ => true end.

Inductive NominalRef : Type :=
| EnumNominal (e : EnumDecl)
| OtherNominal (name : Identifier).

Definition NominalRef_name (n : NominalRef) : Identifier :=
  match n with
  | EnumNominal e => enum_name e
  | OtherNominal name => name
  end.

(** A nested type declaration found by name: a nominal type itself, or a
    typealias whose declared type may or may not have a nominal. *)
Inductive TypeDecl : Type :=
| NominalDecl (n : NominalRef) (conformsToCodingKey : bool)
| TypeAliasDecl (name : Identifier) (anyNominal : option NominalRef)
                (conformsToCodingKey : bool).

Definition TypeDecl_name (t : TypeDecl) : Identifier :=
  match t with
  | NominalDecl n _ => NominalRef_name n
  | TypeAliasDecl name _ _ => name
  end.

Definition getAnyNominal (t : TypeDecl) : option NominalRef :=
  match t with
  | NominalDecl n _ => Some n
  | TypeAliasDecl _ n _ => n
  end.

Definition conformsToCodingKey (t : TypeDecl) : bool :=
  match t with
  | NominalDecl _ c => c
  | TypeAliasDecl _ _ c => c
  end.

Definition isa_TypeAliasDecl (t : TypeDecl) : bool :=
  match t with
  | TypeAliasDecl _ _ _ => true
  | NominalDecl _ _ => false
  end.

Inductive ValueDecl : Type :=
| VD_Var (v : VarDecl) (wrapperBacking : option VarDecl)
| VD_EnumElement (e : EnumElementDecl)
| VD_Type (t : TypeDecl)
| VD_Func (name : Identifier).

Definition ValueDecl_name (d : ValueDecl) : Identifier :=
  match d with
  | VD_Var v _ => var_name v
  | VD_EnumElement e => elt_name e
  | VD_Type t => TypeDecl_name t
  | VD_Func name => name
  end.

Record ConstructorDecl : Type := {
  ctor_argLabels : list Identifier;
  ctor_isDesignatedInit : bool;
  ctor_isAccessibleFromConformance : bool;
  ctor_isFailable : bool;
  ctor_hasThrows : bool
}.

Record ClassDecl : Type := {
  class_name : Identifier;
  class_conformsToEncodable : bool;
  class_conformsToDecodable : bool;
  class_directInits : list ConstructorDecl;
  class_inheritedInits : list ConstructorDecl
}.

Inductive NominalKind : Type :=
| StructKind
| ClassKind (superclass : option ClassDecl) (isFinal : bool)
| EnumKind
| ProtocolKind.

Record NominalTypeDecl : Type := {
  nominal_name : Identifier;
  nominal_kind : NominalKind;
  nominal_members : list ValueDecl;
  nominal_conformsToEncodable : bool
}.

(** Names of declarations as diagnostics and lookups see them: a base name
    and, for a compound name, its argument labels. *)
Record DeclName : Type := {
  name_base : Identifier;
  name_argLabels : option (list Identifier)
}.

(* ------------------------------------------------------------------ *)
(** ** Diagnostics *)

(** One constructor per [diag::] identifier used in the file; the first
    argument, where present, is the declaration the diagnostic is attached
    to. *)
Inductive Diagnostic : Type :=
| codable_codingkeys_type_does_not_conform_here
    (loc : Identifier) (proto : KnownProtocolKind)
| codable_codingkeys_type_is_not_an_enum_here
    (loc : Identifier) (proto : KnownProtocolKind)
| codable_extraneous_codingkey_case_here (key : Identifier)
| codable_non_conforming_property_here
    (var : Identifier) (proto : KnownProtocolKind) (type : Ty)
| codable_non_decoded_property_here
    (var : Identifier) (proto : KnownProtocolKind) (key : Identifier)
| decodable_property_will_not_be_decoded (var : Identifier)
| decodable_property_init_or_codingkeys_implicit
    (var : Identifier) (selector : nat)
| decodable_property_init_or_codingkeys_explicit (var : Identifier)
| decodable_make_property_mutable (var : Identifier)
| decodable_no_super_init_here
    (superclass : Identifier) (requirement member : DeclName)
| decodable_super_init_not_designated_here (requirement member : DeclName)
| decodable_inaccessible_super_init_here (requirement member : DeclName)
| decodable_super_init_is_failable_here (requirement member : DeclName)
| codable_enum_duplicate_case_name_here
    (case : Identifier) (proto : KnownProtocolKind)
| codable_enum_duplicate_parameter_name_here
    (param : Identifier) (proto : KnownProtocolKind)
    (paramIdentifier case : Identifier)
| type_does_not_conform (nominal : Identifier) (proto : KnownProtocolKind)
| no_witnesses (requirement : DeclName) (proto : KnownProtocolKind)
| broken_encodable_requirement
| broken_decodable_requirement.

(* ------------------------------------------------------------------ *)
(** ** The monad: the nominal type under derivation, the diagnostics
       emitted so far, and traps *)

Record SemaState : Type := {
  Nominal : NominalTypeDecl;
  Diags : list Diagnostic
}.

(** Ways for the C++ to stop without returning: a failed [assert], a
    dereference (or [dyn_cast]) of a null pointer, [llvm_unreachable]. *)
Inductive Trap : Type :=
| AssertionFailed (what : string)
| NullDereference (what : string)
| Unreachable (what : string).

Inductive Outcome (A : Type) : Type :=
| Returned (a : A) (s : SemaState)
| Trapped (t : Trap).

Arguments Trapped {A} t.

Definition Sema (A : Type) : Type := SemaState -> Outcome A.

Definition ret {A} (a : A) : Sema A := fun s => Returned a s.

Definition bind {A B} (m : Sema A) (k : A -> Sema B) : Sema B :=
  fun s => match m s with
           | Returned a s' => k a s'
           | Trapped t => Trapped t
           end.

Definition trap {A} (t : Trap) : Sema A := fun _ => Trapped t.

Notation "x <- m ;; k" := (bind m (fun x => k))
  (at level 61, m at next level, right associativity).
Notation "' pat <- m ;; k" := (bind m (fun x => match x with pat => k end))
  (at level 61, pat pattern, m at next level, right associativity).
Notation "m ;; k" := (bind m (fun _ => k))
  (at level 61, right associativity).

Definition getNominal : Sema NominalTypeDecl := fun s => Returned (Nominal s) s.

Definition diagnose (d : Diagnostic) : Sema unit :=
  fun s => Returned tt {| Nominal := Nominal s; Diags := Diags s ++ [d] |}.

Definition NominalTypeDecl_addMember (n : NominalTypeDecl) (d : ValueDecl)
  : NominalTypeDecl :=
  {| nominal_name := nominal_name n;
     nominal_kind := nominal_kind n;
     nominal_members := nominal_members n ++ [d];
     nominal_conformsToEncodable := nominal_conformsToEncodable n |}.

(** [target->addMember(decl)]. *)
Definition addMember (d : ValueDecl) : Sema unit :=
  fun s => Returned tt {| Nominal := NominalTypeDecl_addMember (Nominal s) d;
                          Diags := Diags s |}.

Definition assert (b : bool) (what : string) : Sema unit :=
  if b then ret tt else trap (AssertionFailed what).

(** A [for] loop over a range with loop-carried variables [acc]; a
    [continue] is the body returning early. *)
Fixpoint forEach {A S} (xs : list A) (body : A -> S -> Sema S) (acc : S)
  : Sema S :=
  match xs with
  | [] => ret acc
  | x :: rest => acc' <- body x acc ;; forEach rest body acc'
  end.

(** [llvm::enumerate]. *)
Definition enumerate {A} (xs : list A) : list (nat * A) :=
  combine (seq 0 (length xs)) xs.

(* ------------------------------------------------------------------ *)
(** ** Queries on declarations *)

Definition lookupDirect (n : NominalTypeDecl) (name : Identifier)
  : list ValueDecl :=
  filter (fun d => String.eqb (ValueDecl_name d) name) (nominal_members n).

(** [getStoredProperties]: the instance variables with storage, in
    declaration order. *)
Definition getStoredProperties (n : NominalTypeDecl) : list VarDecl :=
  flat_map (fun d => match d with
                     | VD_Var v _ =>
                         if var_hasStorage v && negb (var_isStatic v)
                         then [v] else []
                     | _ => []
                     end) (nominal_members n).

(** [getAllElements] of the enum under derivation. *)
Definition getAllElements (n : NominalTypeDecl) : list EnumElementDecl :=
  flat_map (fun d => match d with
                     | VD_EnumElement e => [e]
                     | _ => []
                     end) (nominal_members n).

Definition isa_EnumDecl (n : NominalTypeDecl) : bool :=
  match nominal_kind n with EnumKind => true | _ => false end.

(** [dyn_cast<ClassDecl>(target)]: the superclass declaration, if any, of a
    class. *)
Definition dyn_cast_ClassDecl (n : NominalTypeDecl) : option (option ClassDecl) :=
  match nominal_kind n with
  | ClassKind super _ => Some super
  | _ => None
  end.

Definition class_conformsTo (c : ClassDecl) (kpk : KnownProtocolKind) : bool :=
  match kpk with
  | Encodable => class_conformsToEncodable c
  | Decodable => class_conformsToDecodable c
  | CodingKey => false
  end.

(** Returns whether the type represented by the given ClassDecl inherits
    from a type which conforms to the given protocol. *)
Definition superclassConformsTo (target : option (option ClassDecl))
           (kpk : KnownProtocolKind) : bool :=
  match target with
  | None => false
  | Some None => false
  | Some (Some superclass) => class_conformsTo superclass kpk
  end.

(** Retrieve the variable name for the purposes of encoding/decoding. *)
Definition getVarNameForCoding (var : VarDecl) : Identifier :=
  match var_originalWrappedProperty var with
  | Some originalVar => originalVar
  | None => var_name var
  end.

(** Compute the Identifier for the CodingKey of an enum case. *)
Definition caseCodingKeysIdentifier (elt : EnumElementDecl) : Identifier :=
  let scratch := appendSentenceCase "" (elt_name elt) in
  appendSentenceCase scratch Id_CodingKeys.

(** [dyn_cast<EnumDecl>] on a possibly-null nominal: a null operand is a
    trap, as for every [dyn_cast]. *)
Definition dyn_cast_EnumDecl (n : option NominalRef) : Sema (option EnumDecl) :=
  match n with
  | None => trap (NullDereference "dyn_cast<EnumDecl>")
  | Some (EnumNominal e) => ret (Some e)
  | Some (OtherNominal _) => ret None
  end.

(** Fetches the CodingKeys enum nested in target, potentially reaching
    through a typealias. *)
Definition lookupEvaluatedCodingKeysEnum (target : NominalTypeDecl)
           (identifier : Identifier) : Sema (option EnumDecl) :=
  match lookupDirect target identifier with
  | [] => ret None
  | codingKeysDecl :: _ =>
      match codingKeysDecl with
      | VD_Type (TypeAliasDecl _ anyNominal _) => dyn_cast_EnumDecl anyNominal
      | VD_Type (NominalDecl n _) => dyn_cast_EnumDecl (Some n)
      | _ => ret None
      end
  end.

(** [lookupEnumCase] on a key enumeration: the first declaration of that
    name, as an enum element. *)
Definition lookupEnumCase (target : EnumDecl) (identifier : Identifier)
  : option Identifier :=
  match filter (String.eqb identifier) (enum_elements target) with
  | [] => None
  | elementDecl :: _ => Some elementDecl
  end.

Definition EnumDecl_addMember (e : EnumDecl) (elt : Identifier) : EnumDecl :=
  {| enum_name := enum_name e;
     enum_elements := enum_elements e ++ [elt];
     enum_isImplicit := enum_isImplicit e |}.

(** [new (C) EnumDecl(..., name, ...)] followed by [setImplicit()]. *)
Definition EnumDecl_createImplicit (name : Identifier) : EnumDecl :=
  {| enum_name := name; enum_elements := []; enum_isImplicit := true |}.

(** A freshly synthesised key enum as a member of the target: its
    conformance to [CodingKey] is forcibly derived
    ([TypeChecker::checkConformancesInContext]). *)
Definition EnumDecl_asMember (e : EnumDecl) : ValueDecl :=
  VD_Type (NominalDecl (EnumNominal e) true).

(** The coding name of a payload slot: its label, or [_<index>]. *)
Definition paramCodingIdentifier (index : nat) (paramDecl : ParamDecl)
  : Identifier :=
  let paramIdentifier := getVarNameForCoding (ParamDecl_asVarDecl paramDecl) in
  if Identifier_isEmpty paramIdentifier
  then ("_" ++ to_string index)%string
  else paramIdentifier.

(* ------------------------------------------------------------------ *)
(** ** Synthesis of key enumerations *)

Definition addImplicitCodingKeys_enum : Sema EnumDecl :=
  target <- getNominal ;;
  let enumDecl := EnumDecl_createImplicit Id_CodingKeys in
  let enumDecl :=
    fold_left (fun e elementDecl => EnumDecl_addMember e (elt_name elementDecl))
              (getAllElements target) enumDecl in
  addMember (EnumDecl_asMember enumDecl) ;;
  ret enumDecl.

Definition addImplicitCaseCodingKeys (elementDecl : EnumElementDecl)
           (codingKeysEnum : EnumDecl) : Sema (option EnumDecl) :=
  let enumIdentifier := caseCodingKeysIdentifier elementDecl in
  (* Only derive if this case exist in the CodingKeys enum *)
  match lookupEnumCase codingKeysEnum (elt_name elementDecl) with
  | None => ret None
  | Some _ =>
      let caseEnum := EnumDecl_createImplicit enumIdentifier in
      let caseEnum :=
        if hasAssociatedValues elementDecl
        then fold_left
               (fun e entry =>
                  EnumDecl_addMember e
                    (paramCodingIdentifier (fst entry) (snd entry)))
               (enumerate (getParameterList elementDecl)) caseEnum
        else caseEnum in
      addMember (EnumDecl_asMember caseEnum) ;;
      ret (Some caseEnum)
  end.

Definition addImplicitCodingKeys : Sema EnumDecl :=
  target <- getNominal ;;
  if isa_EnumDecl target then addImplicitCodingKeys_enum
  else
    assert (match lookupDirect target Id_CodingKeys with
            | [] => true | _ => false end)
           "target->lookupDirect(DeclName(C.Id_CodingKeys)).empty()" ;;
    let enumDecl := EnumDecl_createImplicit Id_CodingKeys in
    (* For classes which inherit from something Encodable or Decodable, we
       provide case `super` as the first key. *)
    let classDecl := dyn_cast_ClassDecl target in
    let enumDecl :=
      if superclassConformsTo classDecl Encodable
         || superclassConformsTo classDecl Decodable
      then EnumDecl_addMember enumDecl Id_super
      else enumDecl in
    let enumDecl :=
      fold_left (fun e varDecl =>
                   if negb (var_isUserAccessible varDecl) then e
                   else EnumDecl_addMember e (getVarNameForCoding varDecl))
                (getStoredProperties target) enumDecl in
    addMember (EnumDecl_asMember enumDecl) ;;
    ret enumDecl.

(* ------------------------------------------------------------------ *)
(** ** Validation of key enumerations *)

Definition validateCodingKeysType (proto : KnownProtocolKind)
           (_codingKeysTypeDecl : TypeDecl) : Sema (option EnumDecl) :=
  (* CodingKeys may be a typealias. If so, follow the alias to its canonical
     type. *)
  let codingKeysTypeDecl : option NominalRef := getAnyNominal _codingKeysTypeDecl in
  (* Ensure that the type we found conforms to the CodingKey protocol. *)
  if negb (conformsToCodingKey _codingKeysTypeDecl) then
    let loc := match codingKeysTypeDecl with
               | Some n => NominalRef_name n
               | None => TypeDecl_name _codingKeysTypeDecl
               end in
    diagnose (codable_codingkeys_type_does_not_conform_here loc proto) ;;
    ret None
  else
    match getAnyNominal _codingKeysTypeDecl with
    | Some (EnumNominal codingKeysDecl) => ret (Some codingKeysDecl)
    | _ =>
        match codingKeysTypeDecl with
        | None => trap (NullDereference "codingKeysTypeDecl->diagnose")
        | Some n =>
            diagnose (codable_codingkeys_type_is_not_an_enum_here
                        (NominalRef_name n) proto) ;;
            ret None
        end
    end.

(** [llvm::SmallMapVector<Identifier, VarDecl *, 8>]: an insertion-ordered
    map. *)
Definition MapVector := list (Identifier * VarDecl).

Fixpoint MapVector_find (m : MapVector) (k : Identifier) : option VarDecl :=
  match m with
  | [] => None
  | (k', v) :: rest => if String.eqb k' k then Some v else MapVector_find rest k
  end.

Fixpoint MapVector_erase (m : MapVector) (k : Identifier) : MapVector :=
  match m with
  | [] => []
  | (k', v) :: rest =>
      if String.eqb k' k then rest else (k', v) :: MapVector_erase rest k
  end.

(** [m[k] = v]. *)
Fixpoint MapVector_set (m : MapVector) (k : Identifier) (v : VarDecl)
  : MapVector :=
  match m with
  | [] => [(k, v)]
  | (k', v') :: rest =>
      if String.eqb k' k then (k', v) :: rest
      else (k', v') :: MapVector_set rest k v
  end.

(** The first loop of the three-argument [validateCodingKeysEnum]: one
    iteration, for one case of the key enumeration. *)
Definition validateCodingKeysEnum_case (proto : KnownProtocolKind)
           (elt : Identifier) (acc : MapVector * bool)
  : Sema (MapVector * bool) :=
  let '(varDecls, varDeclsAreValid) := acc in
  match MapVector_find varDecls elt with
  | None =>
      diagnose (codable_extraneous_codingkey_case_here elt) ;;
      ret (varDecls, false)
  | Some it_second =>
      (* We have a property to map to. Ensure it's {En,De}codable. *)
      let target := var_type it_second in
      if negb (conformsToProtocol target proto) then
        diagnose (codable_non_conforming_property_here
                    (var_name it_second) proto (var_type it_second)) ;;
        ret (varDecls, false)
      else
        (* The property was valid. Remove it from the list. *)
        ret (MapVector_erase varDecls elt, varDeclsAreValid)
  end.

(** The second loop: one remaining (unmatched) entry, for [Decodable]. *)
Definition validateCodingKeysEnum_remaining (proto : KnownProtocolKind)
           (entry : Identifier * VarDecl) (varDeclsAreValid : bool)
  : Sema bool :=
  let pbd := getParentPatternBinding (snd entry) in
  if match pbd with Some b => pbd_isDefaultInitializable b | None => false end
  then ret varDeclsAreValid
  else if isParentInitialized (snd entry) then ret varDeclsAreValid
  else if match dyn_cast_ParamDecl (snd entry) with
          | Some (Some _) => true
          | _ => false
          end
  then ret varDeclsAreValid
  else
    (* The var was not default initializable, and did not have an explicit
       initial value. *)
    diagnose (codable_non_decoded_property_here
                (var_name (snd entry)) proto (fst entry)) ;;
    ret false.

(** Validates the given CodingKeys enum decl by ensuring its cases are a
    1-to-1 match with the given VarDecls
    ([validateCodingKeysEnum(derived, varDecls, codingKeysTypeDecl)]). *)
Definition validateCodingKeysEnum_varDecls (proto : KnownProtocolKind)
           (varDecls : MapVector) (codingKeysTypeDecl : TypeDecl) : Sema bool :=
  codingKeysDecl <- validateCodingKeysType proto codingKeysTypeDecl ;;
  match codingKeysDecl with
  | None => ret false
  | Some codingKeysDecl =>
      '(varDecls, varDeclsAreValid) <-
        forEach (enum_elements codingKeysDecl)
                (validateCodingKeysEnum_case proto) (varDecls, true) ;;
      if negb varDeclsAreValid then ret false
      else
        if isSpecificProtocol proto Decodable then
          forEach varDecls (validateCodingKeysEnum_remaining proto)
                  varDeclsAreValid
        else ret varDeclsAreValid
  end.

Definition validateCodingKeysEnum_enum (proto : KnownProtocolKind)
           (codingKeysTypeDecl : TypeDecl) : Sema bool :=
  nominal <- getNominal ;;
  if negb (isa_EnumDecl nominal) then ret false
  else
    (* llvm::SmallSetVector<Identifier, 4> caseNames *)
    let caseNames := map elt_name (getAllElements nominal) in
    codingKeysDecl <- validateCodingKeysType proto codingKeysTypeDecl ;;
    match codingKeysDecl with
    | None => ret false
    | Some codingKeysDecl =>
        forEach (enum_elements codingKeysDecl)
                (fun elt casesAreValid =>
                   if negb (existsb (String.eqb elt) caseNames) then
                     diagnose (codable_extraneous_codingkey_case_here elt) ;;
                     ret false
                   else ret casesAreValid)
                true
    end.

(** The name -> property map built from the stored properties. *)
Definition storedPropertiesByName (nominal : NominalTypeDecl) : MapVector :=
  fold_left (fun properties varDecl =>
               if negb (var_isUserAccessible varDecl) then properties
               else MapVector_set properties (getVarNameForCoding varDecl) varDecl)
            (getStoredProperties nominal) [].

(** Looks up and validates a CodingKeys enum for the given
    DerivedConformance.  If a CodingKeys enum does not exist, one will be
    derived ([validateCodingKeysEnum(derived)]). *)
Definition validateCodingKeysEnum (proto : KnownProtocolKind) : Sema bool :=
  nominal <- getNominal ;;
  let codingKeysDecls := lookupDirect nominal Id_CodingKeys in
  if (1 <? length codingKeysDecls)%nat then ret false
  else
    result <- match codingKeysDecls with
              | [] => e <- addImplicitCodingKeys ;; ret (EnumDecl_asMember e)
              | front :: _ => ret front
              end ;;
    match result with
    | VD_Type codingKeysTypeDecl =>
        if isa_EnumDecl nominal
        then validateCodingKeysEnum_enum proto codingKeysTypeDecl
        else
          let properties := storedPropertiesByName nominal in
          validateCodingKeysEnum_varDecls proto properties codingKeysTypeDecl
    | _ =>
        diagnose (codable_codingkeys_type_is_not_an_enum_here
                    (ValueDecl_name result) proto) ;;
        ret false
    end.

(** The name -> parameter map built from the payload slots of a case. *)
Definition caseParametersByName (elementDecl : EnumElementDecl) : MapVector :=
  if hasAssociatedValues elementDecl then
    fold_left (fun properties entry =>
                 let paramDecl := snd entry in
                 if negb (param_isUserAccessible paramDecl) then properties
                 else MapVector_set properties
                        (paramCodingIdentifier (fst entry) paramDecl)
                        (ParamDecl_asVarDecl paramDecl))
              (enumerate (getParameterList elementDecl)) []
  else [].

(** Looks up and validates a CaseCodingKeys enum for the given elementDecl.
    If a CaseCodingKeys enum does not exist, one will be derived. *)
Definition validateCaseCodingKeysEnum (proto : KnownProtocolKind)
           (elementDecl : EnumElementDecl) : Sema bool :=
  enumDecl <- getNominal ;;
  if negb (isa_EnumDecl enumDecl) then ret false
  else
    codingKeysEnum <- lookupEvaluatedCodingKeysEnum enumDecl Id_CodingKeys ;;
    match codingKeysEnum with
    | None => trap (AssertionFailed "Missing CodingKeys decl.")
    | Some codingKeysEnum =>
        let cckIdentifier := caseCodingKeysIdentifier elementDecl in
        let caseCodingKeysDecls := lookupDirect enumDecl cckIdentifier in
        if (1 <? length caseCodingKeysDecls)%nat then ret false
        else
          result <- match caseCodingKeysDecls with
                    | [] =>
                        e <- addImplicitCaseCodingKeys elementDecl codingKeysEnum ;;
                        ret (option_map EnumDecl_asMember e)
                    | front :: _ => ret (Some front)
                    end ;;
          match result with
          | None => trap (NullDereference "dyn_cast<TypeDecl>(result)")
          | Some (VD_Type codingKeysTypeDecl) =>
              let properties := caseParametersByName elementDecl in
              validateCodingKeysEnum_varDecls proto properties codingKeysTypeDecl
          | Some result =>
              diagnose (codable_codingkeys_type_is_not_an_enum_here
                          (ValueDecl_name result) proto) ;;
              ret false
          end
    end.

(* ------------------------------------------------------------------ *)
(** ** Builders of AST fragments *)

Record SynthesizedVarDecl : Type := {
  svd_name : Identifier;
  svd_introducer : Introducer;
  svd_type : TypeRepr
}.

Definition SynthesizedVarDecl_asNode (d : SynthesizedVarDecl) : ASTNode :=
  N_VarDecl (svd_name d) (svd_introducer d) (svd_type d).

(** Creates a new var decl representing
      [var/let identifier : containerBase<keyType>]. *)
Definition createKeyedContainer (keyedContainerDecl : Identifier)
           (keyType : TypeRepr) (introducer : Introducer)
           (identifier : Identifier) : SynthesizedVarDecl :=
  {| svd_name := identifier;
     svd_introducer := introducer;
     svd_type := BoundGenericType keyedContainerDecl keyType |}.

Definition KeyedEncodingContainerDecl : Identifier := "KeyedEncodingContainer".
Definition KeyedDecodingContainerDecl : Identifier := "KeyedDecodingContainer".
Definition DecodingErrorDecl : Identifier := "DecodingError".
Definition EncodingErrorDecl : Identifier := "EncodingError".
(** [C.getEqualIntDecl()]. *)
Definition EqualIntDecl : Identifier := "==".

(** Creates a new CallExpr representing
      [base.container(keyedBy: CodingKeys.self)]. *)
Definition createContainerKeyedByCall (base : Expr) (param : EnumDecl) : Expr :=
  let unboundCall := UnresolvedDotExpr base Id_container (Some [Id_keyedBy]) in
  let codingKeysExpr := TypeExpr (DeclaredType (enum_name param)) in
  let codingKeysMetaTypeExpr := DotSelfExpr codingKeysExpr in
  CallExpr unboundCall [codingKeysMetaTypeExpr] [Id_keyedBy].

(** [base.nestedContainer(keyedBy: CodingKeys.self, forKey: key)]; the key
    is a case [key] of the enum [keyParent]. *)
Definition createNestedContainerKeyedByForKeyCall (base : Expr)
           (codingKeysType : EnumDecl) (keyParent : EnumDecl)
           (key : Identifier) : Expr :=
  let argNames := [Id_keyedBy; Id_forKey] in
  let unboundCall := UnresolvedDotExpr base Id_nestedContainer (Some argNames) in
  let codingKeysExpr := TypeExpr (DeclaredType (enum_name codingKeysType)) in
  let codingKeysMetaTypeExpr := DotSelfExpr codingKeysExpr in
  let metaTyRef := TypeExpr (DeclaredType (enum_name keyParent)) in
  let keyExpr := MemberRefExpr metaTyRef key in
  CallExpr unboundCall [codingKeysMetaTypeExpr; keyExpr] argNames.

(** [Context.init(codingPath:debugDescription:underlyingError:)] applied to
    the container's coding path, the message and [nil]. *)
Definition createErrorContextInitCall (errorDecl : Identifier)
           (containerExpr debugMessage : Expr) : Expr :=
  let contextTypeExpr := TypeExpr (MemberType errorDecl Id_Context) in
  let labels := [Id_codingPath; Id_debugDescription; Id_underlyingError] in
  let contextInitCall := UnresolvedDotExpr contextTypeExpr Id_init (Some labels) in
  let codingPathExpr := UnresolvedDotExpr containerExpr Id_codingPath None in
  CallExpr contextInitCall [codingPathExpr; debugMessage; NilLiteralExpr] labels.

Definition createThrowDecodingErrorTypeMismatchStmt (targetDecl : Identifier)
           (containerExpr debugMessage : Expr) : ASTNode :=
  let errorDecl := DecodingErrorDecl in
  let contextInitCallExpr :=
    createErrorContextInitCall errorDecl containerExpr debugMessage in
  let decodingErrorTypeExpr := TypeExpr (DeclaredType errorDecl) in
  let decodingErrorCall :=
    UnresolvedDotExpr decodingErrorTypeExpr Id_typeMismatch
                      (Some [Identifier_empty; Identifier_empty]) in
  let targetType := TypeExpr (DeclaredType targetDecl) in
  let targetTypeExpr := DotSelfExpr targetType in
  let decodingErrorCallExpr :=
    CallExpr decodingErrorCall [targetTypeExpr; contextInitCallExpr]
             [Identifier_empty; Identifier_empty] in
  N_Throw decodingErrorCallExpr.

Definition createThrowEncodingErrorInvalidValueStmt
           (valueExpr containerExpr debugMessage : Expr) : ASTNode :=
  let errorDecl := EncodingErrorDecl in
  let contextInitCallExpr :=
    createErrorContextInitCall errorDecl containerExpr debugMessage in
  let decodingErrorTypeExpr := TypeExpr (DeclaredType errorDecl) in
  let decodingErrorCall :=
    UnresolvedDotExpr decodingErrorTypeExpr Id_invalidValue
                      (Some [Identifier_empty; Identifier_empty]) in
  let decodingErrorCallExpr :=
    CallExpr decodingErrorCall [valueExpr; contextInitCallExpr]
             [Identifier_empty; Identifier_empty] in
  N_Throw decodingErrorCallExpr.

(** Looks up the property corresponding to the indicated coding key: the
    [VarDecl], the type to pass when decoding it, and whether
    [encodeIfPresent]/[decodeIfPresent] should be used. *)
Fixpoint lookupVarDeclForCodingKeysCase_in (decls : list ValueDecl)
  : option (VarDecl * Ty * bool) :=
  match decls with
  | [] => None
  | VD_Var vd backingVar :: rest =>
      (* If we found a property with an attached wrapper, retrieve the
         backing property. *)
      let vd := match backingVar with Some b => b | None => vd end in
      if negb (var_isStatic vd) then
        (* This is the VarDecl we're looking for. *)
        let varType := var_type vd in
        match getOptionalObjectType varType with
        | Some objType => Some (vd, objType, true)
        | None => Some (vd, varType, false)
        end
      else lookupVarDeclForCodingKeysCase_in rest
  | _ :: rest => lookupVarDeclForCodingKeysCase_in rest
  end.

Definition lookupVarDeclForCodingKeysCase (elt : Identifier)
           (targetDecl : NominalTypeDecl) : Sema (VarDecl * Ty * bool) :=
  match lookupVarDeclForCodingKeysCase_in (lookupDirect targetDecl elt) with
  | Some found => ret found
  | None => trap (Unreachable "Should have found at least 1 var decl")
  end.

(** [DerivedConformance::createSelfDeclRef]. *)
Definition createSelfDeclRef : Expr := DeclRefExpr Id_self Ordinary.

(** Modelled from the spec: [DerivedConformance::enumElementPayloadSubpattern]
    lives in DerivedConformances.cpp, which is not among the sources; the
    encode synthesiser (spec 4.4: one encode call per payload key) only
    relies on it binding one variable per payload slot, in order, named
    [prefix<index>] and of the slot's type, and on the sub-pattern being
    null for a case without payload. *)
Definition enumElementPayloadSubpattern (elt : EnumElementDecl)
           (prefix : string) : option Pattern * list (Identifier * Ty) :=
  match elt_params elt with
  | None => (None, [])
  | Some params =>
      let boundVars :=
        map (fun entry => ((prefix ++ to_string (fst entry))%string,
                           param_type (snd entry)))
            (enumerate params) in
      (Some (TuplePattern
               (map (fun entry => (param_name (snd entry),
                                   (prefix ++ to_string (fst entry))%string))
                    (enumerate params))),
       boundVars)
  end.

(* ------------------------------------------------------------------ *)
(** ** Synthesis of [encode(to:)] *)

(** The evaluated [CodingKeys] enum, which the body synthesisers assert to
    exist. *)
Definition requireCodingKeysEnum (targetDecl : NominalTypeDecl) : Sema EnumDecl :=
  codingKeysEnum <- lookupEvaluatedCodingKeysEnum targetDecl Id_CodingKeys ;;
  match codingKeysEnum with
  | None => trap (AssertionFailed "Missing CodingKeys decl.")
  | Some codingKeysEnum => ret codingKeysEnum
  end.

(** One iteration of the loop over the keys in [deriveBodyEncodable_encode]:
    [try container.encode(self.x, forKey: CodingKeys.x)]. *)
Definition deriveBodyEncodable_encode_key (targetDecl : NominalTypeDecl)
           (codingKeysType : TypeRepr) (containerExpr : Expr)
           (elt : Identifier) (statements : list ASTNode)
  : Sema (list ASTNode) :=
  '(varDecl, varType, useIfPresentVariant) <-
     lookupVarDeclForCodingKeysCase elt targetDecl ;;
  (* self.x *)
  let selfRef := createSelfDeclRef in
  let varExpr := MemberRefExpr selfRef (var_name varDecl) in
  (* CodingKeys.x *)
  let metaTyRef := TypeExpr codingKeysType in
  let keyExpr := MemberRefExpr metaTyRef elt in
  (* encode(_:forKey:)/encodeIfPresent(_:forKey:) *)
  let methodName := if useIfPresentVariant then Id_encodeIfPresent else Id_encode in
  let argNames := [Identifier_empty; Id_forKey] in
  let encodeCall := UnresolvedDotExpr containerExpr methodName (Some argNames) in
  let callExpr := CallExpr encodeCall [varExpr; keyExpr] argNames in
  let tryExpr := TryExpr callExpr in
  ret (statements ++ [N_Expr tryExpr]).

(** Synthesizes the body for [func encode(to encoder: Encoder) throws]. *)
Definition deriveBodyEncodable_encode : Sema (list ASTNode) :=
  targetDecl <- getNominal ;;
  codingKeysEnum <- requireCodingKeysEnum targetDecl ;;
  let codingKeysType := DeclaredType (enum_name codingKeysEnum) in
  let containerDecl :=
    createKeyedContainer KeyedEncodingContainerDecl codingKeysType Var
                         Id_container in
  let containerExpr := DeclRefExpr (svd_name containerDecl) DirectToStorage in
  (* encoder *)
  let encoderExpr := DeclRefExpr Id_encoder Ordinary in
  let callExpr := createContainerKeyedByCall encoderExpr codingKeysEnum in
  let containerPattern := NamedPattern (svd_name containerDecl) in
  let bindingDecl := N_PatternBinding containerPattern callExpr in
  let statements := [bindingDecl; SynthesizedVarDecl_asNode containerDecl] in
  statements <-
    forEach (enum_elements codingKeysEnum)
            (deriveBodyEncodable_encode_key targetDecl codingKeysType containerExpr)
            statements ;;
  (* Classes which inherit from something Codable should encode super as
     well. *)
  if superclassConformsTo (dyn_cast_ClassDecl targetDecl) Encodable then
    let method := UnresolvedDeclRefExpr Id_superEncoder in
    let superEncoderRef := DotSyntaxCallExpr containerExpr method in
    let encodeDeclRef := DeclRefExpr Id_encode Ordinary in
    let superRef := SuperRefExpr in
    let encodeCall := DotSyntaxCallExpr superRef encodeDeclRef in
    let callExpr := CallExpr encodeCall [superEncoderRef] [Id_to] in
    let tryExpr := TryExpr callExpr in
    ret (statements ++ [N_Expr tryExpr])
  else ret statements.

(** The message of the error thrown when encoding a case that has no key. *)
Definition deriveBodyEncodable_enum_encode_message (elt : EnumElementDecl)
  : string :=
  let buffer := ""%string in
  let buffer := (buffer ++ "Case '")%string in
  let buffer := (buffer ++ elt_name elt)%string in
  (buffer ++ "' cannot be decoded because it is not defined in CodingKeys.")%string.

(** One iteration of the inner loop over the payload variables of a case:
    [try nestedContainer.encode(x, forKey: CodingKeys.x)]. *)
Definition deriveBodyEncodable_enum_encode_payload (elt : EnumElementDecl)
           (caseCodingKeys : EnumDecl) (nestedContainerDecl : SynthesizedVarDecl)
           (entry : nat * (Identifier * Ty)) (caseStatements : list ASTNode)
  : Sema (list ASTNode) :=
  let payloadVar := snd entry in
  let nestedContainerExpr :=
    DeclRefExpr (svd_name nestedContainerDecl) DirectToStorage in
  let payloadVarRef := DeclRefExpr (fst payloadVar) Ordinary in
  match nth_error (getParameterList elt) (fst entry) with
  | None => trap (AssertionFailed "ParameterList::get: index out of range")
  | Some paramDecl =>
      let caseCodingKeysIdentifier := paramCodingIdentifier (fst entry) paramDecl in
      match lookupEnumCase caseCodingKeys caseCodingKeysIdentifier with
      | None =>
          (* If there is no key defined for this parameter, skip it. *)
          ret caseStatements
      | Some caseCodingKey =>
          let varType := snd payloadVar in
          let useIfPresentVariant :=
            match getOptionalObjectType varType with
            | Some _ => true
            | None => false
            end in
          (* BarCodingKeys.x *)
          let metaTyRef := TypeExpr (DeclaredType (enum_name caseCodingKeys)) in
          let keyExpr := MemberRefExpr metaTyRef caseCodingKey in
          let methodName :=
            if useIfPresentVariant then Id_encodeIfPresent else Id_encode in
          let argNames := [Identifier_empty; Id_forKey] in
          let encodeCall :=
            UnresolvedDotExpr nestedContainerExpr methodName (Some argNames) in
          let callExpr := CallExpr encodeCall [payloadVarRef; keyExpr] argNames in
          let tryExpr := TryExpr callExpr in
          ret (caseStatements ++ [N_Expr tryExpr])
      end
  end.

(** One iteration of the loop over the cases of the enum in
    [deriveBodyEncodable_enum_encode]. *)
Definition deriveBodyEncodable_enum_encode_case (enumDecl : NominalTypeDecl)
           (codingKeysEnum : EnumDecl) (containerExpr : Expr)
           (elt : EnumElementDecl) (cases : list CaseStmt)
  : Sema (list CaseStmt) :=
  (* CodingKeys.x *)
  let codingKeyCase := lookupEnumCase codingKeysEnum (elt_name elt) in
  (* .<elt>(let a0, let a1, ...) *)
  let '(subpattern, payloadVars) := enumElementPayloadSubpattern elt "a" in
  let hasBoundDecls := match payloadVars with [] => false | _ => true end in
  let caseBodyVarDecls :=
    if hasBoundDecls then Some (map fst payloadVars) else None in
  caseStatements <-
    match codingKeyCase with
    | None =>
        (* This case should not be encodable, so throw an error if an attempt
           is made to encode it *)
        let debugMessage :=
          StringLiteralExpr (deriveBodyEncodable_enum_encode_message elt) in
        let selfRefExpr := DeclRefExpr Id_self Ordinary in
        let throwStmt :=
          createThrowEncodingErrorInvalidValueStmt selfRefExpr containerExpr
                                                   debugMessage in
        ret [throwStmt]
    | Some codingKeyCase =>
        let caseIdentifier := caseCodingKeysIdentifier elt in
        caseCodingKeys <- lookupEvaluatedCodingKeysEnum enumDecl caseIdentifier ;;
        match caseCodingKeys with
        | None =>
            trap (NullDereference "caseCodingKeys->getDeclaredInterfaceType()")
        | Some caseCodingKeys =>
            let nestedContainerDecl :=
              createKeyedContainer KeyedEncodingContainerDecl
                                   (DeclaredType (enum_name caseCodingKeys))
                                   Var Id_nestedContainer in
            let nestedContainerCall :=
              createNestedContainerKeyedByForKeyCall
                containerExpr caseCodingKeys codingKeysEnum codingKeyCase in
            let containerPattern := NamedPattern (svd_name nestedContainerDecl) in
            let bindingDecl := N_PatternBinding containerPattern nestedContainerCall in
            forEach (enumerate payloadVars)
                    (deriveBodyEncodable_enum_encode_payload
                       elt caseCodingKeys nestedContainerDecl)
                    [bindingDecl; SynthesizedVarDecl_asNode nestedContainerDecl]
        end
    end ;;
  (* generate: case .<Case>: *)
  let pat := EnumElementPattern (DeclaredType (nominal_name enumDecl))
                                (elt_name elt) subpattern in
  ret (cases ++ [CaseStmt_create pat caseStatements caseBodyVarDecls]).

Definition deriveBodyEncodable_enum_encode : Sema (list ASTNode) :=
  enumDecl <- getNominal ;;
  codingKeysEnum <- requireCodingKeysEnum enumDecl ;;
  let containerDecl :=
    createKeyedContainer KeyedEncodingContainerDecl
                         (DeclaredType (enum_name codingKeysEnum)) Var
                         Id_container in
  let containerExpr := DeclRefExpr (svd_name containerDecl) DirectToStorage in
  let encoderExpr := DeclRefExpr Id_encoder Ordinary in
  let callExpr := createContainerKeyedByCall encoderExpr codingKeysEnum in
  let containerPattern := NamedPattern (svd_name containerDecl) in
  let bindingDecl := N_PatternBinding containerPattern callExpr in
  let statements := [bindingDecl; SynthesizedVarDecl_asNode containerDecl] in
  cases <-
    forEach (getAllElements enumDecl)
            (deriveBodyEncodable_enum_encode_case enumDecl codingKeysEnum
                                                  containerExpr)
            [] ;;
  (* generate: switch self { } *)
  let enumRef := DeclRefExpr Id_self Ordinary in
  let switchStmt := N_Switch enumRef cases in
  ret (statements ++ [switchStmt]).

(* ------------------------------------------------------------------ *)
(** ** Synthesis of [init(from:)] *)

(** One iteration of the loop over the keys in [deriveBodyDecodable_init]:
    [self.x = try container.decode(Type.self, forKey: CodingKeys.x)], or
    nothing (and perhaps a warning) for a [let] with an initial value. *)
Definition deriveBodyDecodable_init_key (targetDecl : NominalTypeDecl)
           (codingKeysEnum : EnumDecl) (codingKeysType : TypeRepr)
           (containerExpr : Expr) (elt : Identifier)
           (statements : list ASTNode) : Sema (list ASTNode) :=
  '(varDecl, varType, useIfPresentVariant) <-
     lookupVarDeclForCodingKeysCase elt targetDecl ;;
  (* Don't output a decode statement for a let with an initial value. *)
  if var_isLet varDecl && isParentInitialized varDecl then
    (* But emit a warning to let the user know that it won't be decoded. *)
    let keyExistsInCodingKeys :=
      existsb (String.eqb (var_name varDecl)) (enum_elements codingKeysEnum) in
    let conformsToEncodable := nominal_conformsToEncodable targetDecl in
    if negb (enum_isImplicit codingKeysEnum)
       && (conformsToEncodable || negb keyExistsInCodingKeys)
    then ret statements
    else
      diagnose (decodable_property_will_not_be_decoded (var_name varDecl)) ;;
      (if enum_isImplicit codingKeysEnum then
         diagnose (decodable_property_init_or_codingkeys_implicit
                     (var_name varDecl) (if conformsToEncodable then 0 else 1))
       else
         diagnose (decodable_property_init_or_codingkeys_explicit
                     (var_name varDecl))) ;;
      match getParentPatternBinding varDecl with
      | Some _ => diagnose (decodable_make_property_mutable (var_name varDecl))
      | None => ret tt
      end ;;
      ret statements
  else
    let methodName := if useIfPresentVariant then Id_decodeIfPresent else Id_decode in
    (* Type.self (where Type === type(of: x)) *)
    let metaTyRef := TypeExpr (ValueType varType) in
    let targetExpr := DotSelfExpr metaTyRef in
    (* CodingKeys.x *)
    let metaTyRef := TypeExpr codingKeysType in
    let keyExpr := MemberRefExpr metaTyRef elt in
    (* decode(_:forKey:)/decodeIfPresent(_:forKey:) *)
    let argNames := [Identifier_empty; Id_forKey] in
    let decodeCall := UnresolvedDotExpr containerExpr methodName (Some argNames) in
    let callExpr := CallExpr decodeCall [targetExpr; keyExpr] argNames in
    let tryExpr := TryExpr callExpr in
    let selfRef := createSelfDeclRef in
    let varExpr := UnresolvedDotExpr selfRef (var_name varDecl) None in
    let assignExpr := AssignExpr varExpr tryExpr in
    ret (statements ++ [N_Expr assignExpr]).

(** [superclassDecl->lookupDirect(initName)] for the compound name [init()]
    taking no arguments. *)
Definition lookupDirect_init (superclassDecl : ClassDecl)
           (argLabels : list Identifier) : list ConstructorDecl :=
  filter (fun c => if list_eq_dec string_dec (ctor_argLabels c) argLabels
                   then true else false)
         (class_directInits superclassDecl).

(** The call to the superclass initialiser that ends
    [deriveBodyDecodable_init]. *)
Definition deriveBodyDecodable_init_super (targetDecl : NominalTypeDecl)
           (containerExpr : Expr) (statements : list ASTNode)
  : Sema (list ASTNode) :=
  match dyn_cast_ClassDecl targetDecl with
  | Some (Some superclassDecl) =>
      if superclassConformsTo (dyn_cast_ClassDecl targetDecl) Decodable then
        (* try super.init(from: container.superDecoder()) *)
        let superDecoderRef := UnresolvedDotExpr containerExpr Id_superDecoder None in
        let superDecoderCall := CallExpr superDecoderRef [] [] in
        let superRef := SuperRefExpr in
        let initCall := UnresolvedDotExpr superRef Id_init (Some [Id_from]) in
        let callExpr := CallExpr initCall [superDecoderCall] [Id_from] in
        let tryExpr := TryExpr callExpr in
        ret (statements ++ [N_Expr tryExpr])
      else
        (* We need to look this up in the superclass to see if it throws. *)
        match lookupDirect_init superclassDecl [] with
        | [] => trap (AssertionFailed "!result.empty()")
        | superInitDecl :: _ =>
            assert (negb (ctor_isFailable superInitDecl))
                   "!superInitDecl->isFailable()" ;;
            let superRef := SuperRefExpr in
            let superInitRef := UnresolvedDotExpr superRef Id_init (Some []) in
            let callExpr := CallExpr superInitRef [] [] in
            (* If super.init throws, try super.init() *)
            let callExpr :=
              if ctor_hasThrows superInitDecl then TryExpr callExpr
              else callExpr in
            ret (statements ++ [N_Expr callExpr])
        end
  | _ => ret statements
  end.

(** Synthesizes the body for [init(from decoder: Decoder) throws]. *)
Definition deriveBodyDecodable_init : Sema (list ASTNode) :=
  targetDecl <- getNominal ;;
  codingKeysEnum <- requireCodingKeysEnum targetDecl ;;
  let codingKeysType := DeclaredType (enum_name codingKeysEnum) in
  let containerDecl :=
    createKeyedContainer KeyedDecodingContainerDecl codingKeysType Let
                         Id_container in
  let containerExpr := DeclRefExpr (svd_name containerDecl) DirectToStorage in
  let statements : list ASTNode := [] in
  let enumElements := enum_elements codingKeysEnum in
  statements <-
    match enumElements with
    | [] => ret statements
    | _ :: _ =>
        (* let container = try decoder.container(keyedBy: CodingKeys.self) *)
        let decoderExpr := DeclRefExpr Id_decoder Ordinary in
        let callExpr := createContainerKeyedByCall decoderExpr codingKeysEnum in
        let tryExpr := TryExpr callExpr in
        let containerPattern := NamedPattern (svd_name containerDecl) in
        let bindingDecl := N_PatternBinding containerPattern tryExpr in
        let statements :=
          statements ++ [bindingDecl; SynthesizedVarDecl_asNode containerDecl] in
        forEach enumElements
                (deriveBodyDecodable_init_key targetDecl codingKeysEnum
                                              codingKeysType containerExpr)
                statements
    end ;;
  (* Classes which have a superclass must call super.init(from:) if the
     superclass is Decodable, or super.init() if it is not. *)
  deriveBodyDecodable_init_super targetDecl containerExpr statements.

(** One iteration of the loop over the payload slots of a case in
    [deriveBodyDecodable_enum_init]: the argument built for the slot and its
    label. *)
Definition deriveBodyDecodable_enum_init_param (caseCodingKeys : EnumDecl)
           (nestedContainerDecl : SynthesizedVarDecl)
           (entry : nat * ParamDecl) (acc : list Expr * list Identifier)
  : Sema (list Expr * list Identifier) :=
  let '(decodeCalls, params) := acc in
  let paramDecl := snd entry in
  let identifier := paramCodingIdentifier (fst entry) paramDecl in
  let caseCodingKey := lookupEnumCase caseCodingKeys identifier in
  let params := params ++ [getVarNameForCoding (ParamDecl_asVarDecl paramDecl)] in
  match caseCodingKey with
  | None =>
      (* If no key is defined for this parameter, use the default value.
         This should have been verified to have a default expr in the
         CodingKey synthesis *)
      match param_defaultExpr paramDecl with
      | None => trap (AssertionFailed "paramDecl->hasDefaultExpr()")
      | Some typeCheckedDefaultExpr =>
          ret (decodeCalls ++ [typeCheckedDefaultExpr], params)
      end
  | Some caseCodingKey =>
      (* Type.self *)
      let parameterTypeExpr := TypeExpr (ValueType (param_type paramDecl)) in
      let parameterMetaTypeExpr := DotSelfExpr parameterTypeExpr in
      (* BarCodingKeys.x *)
      let metaTyRef := TypeExpr (DeclaredType (enum_name caseCodingKeys)) in
      let keyExpr := MemberRefExpr metaTyRef caseCodingKey in
      let nestedContainerExpr :=
        DeclRefExpr (svd_name nestedContainerDecl) DirectToStorage in
      (* decode(_:, forKey:) *)
      let decodeCall :=
        UnresolvedDotExpr nestedContainerExpr Id_decode
                          (Some [Identifier_empty; Id_forKey]) in
      let callExpr :=
        CallExpr decodeCall [parameterMetaTypeExpr; keyExpr]
                 [Identifier_empty; Id_forKey] in
      let tryExpr := TryExpr callExpr in
      ret (decodeCalls ++ [tryExpr], params)
  end.

(** One iteration of the loop over the cases of the enum in
    [deriveBodyDecodable_enum_init]. *)
Definition deriveBodyDecodable_enum_init_case (targetEnum : NominalTypeDecl)
           (codingKeysEnum : EnumDecl) (containerExpr : Expr)
           (elt : EnumElementDecl) (cases : list CaseStmt)
  : Sema (list CaseStmt) :=
  match lookupEnumCase codingKeysEnum (elt_name elt) with
  | None =>
      (* Skip this case if it's not defined in the CodingKeys *)
      ret cases
  | Some codingKeyCase =>
      (* generate: case .<Case>: *)
      let pat := EnumElementPattern (DeclaredType (enum_name codingKeysEnum))
                                    codingKeyCase None in
      let labelItem := OptionalSomePattern pat in
      let caseIdentifier := caseCodingKeysIdentifier elt in
      caseCodingKeys <- lookupEvaluatedCodingKeysEnum targetEnum caseIdentifier ;;
      match caseCodingKeys with
      | None =>
          trap (NullDereference "caseCodingKeys->getDeclaredInterfaceType()")
      | Some caseCodingKeys =>
          let nestedContainerDecl :=
            createKeyedContainer KeyedDecodingContainerDecl
                                 (DeclaredType (enum_name caseCodingKeys))
                                 Var Id_nestedContainer in
          let nestedContainerCall :=
            createNestedContainerKeyedByForKeyCall
              containerExpr caseCodingKeys codingKeysEnum codingKeyCase in
          let tryNestedContainerCall := TryExpr nestedContainerCall in
          let containerPattern := NamedPattern (svd_name nestedContainerDecl) in
          let bindingDecl :=
            N_PatternBinding containerPattern tryNestedContainerCall in
          let caseStatements :=
            [bindingDecl; SynthesizedVarDecl_asNode nestedContainerDecl] in
          '(decodeCalls, params) <-
            (if hasAssociatedValues elt then
               forEach (enumerate (getParameterList elt))
                       (deriveBodyDecodable_enum_init_param
                          caseCodingKeys nestedContainerDecl)
                       ([], [])
             else ret ([], [])) ;;
          let selfRef := createSelfDeclRef in
          (* Foo.bar *)
          let selfTypeExpr := TypeExpr (DeclaredType (nominal_name targetEnum)) in
          let assignExpr :=
            match params with
            | [] =>
                let selfCaseExpr := MemberRefExpr selfTypeExpr (elt_name elt) in
                AssignExpr selfRef selfCaseExpr
            | _ :: _ =>
                (* Foo.bar(x:) *)
                let selfCaseExpr :=
                  UnresolvedDotExpr selfTypeExpr (elt_name elt) (Some params) in
                let caseCallExpr := CallExpr selfCaseExpr decodeCalls params in
                AssignExpr selfRef caseCallExpr
            end in
          let caseStatements := caseStatements ++ [N_Expr assignExpr] in
          ret (cases ++ [CaseStmt_create labelItem caseStatements None])
      end
  end.

(** The fixed message of the error thrown when the number of keys found in
    the container is not one. *)
Definition deriveBodyDecodable_enum_init_message : string :=
  "Invalid number of keys found, expected one.".

(** Synthesizes the body for [init(from decoder: Decoder) throws] of an
    enum. *)
Definition deriveBodyDecodable_enum_init : Sema (list ASTNode) :=
  targetEnum <- getNominal ;;
  codingKeysEnum <- requireCodingKeysEnum targetEnum ;;
  let containerDecl :=
    createKeyedContainer KeyedDecodingContainerDecl
                         (DeclaredType (enum_name codingKeysEnum)) Let
                         Id_container in
  let containerExpr := DeclRefExpr (svd_name containerDecl) DirectToStorage in
  let statements : list ASTNode := [] in
  if hasCases codingKeysEnum then
    let decoderExpr := DeclRefExpr Id_decoder Ordinary in
    let callExpr := createContainerKeyedByCall decoderExpr codingKeysEnum in
    let tryExpr := TryExpr callExpr in
    let containerPattern := NamedPattern (svd_name containerDecl) in
    let bindingDecl := N_PatternBinding containerPattern tryExpr in
    let statements :=
      statements ++ [bindingDecl; SynthesizedVarDecl_asNode containerDecl] in
    cases <-
      forEach (getAllElements targetEnum)
              (deriveBodyDecodable_enum_init_case targetEnum codingKeysEnum
                                                  containerExpr)
              [] ;;
    (* generate:
         if container.allKeys.count != 1 {
           throw DecodingError.typeMismatch(Foo.self, context) } *)
    let debugMessage := StringLiteralExpr deriveBodyDecodable_enum_init_message in
    let throwStmt :=
      createThrowDecodingErrorTypeMismatchStmt (nominal_name targetEnum)
                                               containerExpr debugMessage in
    (* container.allKeys *)
    let allKeysExpr := UnresolvedDotExpr containerExpr Id_allKeys None in
    (* container.allKeys.count *)
    let keysCountExpr := UnresolvedDotExpr allKeysExpr Id_count None in
    (* container.allKeys.count == 1 *)
    let cmpFuncExpr := DeclRefExpr EqualIntDecl Ordinary in
    let oneExpr := IntegerLiteralExpr 1 in
    let tupleExpr := TupleExpr [keysCountExpr; oneExpr] in
    let cmpExpr := BinaryExpr cmpFuncExpr tupleExpr in
    let guardBody := [throwStmt] in
    let guardStmt := N_Guard cmpExpr guardBody in
    let statements := statements ++ [guardStmt] in
    (* generate: switch container.allKeys.first { } *)
    let firstExpr := UnresolvedDotExpr allKeysExpr Id_first None in
    let switchStmt := N_Switch firstExpr cases in
    ret (statements ++ [switchStmt])
  else ret statements.

(* ------------------------------------------------------------------ *)
(** ** Entry points *)

Record DerivedConformance : Type := {
  Protocol : KnownProtocolKind;
  (** the answer of [checkAndDiagnoseDisallowedContext] (DerivedConformances.cpp) *)
  InDisallowedContext : bool
}.

Inductive BodySynthesizer : Type :=
| BodyEncodable_encode
| BodyEncodable_enum_encode
| BodyDecodable_init
| BodyDecodable_enum_init.

Inductive DeclAttr : Type :=
| OverrideAttr
| RequiredAttr.

Record SynthesizedFunction : Type := {
  fn_name : DeclName;
  fn_bodySynthesizer : BodySynthesizer;
  fn_attrs : list DeclAttr
}.

(** The lazily run body synthesiser of a synthesised declaration. *)
Definition runBodySynthesizer (b : BodySynthesizer) : Sema (list ASTNode) :=
  match b with
  | BodyEncodable_encode => deriveBodyEncodable_encode
  | BodyEncodable_enum_encode => deriveBodyEncodable_enum_encode
  | BodyDecodable_init => deriveBodyDecodable_init
  | BodyDecodable_enum_init => deriveBodyDecodable_enum_init
  end.

(** Synthesizes a function declaration for [encode(to: Encoder) throws]
    with a lazily synthesized body for the given type. *)
Definition deriveEncodable_encode : Sema SynthesizedFunction :=
  nominal <- getNominal ;;
  let name := {| name_base := Id_encode; name_argLabels := Some [Id_to] |} in
  let bodySynthesizer :=
    if isa_EnumDecl nominal then BodyEncodable_enum_encode
    else BodyEncodable_encode in
  let attrs :=
    if superclassConformsTo (dyn_cast_ClassDecl nominal) Encodable
    then [OverrideAttr] else [] in
  addMember (VD_Func Id_encode) ;;
  ret {| fn_name := name; fn_bodySynthesizer := bodySynthesizer;
         fn_attrs := attrs |}.

(** Synthesizes a function declaration for [init(from: Decoder) throws]. *)
Definition deriveDecodable_init : Sema SynthesizedFunction :=
  nominal <- getNominal ;;
  let name := {| name_base := Id_init; name_argLabels := Some [Id_from] |} in
  let bodySynthesizer :=
    if isa_EnumDecl nominal then BodyDecodable_enum_init
    else BodyDecodable_init in
  (* This constructor should be marked as `required` for non-final classes. *)
  let attrs :=
    match nominal_kind nominal with
    | ClassKind _ false => [RequiredAttr]
    | _ => []
    end in
  addMember (VD_Func Id_init) ;;
  ret {| fn_name := name; fn_bodySynthesizer := bodySynthesizer;
         fn_attrs := attrs |}.

(** [TypeChecker::lookupMember(superclassDecl, superType, memberName)]
    restricted to initialisers: direct and inherited ones of that name. *)
Definition lookupMember (superclassDecl : ClassDecl) (memberName : DeclName)
  : list ConstructorDecl :=
  filter (fun c =>
            String.eqb (name_base memberName) Id_init
            && match name_argLabels memberName with
               | None => true
               | Some labels =>
                   if list_eq_dec string_dec (ctor_argLabels c) labels
                   then true else false
               end)
         (class_directInits superclassDecl ++ class_inheritedInits superclassDecl).

(** [llvm::SmallMapVector<Identifier, ParamDecl *, 4>::find]. *)
Fixpoint ParamMap_find (m : list (Identifier * ParamDecl)) (k : Identifier)
  : option ParamDecl :=
  match m with
  | [] => None
  | (k', v) :: rest => if String.eqb k' k then Some v else ParamMap_find rest k
  end.

(** The check of the superclass initialiser that opens [canSynthesize];
    [false] stands for the early [return false]. *)
Definition canSynthesize_superInit (derived : DerivedConformance)
           (requirement : DeclName) : Sema bool :=
  nominal <- getNominal ;;
  let proto := Protocol derived in
  match dyn_cast_ClassDecl nominal with
  | Some (Some superclassDecl) =>
      if isSpecificProtocol proto Decodable then
        let memberName :=
          if class_conformsTo superclassDecl proto then
            (* super.init(from:) must be accessible. *)
            requirement
          else
            (* super.init() must be accessible. *)
            {| name_base := Id_init; name_argLabels := Some [] |} in
        let result := lookupMember superclassDecl memberName in
        match result with
        | [] =>
            (* No super initializer for us to call. *)
            diagnose (decodable_no_super_init_here
                        (class_name superclassDecl) requirement memberName) ;;
            ret false
        | _ :: _ :: _ =>
            (* There are multiple results for this lookup. We'll end up
               producing a diagnostic later complaining about duplicate
               methods (if we haven't already), so just bail with a general
               error. *)
            ret false
        | [initializer] =>
            if negb (ctor_isDesignatedInit initializer) then
              (* We must call a superclass's designated initializer. *)
              diagnose (decodable_super_init_not_designated_here
                          requirement memberName) ;;
              ret false
            else if negb (ctor_isAccessibleFromConformance initializer) then
              (* Cannot call an inaccessible method. *)
              diagnose (decodable_inaccessible_super_init_here
                          requirement memberName) ;;
              ret false
            else if ctor_isFailable initializer then
              (* We can't call super.init() if it's failable, since
                 init(from:) isn't failable. *)
              diagnose (decodable_super_init_is_failable_here
                          requirement memberName) ;;
              ret false
            else ret true
        end
      else ret true
  | _ => ret true
  end.

(** The inner loop of [canSynthesize] over the payload slots of a case:
    duplicate identifiers are diagnosed. *)
Definition canSynthesize_param (derived : DerivedConformance)
           (elementDecl : EnumElementDecl) (entry : nat * ParamDecl)
           (acc : list (Identifier * ParamDecl) * bool)
  : Sema (list (Identifier * ParamDecl) * bool) :=
  let '(params, allValid) := acc in
  let paramDecl := snd entry in
  let paramIdentifier := paramCodingIdentifier (fst entry) paramDecl in
  let generatedName :=
    Identifier_isEmpty (getVarNameForCoding (ParamDecl_asVarDecl paramDecl)) in
  match ParamMap_find params paramIdentifier with
  | None => ret (params ++ [(paramIdentifier, paramDecl)], allValid)
  | Some inserted_first_second =>
      (* duplicate identifier found *)
      let userDefinedParam :=
        if generatedName then inserted_first_second else paramDecl in
      diagnose (codable_enum_duplicate_parameter_name_here
                  (param_name userDefinedParam) (Protocol derived)
                  paramIdentifier (elt_name elementDecl)) ;;
      ret (params, false)
  end.

(** The loop of [canSynthesize] over the cases of an enum. *)
Definition canSynthesize_element (derived : DerivedConformance)
           (elementDecl : EnumElementDecl) (acc : list Identifier * bool)
  : Sema (list Identifier * bool) :=
  let '(caseNames, allValid) := acc in
  let duplicate := existsb (String.eqb (elt_name elementDecl)) caseNames in
  '(caseNames, allValid) <-
    (if duplicate then
       diagnose (codable_enum_duplicate_case_name_here
                   (elt_name elementDecl) (Protocol derived)) ;;
       ret (caseNames, false)
     else ret (caseNames ++ [elt_name elementDecl], allValid)) ;;
  allValid <-
    (if hasAssociatedValues elementDecl then
       '(_, allValid) <-
         forEach (enumerate (getParameterList elementDecl))
                 (canSynthesize_param derived elementDecl) ([], allValid) ;;
       ret allValid
     else ret allValid) ;;
  if negb duplicate then
    valid <- validateCaseCodingKeysEnum (Protocol derived) elementDecl ;;
    if negb valid then ret (caseNames, false) else ret (caseNames, allValid)
  else ret (caseNames, allValid).

(** Returns whether the given type is valid for synthesizing
    {En,De}codable.  Checks to see whether the given type has a valid
    CodingKeys enum, and if not, attempts to synthesize one for it. *)
Definition canSynthesize (derived : DerivedConformance) (requirement : DeclName)
  : Sema bool :=
  superInitOk <- canSynthesize_superInit derived requirement ;;
  if negb superInitOk then ret false
  else
    valid <- validateCodingKeysEnum (Protocol derived) ;;
    if negb valid then ret false
    else
      enumDecl <- getNominal ;;
      if isa_EnumDecl enumDecl then
        '(_, allValid) <-
          forEach (getAllElements enumDecl) (canSynthesize_element derived)
                  ([], true) ;;
        ret allValid
      else ret true.

Definition isa_Struct_Class_or_Enum (n : NominalTypeDecl) : bool :=
  match nominal_kind n with
  | StructKind | ClassKind _ _ | EnumKind => true
  | ProtocolKind => false
  end.

(** [canDeriveCodable]; [getProtocol] stands for [ASTContext::getProtocol],
    whose result is null ([false]) when the protocol is not declared. *)
Definition canDeriveCodable (getProtocol : KnownProtocolKind -> bool)
           (NTD : NominalTypeDecl) (Kind : KnownProtocolKind) : Sema bool :=
  assert (isSpecificProtocol Kind Encodable || isSpecificProtocol Kind Decodable)
         "Kind == KnownProtocolKind::Encodable || Kind == KnownProtocolKind::Decodable" ;;
  (* Structs, classes and enums can explicitly derive Encodable and
     Decodable conformance. *)
  if negb (isa_Struct_Class_or_Enum NTD) then ret false
  else
    let PD := getProtocol Kind in
    if negb PD then ret false
    else ret true.

(** [DerivedConformance::canDeriveDecodable]. *)
Definition canDeriveDecodable (getProtocol : KnownProtocolKind -> bool)
           (NTD : NominalTypeDecl) : Sema bool :=
  canDeriveCodable getProtocol NTD Decodable.

(** [DerivedConformance::canDeriveEncodable]. *)
Definition canDeriveEncodable (getProtocol : KnownProtocolKind -> bool)
           (NTD : NominalTypeDecl) : Sema bool :=
  canDeriveCodable getProtocol NTD Encodable.

(** [DerivedConformance::deriveEncodable]; [None] is the null result: no
    declaration, hence no body, is synthesised. *)
Definition deriveEncodable (derived : DerivedConformance)
           (requirement : DeclName) : Sema (option SynthesizedFunction) :=
  nominal <- getNominal ;;
  if negb (isa_Struct_Class_or_Enum nominal) then ret None
  else if negb (String.eqb (name_base requirement) Id_encode) then
    diagnose broken_encodable_requirement ;;
    ret None
  else if InDisallowedContext derived then ret None
  else
    ok <- canSynthesize derived requirement ;;
    if negb ok then
      diagnose (type_does_not_conform (nominal_name nominal) (Protocol derived)) ;;
      diagnose (no_witnesses requirement (Protocol derived)) ;;
      ret None
    else
      fn <- deriveEncodable_encode ;;
      ret (Some fn).

(** [DerivedConformance::deriveDecodable]. *)
Definition deriveDecodable (derived : DerivedConformance)
           (requirement : DeclName) : Sema (option SynthesizedFunction) :=
  nominal <- getNominal ;;
  if negb (isa_Struct_Class_or_Enum nominal) then ret None
  else if negb (String.eqb (name_base requirement) Id_init) then
    diagnose broken_decodable_requirement ;;
    ret None
  else if InDisallowedContext derived then ret None
  else
    ok <- canSynthesize derived requirement ;;
    if negb ok then
      diagnose (type_does_not_conform (nominal_name nominal) (Protocol derived)) ;;
      diagnose (no_witnesses requirement (Protocol derived)) ;;
      ret None
    else
      fn <- deriveDecodable_init ;;
      ret (Some fn).

(* ------------------------------------------------------------------ *)
(** ** Reading the generated enum initialiser at run time

    The synthesised [init(from:)] of an enum is a guard on
    [container.allKeys.count] followed by a switch on
    [container.allKeys.first].  To state what the generated statements do,
    the fragment of Swift they use is given its evident meaning over the
    list of keys the container holds. *)

Inductive RuntimeValue : Type :=
| RV_Container
| RV_Keys (keys : list Identifier)
| RV_Int (n : nat)
| RV_Bool (b : bool)
| RV_OptionalKey (key : option Identifier).

Fixpoint evalExpr (allKeys : list Identifier) (e : Expr) : option RuntimeValue :=
  match e with
  | DeclRefExpr decl _ =>
      if String.eqb decl Id_container then Some RV_Container else None
  | UnresolvedDotExpr base name None =>
      match evalExpr allKeys base with
      | Some RV_Container =>
          if String.eqb name Id_allKeys then Some (RV_Keys allKeys) else None
      | Some (RV_Keys keys) =>
          if String.eqb name Id_count then Some (RV_Int (length keys))
          else if String.eqb name Id_first then Some (RV_OptionalKey (hd_error keys))
          else None
      | _ => None
      end
  | IntegerLiteralExpr n => Some (RV_Int n)
  | BinaryExpr (DeclRefExpr fn _) (TupleExpr [lhs; rhs]) =>
      if String.eqb fn EqualIntDecl then
        match evalExpr allKeys lhs, evalExpr allKeys rhs with
        | Some (RV_Int a), Some (RV_Int b) => Some (RV_Bool (Nat.eqb a b))
        | _, _ => None
        end
      else None
  | _ => None
  end.

(** Does the label [case .some(CodingKeys.k)] match the switched value? *)
Definition matchesCaseLabel (label : Pattern) (v : option Identifier) : bool :=
  match label, v with
  | OptionalSomePattern (EnumElementPattern _ element None), Some key =>
      String.eqb element key
  | _, _ => false
  end.

Inductive Completion : Type :=
| Throws (error : Expr)
| Selects (c : CaseStmt)
| NoCaseSelected
| FallsOffEnd
| Stuck.

(** Runs the statements of the initialiser, given the keys of the acquired
    container, up to the point where the switch picks a case. *)
Fixpoint execInit (allKeys : list Identifier) (stmts : list ASTNode)
  : Completion :=
  match stmts with
  | [] => FallsOffEnd
  | N_PatternBinding _ _ :: rest => execInit allKeys rest
  | N_VarDecl _ _ _ :: rest => execInit allKeys rest
  | N_Guard cond body :: rest =>
      match evalExpr allKeys cond with
      | Some (RV_Bool true) => execInit allKeys rest
      | Some (RV_Bool false) =>
          match body with
          | N_Throw e :: _ => Throws e
          | _ => Stuck
          end
      | _ => Stuck
      end
  | N_Switch subject cases :: _ =>
      match evalExpr allKeys subject with
      | Some (RV_OptionalKey v) =>
          match find (fun c => matchesCaseLabel (case_label c) v) cases with
          | Some c => Selects c
          | None => NoCaseSelected
          end
      | _ => Stuck
      end
  | N_Throw e :: _ => Throws e
  | N_Expr _ :: _ => Stuck
  end.

(** The debug message of an error raised by a generated [throw]: the
    [debugDescription:] argument of its [Context]. *)
Definition thrownDebugMessage (stmt : ASTNode) : option string :=
  match stmt with
  | N_Throw (CallExpr _ [_; CallExpr _ [_; StringLiteralExpr msg; _] _] _) =>
      Some msg
  | _ => None
  end.

(** The method a generated [try c.m(a, forKey: k)] calls. *)
Definition calledMethod (e : Expr) : option Identifier :=
  match e with
  | TryExpr (CallExpr (UnresolvedDotExpr _ m _) _ _) => Some m
  | _ => None
  end.

(* ------------------------------------------------------------------ *)
(** ** Views used to state properties *)

(** The key enum that [lookupEvaluatedCodingKeysEnum] evaluates to, when it
    finds one. *)
Definition evaluatedCodingKeysEnum (target : NominalTypeDecl)
           (identifier : Identifier) : option EnumDecl :=
  match lookupDirect target identifier with
  | VD_Type t :: _ =>
      match getAnyNominal t with
      | Some (EnumNominal e) => Some e
      | _ => None
      end
  | _ => None
  end.

(** The member a key resolves to, as the body synthesisers look it up. *)
Definition resolvedMember (target : NominalTypeDecl) (key : Identifier)
  : option (VarDecl * Ty * bool) :=
  lookupVarDeclForCodingKeysCase_in (lookupDirect target key).

(** A member that decoding may leave alone: it has a compile-time default,
    is parent-initialised, or is a parameter with a default expression. *)
Definition isDefaultable (v : VarDecl) : bool :=
  match getParentPatternBinding v with
  | Some b => pbd_isDefaultInitializable b
  | None => false
  end
  || isParentInitialized v
  || match dyn_cast_ParamDecl v with
     | Some (Some _) => true
     | _ => false
     end.

(** Every key names a pending member whose type conforms. *)
Fixpoint keysAllMatched (proto : KnownProtocolKind) (varDecls : MapVector)
         (keys : list Identifier) : bool :=
  match keys with
  | [] => true
  | k :: rest =>
      match MapVector_find varDecls k with
      | Some v => conformsToProtocol (var_type v) proto
                  && keysAllMatched proto (MapVector_erase varDecls k) rest
      | None => false
      end
  end.

(** The members left once every key has consumed its member. *)
Definition unmatchedMembers (varDecls : MapVector) (keys : list Identifier)
  : MapVector :=
  fold_left MapVector_erase keys varDecls.

(** The keys that the "extraneous key" diagnostics of a run name, in the
    order of emission. *)
Definition extraneousKeysOf (diags : list Diagnostic) : list Identifier :=
  flat_map (fun d => match d with
                     | codable_extraneous_codingkey_case_here k => [k]
                     | _ => []
                     end) diags.

Definition hasNoMember (varDecls : MapVector) (k : Identifier) : bool :=
  match MapVector_find varDecls k with None => true | Some _ => false end.

Definition emit (s : SemaState) (ds : list Diagnostic) : SemaState :=
  {| Nominal := Nominal s; Diags := Diags s ++ ds |}.

(** The initialiser of the superclass that a synthesised [init(from:)]
    has to call: [init(from:)] when the superclass is [Decodable], the
    zero-argument [init()] otherwise. *)
Definition requiredSuperInit (requirement : DeclName) (superclassDecl : ClassDecl)
  : DeclName :=
  if class_conformsToDecodable superclassDecl then requirement
  else {| name_base := Id_init; name_argLabels := Some [] |}.

(** The superclass initialiser that [deriveBodyDecodable_init] calls can
    be called: the superclass is [Decodable], or it declares a non-failable
    zero-argument initialiser (what [canSynthesize] is there to ensure). *)
Definition superInitCallable (target : NominalTypeDecl) : bool :=
  match dyn_cast_ClassDecl target with
  | Some (Some superclassDecl) =>
      class_conformsToDecodable superclassDecl
      || match lookupDirect_init superclassDecl [] with
         | superInitDecl :: _ => negb (ctor_isFailable superInitDecl)
         | [] => false
         end
  | _ => true
  end.

(** What the decode initialiser of a struct or class is expected to hold
    for one key: nothing when the member the key resolves to is a [let]
    with an initial value, and otherwise the assignment
    [self.<member> = try container.decode(<Type>.self, forKey: CodingKeys.<key>)],
    with [decodeIfPresent] and the unwrapped type for an optional member. *)
Definition spec_decodeStatementsForKey (target : NominalTypeDecl)
           (codingKeysEnum : EnumDecl) (key : Identifier) : list ASTNode :=
  match resolvedMember target key with
  | Some (member, decodedType, ifPresent) =>
      if var_isLet member && isParentInitialized member then []
      else
        [N_Expr
           (AssignExpr
              (UnresolvedDotExpr (DeclRefExpr Id_self Ordinary)
                                 (var_name member) None)
              (TryExpr
                 (CallExpr
                    (UnresolvedDotExpr
                       (DeclRefExpr Id_container DirectToStorage)
                       (if ifPresent then Id_decodeIfPresent else Id_decode)
                       (Some [Identifier_empty; Id_forKey]))
                    [DotSelfExpr (TypeExpr (ValueType decodedType));
                     MemberRefExpr
                       (TypeExpr (DeclaredType (enum_name codingKeysEnum))) key]
                    [Identifier_empty; Id_forKey])))]
  | None => []
  end.

(** The diagnostics that tell the user a property will not be decoded. *)
Definition isWillNotBeDecodedNote (d : Diagnostic) : bool :=
  match d with
  | decodable_property_will_not_be_decoded _
  | decodable_property_init_or_codingkeys_implicit _ _
  | decodable_property_init_or_codingkeys_explicit _
  | decodable_make_property_mutable _ => true
  | _ => false
  end.

(** Statements that acquire a container: a pattern binding or the
    declaration of the bound variable. *)
Definition acquiresContainer (n : ASTNode) : bool :=
  match n with
  | N_PatternBinding _ _ | N_VarDecl _ _ _ => true
  | _ => false
  end.

(** The statement expected in the encode branch of a case that has no
    key: [throw EncodingError.invalidValue(self, EncodingError.Context(
    codingPath: container.codingPath, debugDescription: <message>,
    underlyingError: nil))]. *)
Definition spec_throwInvalidValue (message : string) : ASTNode :=
  N_Throw
    (CallExpr
       (UnresolvedDotExpr (TypeExpr (DeclaredType "EncodingError"))
                          "invalidValue" (Some [""; ""]))
       [DeclRefExpr "self" Ordinary;
        CallExpr
          (UnresolvedDotExpr (TypeExpr (MemberType "EncodingError" "Context"))
                             "init"
                             (Some ["codingPath"; "debugDescription";
                                    "underlyingError"]))
          [UnresolvedDotExpr (DeclRefExpr "container" DirectToStorage)
                             "codingPath" None;
           StringLiteralExpr message;
           NilLiteralExpr]
          ["codingPath"; "debugDescription"; "underlyingError"]]
       [""; ""]).

(** The statement expected in the guard of the decode initialiser of an
    enum: [throw DecodingError.typeMismatch(<Target>.self,
    DecodingError.Context(codingPath: container.codingPath,
    debugDescription: <message>, underlyingError: nil))]. *)
Definition spec_typeMismatchError (target : Identifier) (message : string)
  : Expr :=
  CallExpr
    (UnresolvedDotExpr (TypeExpr (DeclaredType "DecodingError"))
                       "typeMismatch" (Some [""; ""]))
    [DotSelfExpr (TypeExpr (DeclaredType target));
     CallExpr
       (UnresolvedDotExpr (TypeExpr (MemberType "DecodingError" "Context"))
                          "init"
                          (Some ["codingPath"; "debugDescription";
                                 "underlyingError"]))
       [UnresolvedDotExpr (DeclRefExpr "container" DirectToStorage)
                          "codingPath" None;
        StringLiteralExpr message;
        NilLiteralExpr]
       ["codingPath"; "debugDescription"; "underlyingError"]]
    [""; ""].

(** Every case of the enum that has a key in [CodingKeys] also has an
    evaluated per-case key enumeration (what validation leaves behind). *)
Definition matchedCasesHaveKeys (target : NominalTypeDecl)
           (codingKeysEnum : EnumDecl) : bool :=
  forallb (fun elt =>
             match lookupEnumCase codingKeysEnum (elt_name elt) with
             | None => true
             | Some _ =>
                 match evaluatedCodingKeysEnum
                         target (caseCodingKeysIdentifier elt) with
                 | Some _ => true
                 | None => false
                 end
             end)
          (getAllElements target).

(** The argument expected for one payload slot when an enum case is
    rebuilt on decoding: a [decode] call against the nested container of
    the case when the slot has a key in the per-case key enumeration, the
    declared default expression of the slot when it has none. *)
Definition slotArgument (caseCodingKeys : EnumDecl) (entry : nat * ParamDecl)
           (arg : Expr) : Prop :=
  match lookupEnumCase caseCodingKeys
                       (paramCodingIdentifier (fst entry) (snd entry)) with
  | Some key =>
      arg = TryExpr
              (CallExpr
                 (UnresolvedDotExpr
                    (DeclRefExpr "nestedContainer" DirectToStorage)
                    "decode" (Some [""; "forKey"]))
                 [DotSelfExpr (TypeExpr (ValueType (param_type (snd entry))));
                  MemberRefExpr
                    (TypeExpr (DeclaredType (enum_name caseCodingKeys))) key]
                 [""; "forKey"])
  | None => param_defaultExpr (snd entry) = Some arg
  end.

Definition slotHasKeyOrDefault (caseCodingKeys : EnumDecl)
           (entry : nat * ParamDecl) : bool :=
  match lookupEnumCase caseCodingKeys
                       (paramCodingIdentifier (fst entry) (snd entry)) with
  | Some _ => true
  | None => hasDefaultExpr (snd entry)
  end.

Definition hasCodingKey (codingKeysEnum : EnumDecl) (elt : EnumElementDecl)
  : bool :=
  match lookupEnumCase codingKeysEnum (elt_name elt) with
  | Some _ => true
  | None => false
  end.

(** Every case with a key in [CodingKeys] has an evaluated per-case key
    enumeration, and each of its payload slots has a key there or a default
    expression. *)
Definition casesReadyForDecoding (target : NominalTypeDecl)
           (codingKeysEnum : EnumDecl) : bool :=
  forallb (fun elt =>
             negb (hasCodingKey codingKeysEnum elt)
             || match evaluatedCodingKeysEnum
                        target (caseCodingKeysIdentifier elt) with
                | Some caseCodingKeys =>
                    forallb (slotHasKeyOrDefault caseCodingKeys)
                            (enumerate (getParameterList elt))
                | None => false
                end)
          (getAllElements target).

(** The labels of the payload slots of a case, as passed when the case is
    constructed. *)
Definition payloadLabels (elt : EnumElementDecl) : list Identifier :=
  map (fun entry => param_name (snd entry)) (enumerate (getParameterList elt)).

(** The dispatch branch expected for a case [elt] of the enum that has a
    key: under [case .some(CodingKeys.<key>)], bind the nested container of
    the case, then assign to [self] the case built from one argument per
    payload slot ([slotArgument]). *)
Definition decodedCase (target : NominalTypeDecl) (codingKeysEnum : EnumDecl)
           (elt : EnumElementDecl) (c : CaseStmt) : Prop :=
  exists (caseCodingKeys : EnumDecl) (args : list Expr),
    lookupEnumCase codingKeysEnum (elt_name elt) = Some (elt_name elt)
    /\ evaluatedCodingKeysEnum target (caseCodingKeysIdentifier elt) =
         Some caseCodingKeys
    /\ Forall2 (slotArgument caseCodingKeys)
               (enumerate (getParameterList elt)) args
    /\ c = CaseStmt_create
             (OptionalSomePattern
                (EnumElementPattern (DeclaredType (enum_name codingKeysEnum))
                                    (elt_name elt) None))
             [N_PatternBinding
                (NamedPattern "nestedContainer")
                (TryExpr
                   (createNestedContainerKeyedByForKeyCall
                      (DeclRefExpr "container" DirectToStorage)
                      caseCodingKeys codingKeysEnum (elt_name elt)));
              N_VarDecl "nestedContainer" Var
                        (BoundGenericType
                           "KeyedDecodingContainer"
                           (DeclaredType (enum_name caseCodingKeys)));
              N_Expr
                (AssignExpr
                   (DeclRefExpr "self" Ordinary)
                   (match payloadLabels elt with
                    | [] =>
                        MemberRefExpr
                          (TypeExpr (DeclaredType (nominal_name target)))
                          (elt_name elt)
                    | _ :: _ =>
                        CallExpr
                          (UnresolvedDotExpr
                             (TypeExpr (DeclaredType (nominal_name target)))
                             (elt_name elt) (Some (payloadLabels elt)))
                          args (payloadLabels elt)
                    end))]
             None.

(** The guard expected at the head of the decode initialiser of an enum:
    [container.allKeys.count == 1], else throw the type-mismatch error. *)
Definition spec_exactlyOneKeyGuard (target : Identifier) (message : string)
  : ASTNode :=
  N_Guard
    (BinaryExpr
       (DeclRefExpr "==" Ordinary)
       (TupleExpr
          [UnresolvedDotExpr
             (UnresolvedDotExpr (DeclRefExpr "container" DirectToStorage)
                                "allKeys" None)
             "count" None;
           IntegerLiteralExpr 1]))
    [N_Throw (spec_typeMismatchError target message)].

(** The nominal type after key enumerations have been added to it. *)
Definition withKeyEnums (n : NominalTypeDecl) (added : list EnumDecl)
  : NominalTypeDecl :=
  {| nominal_name := nominal_name n;
     nominal_kind := nominal_kind n;
     nominal_members := nominal_members n ++ map EnumDecl_asMember added;
     nominal_conformsToEncodable := nominal_conformsToEncodable n |}.

(** Payload slots are declarations the user can name (only storage that
    the compiler synthesises is flagged otherwise). *)
Definition payloadSlotsAccessible (target : NominalTypeDecl) : bool :=
  forallb (fun elt => forallb param_isUserAccessible (getParameterList elt))
          (getAllElements target).

(** A computation that may emit diagnostics but leaves the type alone. *)
Definition preservesNominal {A} (m : Sema A) : Prop :=
  forall s a s', m s = Returned a s' -> Nominal s' = Nominal s.

(** The coding name of an enumerated payload slot. *)
Definition slotCodingName (entry : nat * ParamDecl) : Identifier :=
  paramCodingIdentifier (fst entry) (snd entry).

(** One case of the enum is ready to be decoded: its per-case key
    enumeration can be evaluated and each payload slot has a key there or a
    default expression. *)
Definition caseValidatedForDecoding (target : NominalTypeDecl)
           (elt : EnumElementDecl) : bool :=
  match evaluatedCodingKeysEnum target (caseCodingKeysIdentifier elt) with
  | Some caseCodingKeys =>
      forallb (slotHasKeyOrDefault caseCodingKeys)
              (enumerate (getParameterList elt))
  | None => false
  end.

(** What the encode body of a struct or class is expected to hold for one
    key: [try container.encode(self.<member>, forKey: CodingKeys.<key>)],
    with [encodeIfPresent] for an optional member. *)
Definition spec_encodeStatementsForKey (target : NominalTypeDecl)
           (codingKeysEnum : EnumDecl) (key : Identifier) : list ASTNode :=
  match resolvedMember target key with
  | Some (member, _, ifPresent) =>
      [N_Expr
         (TryExpr
            (CallExpr
               (UnresolvedDotExpr
                  (DeclRefExpr "container" DirectToStorage)
                  (if ifPresent then "encodeIfPresent" else "encode")
                  (Some [""; "forKey"]))
               [MemberRefExpr (DeclRefExpr "self" Ordinary) (var_name member);
                MemberRefExpr
                  (TypeExpr (DeclaredType (enum_name codingKeysEnum))) key]
               [""; "forKey"]))]
  | None => []
  end.

(** [try super.encode(to: container.superEncoder())]. *)
Definition spec_superEncodeCall : ASTNode :=
  N_Expr
    (TryExpr
       (CallExpr
          (DotSyntaxCallExpr SuperRefExpr (DeclRefExpr "encode" Ordinary))
          [DotSyntaxCallExpr (DeclRefExpr "container" DirectToStorage)
                             (UnresolvedDeclRefExpr "superEncoder")]
          ["to"])).

(** [try super.init(from: container.superDecoder())]. *)
Definition spec_superDecodeCall : ASTNode :=
  N_Expr
    (TryExpr
       (CallExpr
          (UnresolvedDotExpr SuperRefExpr "init" (Some ["from"]))
          [CallExpr
             (UnresolvedDotExpr (DeclRefExpr "container" DirectToStorage)
                                "superDecoder" None)
             [] []]
          ["from"])).

(** [super.init()], under [try] when the initialiser throws. *)
Definition spec_superPlainInitCall (throws : bool) : ASTNode :=
  N_Expr
    (if throws
     then TryExpr (CallExpr (UnresolvedDotExpr SuperRefExpr "init" (Some []))
                            [] [])
     else CallExpr (UnresolvedDotExpr SuperRefExpr "init" (Some [])) [] []).

(** The call of the superclass initialiser expected at the end of the
    decode initialiser of a class. *)
Definition spec_superInitCalls (target : NominalTypeDecl) : list ASTNode :=
  match dyn_cast_ClassDecl target with
  | Some (Some superclassDecl) =>
      if class_conformsToDecodable superclassDecl then [spec_superDecodeCall]
      else
        match lookupDirect_init superclassDecl [] with
        | superInitDecl :: _ =>
            [spec_superPlainInitCall (ctor_hasThrows superInitDecl)]
        | [] => []
        end
  | _ => []
  end.

(** The trap of [lookupVarDeclForCodingKeysCase]. *)
Definition noVarDeclTrap : Trap :=
  Unreachable "Should have found at least 1 var decl".

(** The key enumeration that is synthesised for a struct or class without
    [CodingKeys]. *)
Definition implicitCodingKeys (target : NominalTypeDecl) : EnumDecl :=
  {| enum_name := "CodingKeys";
     enum_elements :=
       (if superclassConformsTo (dyn_cast_ClassDecl target) Encodable
           || superclassConformsTo (dyn_cast_ClassDecl target) Decodable
        then ["super"] else [])
       ++ map getVarNameForCoding
              (filter var_isUserAccessible (getStoredProperties target));
     enum_isImplicit := true |}.

(** The key enumeration that is synthesised for an enum without
    [CodingKeys]: one key per case. *)
Definition implicitCodingKeys_enum (target : NominalTypeDecl) : EnumDecl :=
  {| enum_name := "CodingKeys";
     enum_elements := map elt_name (getAllElements target);
     enum_isImplicit := true |}.

(** The key enumeration that is synthesised for the payload of a case:
    one key per slot, the label of the slot or [_<index>]. *)
Definition implicitCaseCodingKeys (elt : EnumElementDecl) : EnumDecl :=
  {| enum_name := caseCodingKeysIdentifier elt;
     enum_elements := map slotCodingName (enumerate (getParameterList elt));
     enum_isImplicit := true |}.

(** The key names a case of the enum under derivation. *)
Definition namesCase (target : NominalTypeDecl) (key : Identifier) : bool :=
  existsb (String.eqb key) (map elt_name (getAllElements target)).

(** The state once a key enumeration has been added to the type. *)
Definition withKeyEnum (s : SemaState) (e : EnumDecl) : SemaState :=
  {| Nominal := NominalTypeDecl_addMember (Nominal s) (EnumDecl_asMember e);
     Diags := Diags s |}.

(** A computation that changes the type at most by adding implicit key
    enumerations to it, and the diagnostics at most by appending to them. *)
Definition onlyAddsKeyEnums {A} (m : Sema A) : Prop :=
  forall s a s',
    m s = Returned a s' ->
    exists (added : list EnumDecl) (diags : list Diagnostic),
      s' = {| Nominal := withKeyEnums (Nominal s) added;
              Diags := Diags s ++ diags |}
      /\ forallb enum_isImplicit added = true.



(* ------------------------------------------------------------------ *)
(** ** Sample declarations *)

Definition Int_ty : Ty := NominalTy "Int" true true.
Definition String_ty : Ty := NominalTy "String" true true.

Definition storedProperty (name : Identifier) (type : Ty) (isLet : bool)
           (pbd : option PatternBindingDecl) : ValueDecl :=
  VD_Var {| var_name := name; var_type := type; var_isStatic := false;
            var_isLet := isLet; var_hasStorage := true;
            var_isUserAccessible := true;
            var_originalWrappedProperty := None;
            var_origin := FromPattern pbd |} None.

Definition uninitialized : option PatternBindingDecl :=
  Some {| pbd_isDefaultInitializable := false; pbd_hasInit := false |}.
Definition initialized : option PatternBindingDecl :=
  Some {| pbd_isDefaultInitializable := true; pbd_hasInit := true |}.

Definition userEnum (name : Identifier) (cases : list Identifier) : ValueDecl :=
  VD_Type (NominalDecl (EnumNominal {| enum_name := name;
                                       enum_elements := cases;
                                       enum_isImplicit := false |}) true).

Definition initialState (n : NominalTypeDecl) : SemaState :=
  {| Nominal := n; Diags := [] |}.

Definition encodeRequirement : DeclName :=
  {| name_base := Id_encode; name_argLabels := Some [Id_to] |}.
Definition initRequirement : DeclName :=
  {| name_base := Id_init; name_argLabels := Some [Id_from] |}.
Definition derivingEncodable : DerivedConformance :=
  {| Protocol := Encodable; InDisallowedContext := false |}.
Definition derivingDecodable : DerivedConformance :=
  {| Protocol := Decodable; InDisallowedContext := false |}.

(** struct Person : Codable {
      var name: String; var nick: String?; let kind: String = "person" } *)
Definition ex_Person : NominalTypeDecl :=
  {| nominal_name := "Person"; nominal_kind := StructKind;
     nominal_members :=
       [storedProperty "name" String_ty false uninitialized;
        storedProperty "nick" (OptionalTy String_ty) false uninitialized;
        storedProperty "kind" String_ty true initialized];
     nominal_conformsToEncodable := true |}.

(** [Person] once its implicit [CodingKeys] has been added. *)
Definition ex_Person_keyed : NominalTypeDecl :=
  NominalTypeDecl_addMember ex_Person
    (EnumDecl_asMember {| enum_name := Id_CodingKeys;
                          enum_elements := ["name"; "nick"; "kind"];
                          enum_isImplicit := true |}).

(** class Base : Codable { required init(from:) ... } *)
Definition ex_Base : ClassDecl :=
  {| class_name := "Base";
     class_conformsToEncodable := true;
     class_conformsToDecodable := true;
     class_directInits :=
       [{| ctor_argLabels := [Id_from]; ctor_isDesignatedInit := true;
           ctor_isAccessibleFromConformance := true;
           ctor_isFailable := false; ctor_hasThrows := true |}];
     class_inheritedInits := [] |}.

(** class Derived : Base { var x: Int } *)
Definition ex_Derived : NominalTypeDecl :=
  {| nominal_name := "Derived"; nominal_kind := ClassKind (Some ex_Base) false;
     nominal_members := [storedProperty "x" Int_ty false uninitialized];
     nominal_conformsToEncodable := true |}.

(** struct Point : Codable { var x: Int; var y: Int
      enum CodingKeys : CodingKey { case x } } *)
Definition ex_Point : NominalTypeDecl :=
  {| nominal_name := "Point"; nominal_kind := StructKind;
     nominal_members :=
       [storedProperty "x" Int_ty false uninitialized;
        storedProperty "y" Int_ty false uninitialized;
        userEnum Id_CodingKeys ["x"]];
     nominal_conformsToEncodable := true |}.

(** struct Account : Encodable { var id: Int; var owner: String
      enum CodingKeys : CodingKey { case id, balance, owner, legacy } } *)
Definition ex_Account : NominalTypeDecl :=
  {| nominal_name := "Account"; nominal_kind := StructKind;
     nominal_members :=
       [storedProperty "id" Int_ty false uninitialized;
        storedProperty "owner" String_ty false uninitialized;
        userEnum Id_CodingKeys ["id"; "balance"; "owner"; "legacy"]];
     nominal_conformsToEncodable := true |}.

Definition plainInit (designated accessible failable : bool) : ConstructorDecl :=
  {| ctor_argLabels := []; ctor_isDesignatedInit := designated;
     ctor_isAccessibleFromConformance := accessible;
     ctor_isFailable := failable; ctor_hasThrows := false |}.

Definition plainSuperclass (inits : list ConstructorDecl) : ClassDecl :=
  {| class_name := "Shape";
     class_conformsToEncodable := false;
     class_conformsToDecodable := false;
     class_directInits := inits;
     class_inheritedInits := [] |}.

(** class Circle : Shape, Decodable { var r: Int }, for a given set of
    zero-argument initialisers of [Shape]. *)
Definition ex_Circle (inits : list ConstructorDecl) : NominalTypeDecl :=
  {| nominal_name := "Circle";
     nominal_kind := ClassKind (Some (plainSuperclass inits)) true;
     nominal_members := [storedProperty "r" Int_ty false uninitialized];
     nominal_conformsToEncodable := false |}.

Definition payload (label : Identifier) (type : Ty) (dflt : option Expr)
  : ParamDecl :=
  {| param_name := label; param_type := type;
     param_isUserAccessible := true; param_defaultExpr := dflt |}.

(** enum Command : Codable {
      case load(key: String, Int?)
      case store(key: String, retries: Int = 3)
      case stop
      enum CodingKeys : CodingKey { case load, store }
      enum StoreCodingKeys : CodingKey { case key }
      enum StopCodingKeys : CodingKey { } } *)
Definition ex_Command : NominalTypeDecl :=
  {| nominal_name := "Command"; nominal_kind := EnumKind;
     nominal_members :=
       [VD_EnumElement
          {| elt_name := "load";
             elt_params := Some [payload "key" String_ty None;
                                 payload "" (OptionalTy Int_ty) None] |};
        VD_EnumElement
          {| elt_name := "store";
             elt_params := Some [payload "key" String_ty None;
                                 payload "retries" Int_ty
                                         (Some (IntegerLiteralExpr 3))] |};
        VD_EnumElement {| elt_name := "stop"; elt_params := None |};
        userEnum Id_CodingKeys ["load"; "store"];
        userEnum "StoreCodingKeys" ["key"];
        userEnum "StopCodingKeys" []];
     nominal_conformsToEncodable := true |}.

(** [Command] once [canSynthesize] has added [LoadCodingKeys]. *)
Definition ex_Command_keyed : NominalTypeDecl :=
  NominalTypeDecl_addMember ex_Command
    (EnumDecl_asMember {| enum_name := "LoadCodingKeys";
                          enum_elements := ["key"; "_1"];
                          enum_isImplicit := true |}).

(** [Circle] once its implicit [CodingKeys] has been added. *)
Definition ex_Circle_keyed (inits : list ConstructorDecl) : NominalTypeDecl :=
  NominalTypeDecl_addMember (ex_Circle inits)
    (EnumDecl_asMember {| enum_name := Id_CodingKeys;
                          enum_elements := ["r"];
                          enum_isImplicit := true |}).

(** enum Signal : Codable { case go(Int), wait, halt } *)
Definition ex_Signal_plain : NominalTypeDecl :=
  {| nominal_name := "Signal"; nominal_kind := EnumKind;
     nominal_members :=
       [VD_EnumElement
          {| elt_name := "go";
             elt_params := Some [payload "" Int_ty None] |};
        VD_EnumElement {| elt_name := "wait"; elt_params := None |};
        VD_EnumElement {| elt_name := "halt"; elt_params := None |}];
     nominal_conformsToEncodable := true |}.

(** enum Signal : Codable { case go(Int), wait, halt
      enum CodingKeys : CodingKey { case go, bogus, halt, other } } *)
Definition ex_Signal : NominalTypeDecl :=
  {| nominal_name := "Signal"; nominal_kind := EnumKind;
     nominal_members :=
       [VD_EnumElement
          {| elt_name := "go";
             elt_params := Some [payload "" Int_ty None] |};
        VD_EnumElement {| elt_name := "wait"; elt_params := None |};
        VD_EnumElement {| elt_name := "halt"; elt_params := None |};
        userEnum Id_CodingKeys ["go"; "bogus"; "halt"; "other"]];
     nominal_conformsToEncodable := true |}.

(** final class Simple : Codable { var a: Int; var b: String? } *)
Definition ex_Simple : NominalTypeDecl :=
  {| nominal_name := "Simple"; nominal_kind := ClassKind None true;
     nominal_members :=
       [storedProperty "a" Int_ty false uninitialized;
        storedProperty "b" (OptionalTy String_ty) false uninitialized];
     nominal_conformsToEncodable := false |}.

(** enum Mode : Codable { case on, off
      enum CodingKeys : CodingKey { case on } } *)
Definition ex_Mode : NominalTypeDecl :=
  {| nominal_name := "Mode"; nominal_kind := EnumKind;
     nominal_members :=
       [VD_EnumElement {| elt_name := "on"; elt_params := None |};
        VD_EnumElement {| elt_name := "off"; elt_params := None |};
        userEnum Id_CodingKeys ["on"]];
     nominal_conformsToEncodable := true |}.

(** struct Record : Encodable { var id: Int; var CodingKeys: Int } *)
Definition ex_Record : NominalTypeDecl :=
  {| nominal_name := "Record"; nominal_kind := StructKind;
     nominal_members :=
       [storedProperty "id" Int_ty false uninitialized;
        storedProperty "CodingKeys" Int_ty false uninitialized];
     nominal_conformsToEncodable := true |}.

(** enum Job : Decodable { case run(id: Int, <$storage>: Int)
      enum CodingKeys : CodingKey { case run }
      enum RunCodingKeys : CodingKey { case id } }
    where the second payload slot of [run] is not user-accessible
    ([isUserAccessible()] is false) and has no default expression. *)
Definition ex_Job : NominalTypeDecl :=
  {| nominal_name := "Job"; nominal_kind := EnumKind;
     nominal_members :=
       [VD_EnumElement
          {| elt_name := "run";
             elt_params :=
               Some [payload "id" Int_ty None;
                     {| param_name := "$storage"; param_type := Int_ty;
                        param_isUserAccessible := false;
                        param_defaultExpr := None |}] |};
        userEnum Id_CodingKeys ["run"];
        userEnum "RunCodingKeys" ["id"]];
     nominal_conformsToEncodable := false |}.

(* ================================================================== *)
(** * Properties *)

Unset Implicit Arguments.

(** ** The monad *)

Lemma emit_nil (s : SemaState) : emit s [] = s.
Proof. destruct s; unfold emit; simpl; now rewrite app_nil_r. Qed.

Lemma emit_emit (s : SemaState) (a b : list Diagnostic) :
  emit (emit s a) b = emit s (a ++ b).
Proof. unfold emit; simpl; now rewrite app_assoc. Qed.

Lemma Nominal_emit (s : SemaState) (a : list Diagnostic) :
  Nominal (emit s a) = Nominal s.
Proof. reflexivity. Qed.

Lemma diagnose_emit (d : Diagnostic) (s : SemaState) :
  diagnose d s = Returned tt (emit s [d]).
Proof. reflexivity. Qed.

Lemma bind_Returned {A B} (m : Sema A) (k : A -> Sema B) s a s' :
  m s = Returned a s' -> bind m k s = k a s'.
Proof. intros H; unfold bind; now rewrite H. Qed.

Lemma extraneousKeysOf_app (a b : list Diagnostic) :
  extraneousKeysOf (a ++ b) = extraneousKeysOf a ++ extraneousKeysOf b.
Proof. unfold extraneousKeysOf; apply flat_map_app. Qed.

(** ** Key enumerations synthesised for structs and classes *)

Lemma addImplicitCodingKeys_fold (vars : list VarDecl) :
  forall e : EnumDecl,
    let e' :=
      fold_left (fun e varDecl =>
                   if negb (var_isUserAccessible varDecl) then e
                   else EnumDecl_addMember e (getVarNameForCoding varDecl))
                vars e in
    enum_elements e' =
      enum_elements e
      ++ map getVarNameForCoding (filter var_isUserAccessible vars)
    /\ enum_name e' = enum_name e
    /\ enum_isImplicit e' = enum_isImplicit e.
Proof.
  induction vars as [|v vars IH]; intros e; simpl.
  - now rewrite app_nil_r.
  - destruct (var_isUserAccessible v); simpl.
    + destruct (IH (EnumDecl_addMember e (getVarNameForCoding v))) as (H1 & H2 & H3).
      rewrite H1, H2, H3; simpl. now rewrite <- app_assoc.
    + apply IH.
Qed.

(** C5. When a key enumeration is synthesised for a struct or class, it
    holds one key per user-accessible stored property, in declaration
    order, named by [getVarNameForCoding]; and when the type is a class whose
    superclass conforms to [Encodable] or [Decodable], the reserved key
    [super] is its first entry, before every member key.  The enumeration
    is implicit, is called [CodingKeys] and is added to the type. *)
Theorem C5_implicit_keys_in_declaration_order :
  forall s : SemaState,
    isa_EnumDecl (Nominal s) = false ->
    lookupDirect (Nominal s) Id_CodingKeys = [] ->
    exists codingKeys : EnumDecl,
      addImplicitCodingKeys s =
        Returned codingKeys
                 {| Nominal := NominalTypeDecl_addMember
                                 (Nominal s) (EnumDecl_asMember codingKeys);
                    Diags := Diags s |}
      /\ enum_name codingKeys = Id_CodingKeys
      /\ enum_isImplicit codingKeys = true
      /\ enum_elements codingKeys =
           (if superclassConformsTo (dyn_cast_ClassDecl (Nominal s)) Encodable
               || superclassConformsTo (dyn_cast_ClassDecl (Nominal s)) Decodable
            then [Id_super] else [])
           ++ map getVarNameForCoding
                  (filter var_isUserAccessible (getStoredProperties (Nominal s)))
      /\ (superclassConformsTo (dyn_cast_ClassDecl (Nominal s)) Encodable
            || superclassConformsTo (dyn_cast_ClassDecl (Nominal s)) Decodable
          = true ->
          hd_error (enum_elements codingKeys) = Some Id_super).
Proof.
  intros s Hkind Hlookup.
  unfold addImplicitCodingKeys, bind, getNominal.
  rewrite Hkind, Hlookup; simpl.
  match goal with
  | |- context [fold_left ?f ?l ?e0] =>
      destruct (addImplicitCodingKeys_fold l e0) as (H1 & H2 & H3);
      set (ck := fold_left f l e0) in *
  end.
  exists ck. unfold addMember, ret.
  split; [reflexivity|].
  assert (Hname : enum_name ck = Id_CodingKeys).
  { rewrite H2. now destruct (_ || _). }
  assert (Himpl : enum_isImplicit ck = true).
  { rewrite H3. now destruct (_ || _). }
  assert (Helts : enum_elements ck =
                  (if superclassConformsTo (dyn_cast_ClassDecl (Nominal s)) Encodable
                      || superclassConformsTo (dyn_cast_ClassDecl (Nominal s)) Decodable
                   then [Id_super] else [])
                  ++ map getVarNameForCoding
                         (filter var_isUserAccessible
                                 (getStoredProperties (Nominal s)))).
  { rewrite H1. now destruct (_ || _). }
  repeat split; auto.
  intros Hb. rewrite Helts, Hb. reflexivity.
Qed.

Lemma C5_implicit_keys_witness :
  isa_EnumDecl ex_Derived = false
  /\ lookupDirect ex_Derived Id_CodingKeys = []
  /\ exists codingKeys : EnumDecl,
       addImplicitCodingKeys (initialState ex_Derived) =
         Returned codingKeys
                  {| Nominal := NominalTypeDecl_addMember
                                  ex_Derived (EnumDecl_asMember codingKeys);
                     Diags := [] |}
       /\ enum_elements codingKeys = ["super"; "x"].
Proof.
  split; [reflexivity|]. split; [reflexivity|].
  destruct (C5_implicit_keys_in_declaration_order
              (initialState ex_Derived) eq_refl eq_refl)
    as (ck & Hrun & _ & _ & Helts & _).
  exists ck. split; [exact Hrun | exact Helts].
Defined.

(** ** The check of the superclass initialiser in [canSynthesize] *)

Lemma canSynthesize_superInit_false derived requirement s s' :
  canSynthesize_superInit derived requirement s = Returned false s' ->
  canSynthesize derived requirement s = Returned false s'.
Proof.
  intros H. unfold canSynthesize, bind. now rewrite H.
Qed.

(** C4 (as amended). For a class with a superclass undergoing [Decodable]
    synthesis, the initialiser looked up on the superclass is [init(from:)]
    when the superclass is [Decodable] and the zero-argument [init()]
    otherwise.  No candidate, a candidate that is not designated, one that
    is inaccessible and one that is failable each make [canSynthesize]
    return failure with one diagnostic of its own kind, and more than one
    candidate makes it return failure with no diagnostic at all; in every
    one of these cases the type is left as it was, so no key enumeration
    was looked up, synthesised or validated.  Only a single designated,
    accessible, non-failable candidate passes the check. *)
Theorem C4_superclass_initializer_check :
  forall (derived : DerivedConformance) (requirement : DeclName)
         (s : SemaState) (superclassDecl : ClassDecl) (isFinal : bool),
    Protocol derived = Decodable ->
    nominal_kind (Nominal s) = ClassKind (Some superclassDecl) isFinal ->
    match lookupMember superclassDecl
                       (requiredSuperInit requirement superclassDecl) with
    | [] =>
        canSynthesize derived requirement s =
          Returned false
            (emit s [decodable_no_super_init_here
                       (class_name superclassDecl) requirement
                       (requiredSuperInit requirement superclassDecl)])
    | [initializer] =>
        if negb (ctor_isDesignatedInit initializer) then
          canSynthesize derived requirement s =
            Returned false
              (emit s [decodable_super_init_not_designated_here
                         requirement
                         (requiredSuperInit requirement superclassDecl)])
        else if negb (ctor_isAccessibleFromConformance initializer) then
          canSynthesize derived requirement s =
            Returned false
              (emit s [decodable_inaccessible_super_init_here
                         requirement
                         (requiredSuperInit requirement superclassDecl)])
        else if ctor_isFailable initializer then
          canSynthesize derived requirement s =
            Returned false
              (emit s [decodable_super_init_is_failable_here
                         requirement
                         (requiredSuperInit requirement superclassDecl)])
        else canSynthesize_superInit derived requirement s = Returned true s
    | _ :: _ :: _ =>
        canSynthesize derived requirement s = Returned false s
    end.
Proof.
  intros derived requirement s sup isFinal Hproto Hkind.
  assert (Hcheck :
    canSynthesize_superInit derived requirement s =
    match lookupMember sup (requiredSuperInit requirement sup) with
    | [] =>
        Returned false
          (emit s [decodable_no_super_init_here
                     (class_name sup) requirement
                     (requiredSuperInit requirement sup)])
    | [initializer] =>
        if negb (ctor_isDesignatedInit initializer) then
          Returned false
            (emit s [decodable_super_init_not_designated_here
                       requirement (requiredSuperInit requirement sup)])
        else if negb (ctor_isAccessibleFromConformance initializer) then
          Returned false
            (emit s [decodable_inaccessible_super_init_here
                       requirement (requiredSuperInit requirement sup)])
        else if ctor_isFailable initializer then
          Returned false
            (emit s [decodable_super_init_is_failable_here
                       requirement (requiredSuperInit requirement sup)])
        else Returned true s
    | _ :: _ :: _ => Returned false s
    end).
  { unfold canSynthesize_superInit, bind, getNominal, dyn_cast_ClassDecl.
    rewrite Hkind, Hproto. simpl.
    unfold requiredSuperInit.
    destruct (lookupMember sup _) as [|i [|j rest]]; try reflexivity.
    destruct (ctor_isDesignatedInit i); simpl; [|reflexivity].
    destruct (ctor_isAccessibleFromConformance i); simpl; [|reflexivity].
    destruct (ctor_isFailable i); reflexivity. }
  destruct (lookupMember sup _) as [|i [|j rest]].
  - now apply canSynthesize_superInit_false.
  - destruct (ctor_isDesignatedInit i); simpl in *;
      [|now apply canSynthesize_superInit_false].
    destruct (ctor_isAccessibleFromConformance i); simpl in *;
      [|now apply canSynthesize_superInit_false].
    destruct (ctor_isFailable i);
      [now apply canSynthesize_superInit_false | exact Hcheck].
  - now apply canSynthesize_superInit_false.
Qed.

Lemma C4_superclass_initializer_check_witness :
  Protocol derivingDecodable = Decodable
  /\ nominal_kind (ex_Circle [plainInit true true true]) =
       ClassKind (Some (plainSuperclass [plainInit true true true])) true
  /\ canSynthesize derivingDecodable initRequirement
                   (initialState (ex_Circle [plainInit true true true])) =
       Returned false
         {| Nominal := ex_Circle [plainInit true true true];
            Diags := [decodable_super_init_is_failable_here
                        initRequirement
                        {| name_base := Id_init; name_argLabels := Some [] |}] |}.
Proof.
  split; [reflexivity|]. split; [reflexivity|].
  exact (C4_superclass_initializer_check
           derivingDecodable initRequirement
           (initialState (ex_Circle [plainInit true true true]))
           (plainSuperclass [plainInit true true true]) true
           eq_refl eq_refl).
Defined.

(** C4 as stated fails: with two candidate initialisers on the superclass
    the synthesis is refused, but no diagnostic is emitted for it. *)
Lemma C4_ambiguous_candidates_emit_no_diagnostic :
  length (lookupMember
            (plainSuperclass [plainInit true true false; plainInit true true false])
            (requiredSuperInit
               initRequirement
               (plainSuperclass [plainInit true true false;
                                 plainInit true true false]))) = 2
  /\ exists s',
       canSynthesize derivingDecodable initRequirement
                     (initialState
                        (ex_Circle [plainInit true true false;
                                    plainInit true true false])) =
         Returned false s'
       /\ Diags s' = [].
Proof.
  split; [reflexivity|].
  eexists. split; reflexivity.
Qed.

(** ** Validation of a key enumeration against the members *)

Lemma MapVector_find_erase_None (m : MapVector) (k k' : Identifier) :
  MapVector_find m k' = None -> MapVector_find (MapVector_erase m k) k' = None.
Proof.
  induction m as [|[k0 v0] m IH]; simpl; intros H; [reflexivity|].
  destruct (String.eqb k0 k') eqn:E0; [discriminate|].
  destruct (String.eqb k0 k); [exact H|].
  simpl. rewrite E0. now apply IH.
Qed.

Lemma forEach_cons {A S} (x : A) (xs : list A) (body : A -> S -> Sema S)
      (acc : S) (s : SemaState) :
  forEach (x :: xs) body acc s =
  match body x acc s with
  | Returned acc' s' => forEach xs body acc' s'
  | Trapped t => Trapped t
  end.
Proof. reflexivity. Qed.

Lemma forEach_nil {A S} (body : A -> S -> Sema S) (acc : S) (s : SemaState) :
  forEach [] body acc s = Returned acc s.
Proof. reflexivity. Qed.

Lemma validateCodingKeysEnum_case_extraneous proto k varDecls valid s :
  MapVector_find varDecls k = None ->
  validateCodingKeysEnum_case proto k (varDecls, valid) s =
    Returned (varDecls, false)
             (emit s [codable_extraneous_codingkey_case_here k]).
Proof. intros H. unfold validateCodingKeysEnum_case. now rewrite H. Qed.

Lemma validateCodingKeysEnum_case_nonconforming proto k varDecls valid s v :
  MapVector_find varDecls k = Some v ->
  conformsToProtocol (var_type v) proto = false ->
  validateCodingKeysEnum_case proto k (varDecls, valid) s =
    Returned (varDecls, false)
             (emit s [codable_non_conforming_property_here
                        (var_name v) proto (var_type v)]).
Proof.
  intros H Hc. unfold validateCodingKeysEnum_case. now rewrite H, Hc.
Qed.

Lemma validateCodingKeysEnum_case_matched proto k varDecls valid s v :
  MapVector_find varDecls k = Some v ->
  conformsToProtocol (var_type v) proto = true ->
  validateCodingKeysEnum_case proto k (varDecls, valid) s =
    Returned (MapVector_erase varDecls k, valid) s.
Proof.
  intros H Hc. unfold validateCodingKeysEnum_case. now rewrite H, Hc.
Qed.

(** The first loop: every key without a member is reported, in order, and
    the loop runs to the end of the key enumeration. *)
Lemma validateCodingKeysEnum_case_loop (proto : KnownProtocolKind)
      (noMember : Identifier -> bool) (keys : list Identifier) :
  forall (varDecls : MapVector) (valid : bool) (s : SemaState),
    (forall k, noMember k = true -> MapVector_find varDecls k = None) ->
    exists varDecls' valid' diags,
      forEach keys (validateCodingKeysEnum_case proto) (varDecls, valid) s =
        Returned (varDecls', valid') (emit s diags)
      /\ filter noMember (extraneousKeysOf diags) = filter noMember keys
      /\ (valid' = true -> valid = true)
      /\ ((exists k, In k keys /\ noMember k = true) -> valid' = false).
Proof.
  induction keys as [|k keys IH]; intros varDecls valid s Hno.
  - exists varDecls, valid, []. rewrite emit_nil, forEach_nil.
    repeat split; auto. intros (k & [] & _).
  - rewrite forEach_cons.
    destruct (MapVector_find varDecls k) as [v|] eqn:Hfind.
    + assert (Hk : noMember k = false).
      { destruct (noMember k) eqn:E; [|reflexivity].
        apply Hno in E. congruence. }
      destruct (conformsToProtocol (var_type v) proto) eqn:Hconf.
      * rewrite (validateCodingKeysEnum_case_matched _ _ _ _ _ _ Hfind Hconf).
        destruct (IH (MapVector_erase varDecls k) valid s) as
            (vd' & valid' & diags & Hrun & Hfilter & Hmono & Hex).
        { intros k' Hk'. apply MapVector_find_erase_None. now apply Hno. }
        exists vd', valid', diags.
        split; [exact Hrun|]. simpl. rewrite Hk.
        split; [exact Hfilter|]. split; [exact Hmono|].
        intros (k' & [->|Hin] & Hk'); [congruence|].
        apply Hex. now exists k'.
      * rewrite (validateCodingKeysEnum_case_nonconforming
                   _ _ _ _ _ _ Hfind Hconf).
        destruct (IH varDecls false
                     (emit s [codable_non_conforming_property_here
                                (var_name v) proto (var_type v)]))
          as (vd' & valid' & diags & Hrun & Hfilter & Hmono & Hex); [exact Hno|].
        exists vd', valid', (codable_non_conforming_property_here
                               (var_name v) proto (var_type v) :: diags).
        rewrite Hrun, emit_emit. split; [reflexivity|].
        simpl. rewrite Hk. split; [exact Hfilter|].
        split; [intros E; apply Hmono in E; discriminate|].
        intros _. destruct valid'; [|reflexivity].
        now specialize (Hmono eq_refl).
    + rewrite (validateCodingKeysEnum_case_extraneous _ _ _ _ _ Hfind).
      destruct (IH varDecls false
                   (emit s [codable_extraneous_codingkey_case_here k]))
        as (vd' & valid' & diags & Hrun & Hfilter & Hmono & Hex); [exact Hno|].
      exists vd', valid', (codable_extraneous_codingkey_case_here k :: diags).
      rewrite Hrun, emit_emit. split; [reflexivity|].
      assert (Hfalse : valid' = false).
      { destruct valid'; [|reflexivity]. now specialize (Hmono eq_refl). }
      simpl. destruct (noMember k); simpl; rewrite Hfilter;
        (split; [reflexivity|]);
        (split; [intros E; congruence | intros _; exact Hfalse]).
Qed.

(** When every key names a conforming pending member, the first loop
    emits nothing and leaves exactly the unmatched members. *)
Lemma validateCodingKeysEnum_case_loop_matched (proto : KnownProtocolKind)
      (keys : list Identifier) :
  forall (varDecls : MapVector) (valid : bool) (s : SemaState),
    keysAllMatched proto varDecls keys = true ->
    forEach keys (validateCodingKeysEnum_case proto) (varDecls, valid) s =
      Returned (unmatchedMembers varDecls keys, valid) s.
Proof.
  induction keys as [|k keys IH]; intros varDecls valid s H; [reflexivity|].
  simpl in H. rewrite forEach_cons.
  destruct (MapVector_find varDecls k) as [v|] eqn:Hfind; [|discriminate].
  apply andb_prop in H. destruct H as [Hconf Hrest].
  rewrite (validateCodingKeysEnum_case_matched _ _ _ _ _ _ Hfind Hconf).
  unfold unmatchedMembers. simpl. now apply IH.
Qed.

Lemma validateCodingKeysEnum_remaining_step proto e valid s :
  validateCodingKeysEnum_remaining proto e valid s =
  if isDefaultable (snd e) then Returned valid s
  else Returned false
         (emit s [codable_non_decoded_property_here
                    (var_name (snd e)) proto (fst e)]).
Proof.
  unfold validateCodingKeysEnum_remaining, isDefaultable.
  destruct (match getParentPatternBinding (snd e) with
            | Some b => pbd_isDefaultInitializable b
            | None => false
            end); [reflexivity|].
  destruct (isParentInitialized (snd e)); [reflexivity|].
  destruct (match dyn_cast_ParamDecl (snd e) with
            | Some (Some _) => true
            | _ => false
            end); reflexivity.
Qed.

(** The second loop: one "would never be decoded" error per unmatched
    member that is not defaultable, and nothing for the others. *)
Lemma validateCodingKeysEnum_remaining_loop (proto : KnownProtocolKind)
      (entries : MapVector) :
  forall (valid : bool) (s : SemaState),
    forEach entries (validateCodingKeysEnum_remaining proto) valid s =
      Returned
        (valid && forallb (fun e => isDefaultable (snd e)) entries)
        (emit s (map (fun e => codable_non_decoded_property_here
                                 (var_name (snd e)) proto (fst e))
                     (filter (fun e => negb (isDefaultable (snd e))) entries))).
Proof.
  induction entries as [|e entries IH]; intros valid s.
  - rewrite forEach_nil, emit_nil. simpl. now rewrite andb_true_r.
  - rewrite forEach_cons, validateCodingKeysEnum_remaining_step. simpl.
    destruct (isDefaultable (snd e)); simpl.
    + apply IH.
    + rewrite IH, emit_emit. now rewrite andb_false_r.
Qed.

Lemma validateCodingKeysType_enum proto td e s :
  conformsToCodingKey td = true ->
  getAnyNominal td = Some (EnumNominal e) ->
  validateCodingKeysType proto td s = Returned (Some e) s.
Proof.
  intros Hc Hn. unfold validateCodingKeysType. now rewrite Hc, Hn.
Qed.

(** C2 (as amended). During [Decodable] validation against a key
    enumeration whose keys have all been matched to conforming members,
    every member left unmatched is accepted without a diagnostic when it is
    defaultable (default-initialisable pattern binding, parent-initialised,
    or a parameter with a default expression); every other unmatched member
    produces exactly one "would never be decoded" error and validation
    fails.  Nothing here depends on whether the key enumeration is
    user-declared or on whether the type conforms to [Encodable]. *)
Theorem C2_unmatched_members_on_decode :
  forall (varDecls : MapVector) (codingKeysTypeDecl : TypeDecl)
         (codingKeysDecl : EnumDecl) (s : SemaState),
    conformsToCodingKey codingKeysTypeDecl = true ->
    getAnyNominal codingKeysTypeDecl = Some (EnumNominal codingKeysDecl) ->
    keysAllMatched Decodable varDecls (enum_elements codingKeysDecl) = true ->
    validateCodingKeysEnum_varDecls Decodable varDecls codingKeysTypeDecl s =
      Returned
        (forallb (fun e => isDefaultable (snd e))
                 (unmatchedMembers varDecls (enum_elements codingKeysDecl)))
        (emit s
           (map (fun e => codable_non_decoded_property_here
                            (var_name (snd e)) Decodable (fst e))
                (filter (fun e => negb (isDefaultable (snd e)))
                        (unmatchedMembers varDecls
                                          (enum_elements codingKeysDecl))))).
Proof.
  intros varDecls td ck s Hc Hn Hkeys.
  unfold validateCodingKeysEnum_varDecls, bind.
  rewrite (validateCodingKeysType_enum _ _ _ _ Hc Hn).
  rewrite (validateCodingKeysEnum_case_loop_matched _ _ _ _ _ Hkeys).
  simpl. now rewrite validateCodingKeysEnum_remaining_loop.
Qed.

Lemma C2_unmatched_members_on_decode_witness :
  keysAllMatched Decodable (storedPropertiesByName ex_Point) ["x"] = true
  /\ validateCodingKeysEnum_varDecls
       Decodable (storedPropertiesByName ex_Point)
       (NominalDecl (EnumNominal {| enum_name := Id_CodingKeys;
                                    enum_elements := ["x"];
                                    enum_isImplicit := false |}) true)
       (initialState ex_Point) =
     Returned false
       {| Nominal := ex_Point;
          Diags := [codable_non_decoded_property_here "y" Decodable "y"] |}.
Proof.
  split; [reflexivity|].
  exact (C2_unmatched_members_on_decode
           (storedPropertiesByName ex_Point)
           (NominalDecl (EnumNominal {| enum_name := Id_CodingKeys;
                                        enum_elements := ["x"];
                                        enum_isImplicit := false |}) true)
           {| enum_name := Id_CodingKeys; enum_elements := ["x"];
              enum_isImplicit := false |}
           (initialState ex_Point) eq_refl eq_refl eq_refl).
Defined.

(** C2 as stated fails: [Point] declares its own [CodingKeys], conforms to
    [Encodable] as well, and simply has no key for [y], which has no
    default; validation for [Decodable] still fails with the "would never
    be decoded" error rather than passing with a warning. *)
Lemma C2_no_warning_only_exception :
  nominal_conformsToEncodable ex_Point = true
  /\ evaluatedCodingKeysEnum ex_Point Id_CodingKeys =
       Some {| enum_name := Id_CodingKeys; enum_elements := ["x"];
               enum_isImplicit := false |}
  /\ lookupEnumCase {| enum_name := Id_CodingKeys; enum_elements := ["x"];
                       enum_isImplicit := false |} "y" = None
  /\ validateCodingKeysEnum Decodable (initialState ex_Point) =
       Returned false
         {| Nominal := ex_Point;
            Diags := [codable_non_decoded_property_here "y" Decodable "y"] |}
  /\ deriveDecodable derivingDecodable initRequirement (initialState ex_Point) =
       Returned None
         {| Nominal := ex_Point;
            Diags := [codable_non_decoded_property_here "y" Decodable "y";
                      type_does_not_conform "Point" Decodable;
                      no_witnesses initRequirement Decodable] |}.
Proof. repeat split. Qed.

Lemma canSynthesize_superInit_encodable derived requirement s :
  Protocol derived = Encodable ->
  canSynthesize_superInit derived requirement s = Returned true s.
Proof.
  intros H. unfold canSynthesize_superInit, bind, getNominal. rewrite H.
  destruct (dyn_cast_ClassDecl (Nominal s)) as [[c|]|]; reflexivity.
Qed.

Lemma validateCodingKeysEnum_declared proto s td :
  isa_EnumDecl (Nominal s) = false ->
  lookupDirect (Nominal s) Id_CodingKeys = [VD_Type td] ->
  validateCodingKeysEnum proto s =
  validateCodingKeysEnum_varDecls
    proto (storedPropertiesByName (Nominal s)) td s.
Proof.
  intros Hk Hl. unfold validateCodingKeysEnum, bind, getNominal.
  rewrite Hl, Hk. reflexivity.
Qed.

Lemma canSynthesize_superInit_outcome derived requirement s :
  canSynthesize_superInit derived requirement s = Returned true s
  \/ exists s', canSynthesize_superInit derived requirement s = Returned false s'.
Proof.
  unfold canSynthesize_superInit, bind, getNominal.
  destruct (dyn_cast_ClassDecl (Nominal s)) as [[sup|]|]; try (now left).
  destruct (isSpecificProtocol (Protocol derived) Decodable); [|now left].
  destruct (lookupMember sup _) as [|c [|c' rest]].
  - right. eexists. reflexivity.
  - destruct (negb (ctor_isDesignatedInit c)); [right; eexists; reflexivity|].
    destruct (negb (ctor_isAccessibleFromConformance c));
      [right; eexists; reflexivity|].
    destruct (ctor_isFailable c); [right; eexists; reflexivity|now left].
  - right. eexists. reflexivity.
Qed.

(** C7. When a declared key enumeration is validated against the stored
    properties of a struct or class, for the requirement of either
    protocol, every case of the enumeration that names no member produces
    one "extraneous key" diagnostic: the diagnostics for such keys are, in
    order and with multiplicity, exactly the cases without a member, so the
    loop goes through the whole enumeration instead of stopping at the first
    mismatch.  Validation then fails, [canSynthesize] answers false, and
    [deriveEncodable] and [deriveDecodable] return no declaration, hence no
    body; when the check of the superclass initialiser has passed, the
    diagnostics of the derivation are those of validation followed by
    "type does not conform" and "no witnesses". *)
Theorem C7_every_extraneous_key_reported :
  forall (derived : DerivedConformance) (requirement : DeclName)
         (s : SemaState) (codingKeysTypeDecl : TypeDecl)
         (codingKeysDecl : EnumDecl),
    isa_EnumDecl (Nominal s) = false ->
    lookupDirect (Nominal s) Id_CodingKeys = [VD_Type codingKeysTypeDecl] ->
    conformsToCodingKey codingKeysTypeDecl = true ->
    getAnyNominal codingKeysTypeDecl = Some (EnumNominal codingKeysDecl) ->
    (exists k, In k (enum_elements codingKeysDecl)
               /\ hasNoMember (storedPropertiesByName (Nominal s)) k = true) ->
    exists diags : list Diagnostic,
      validateCodingKeysEnum (Protocol derived) s = Returned false (emit s diags)
      /\ filter (hasNoMember (storedPropertiesByName (Nominal s)))
                (extraneousKeysOf diags) =
         filter (hasNoMember (storedPropertiesByName (Nominal s)))
                (enum_elements codingKeysDecl)
      /\ (exists s', canSynthesize derived requirement s = Returned false s')
      /\ (exists s', deriveEncodable derived requirement s = Returned None s')
      /\ (exists s', deriveDecodable derived requirement s = Returned None s')
      /\ (canSynthesize_superInit derived requirement s = Returned true s ->
          isa_Struct_Class_or_Enum (Nominal s) = true ->
          InDisallowedContext derived = false ->
          (name_base requirement = Id_encode ->
           deriveEncodable derived requirement s =
             Returned None
               (emit s (diags
                        ++ [type_does_not_conform
                              (nominal_name (Nominal s)) (Protocol derived);
                            no_witnesses requirement (Protocol derived)])))
          /\ (name_base requirement = Id_init ->
              deriveDecodable derived requirement s =
                Returned None
                  (emit s (diags
                           ++ [type_does_not_conform
                                 (nominal_name (Nominal s)) (Protocol derived);
                               no_witnesses requirement (Protocol derived)])))).
Proof.
  intros derived requirement s td ck Henum Hlookup Hconf Hnom Hex.
  destruct (validateCodingKeysEnum_case_loop
              (Protocol derived)
              (hasNoMember (storedPropertiesByName (Nominal s)))
              (enum_elements ck) (storedPropertiesByName (Nominal s)) true s)
    as (vd' & valid' & diags & Hrun & Hfilter & _ & Hfalse).
  { intros k Hk. unfold hasNoMember in Hk.
    destruct (MapVector_find _ k); [discriminate|reflexivity]. }
  specialize (Hfalse Hex). subst valid'.
  assert (Hval : validateCodingKeysEnum (Protocol derived) s =
                 Returned false (emit s diags)).
  { rewrite (validateCodingKeysEnum_declared _ _ _ Henum Hlookup).
    unfold validateCodingKeysEnum_varDecls, bind.
    rewrite (validateCodingKeysType_enum _ _ _ _ Hconf Hnom), Hrun.
    reflexivity. }
  assert (Hcan : canSynthesize_superInit derived requirement s = Returned true s ->
                 canSynthesize derived requirement s =
                   Returned false (emit s diags)).
  { intros Hsuper. unfold canSynthesize, bind. rewrite Hsuper. simpl.
    now rewrite Hval. }
  assert (Hcan' : exists s', canSynthesize derived requirement s =
                             Returned false s').
  { destruct (canSynthesize_superInit_outcome derived requirement s)
      as [Hsuper|(s' & Hsuper)].
    - eexists. exact (Hcan Hsuper).
    - exists s'. unfold canSynthesize, bind. now rewrite Hsuper. }
  exists diags. split; [exact Hval|]. split; [exact Hfilter|].
  split; [exact Hcan'|].
  destruct Hcan' as (s' & Hs').
  split; [|split].
  - unfold deriveEncodable, bind, getNominal. cbv beta iota.
    destruct (negb (isa_Struct_Class_or_Enum (Nominal s)));
      [eexists; reflexivity|].
    destruct (negb (String.eqb (name_base requirement) Id_encode));
      [eexists; reflexivity|].
    destruct (InDisallowedContext derived); [eexists; reflexivity|].
    cbv beta iota. rewrite Hs'. eexists. reflexivity.
  - unfold deriveDecodable, bind, getNominal. cbv beta iota.
    destruct (negb (isa_Struct_Class_or_Enum (Nominal s)));
      [eexists; reflexivity|].
    destruct (negb (String.eqb (name_base requirement) Id_init));
      [eexists; reflexivity|].
    destruct (InDisallowedContext derived); [eexists; reflexivity|].
    cbv beta iota. rewrite Hs'. eexists. reflexivity.
  - intros Hsuper Hsce Hctx. specialize (Hcan Hsuper). split; intros Hname.
    + unfold deriveEncodable, bind, getNominal.
      rewrite Hsce, Hname, Hctx. simpl. rewrite Hcan. simpl.
      unfold ret, emit. simpl. now rewrite <- !app_assoc.
    + unfold deriveDecodable, bind, getNominal.
      rewrite Hsce, Hname, Hctx. simpl. rewrite Hcan. simpl.
      unfold ret, emit. simpl. now rewrite <- !app_assoc.
Qed.

Lemma C7_every_extraneous_key_reported_witness :
  lookupDirect ex_Account Id_CodingKeys =
    [userEnum Id_CodingKeys ["id"; "balance"; "owner"; "legacy"]]
  /\ hasNoMember (storedPropertiesByName ex_Account) "balance" = true
  /\ exists diags : list Diagnostic,
       validateCodingKeysEnum Decodable (initialState ex_Account) =
         Returned false (emit (initialState ex_Account) diags)
       /\ filter (hasNoMember (storedPropertiesByName ex_Account))
                 (extraneousKeysOf diags) =
          filter (hasNoMember (storedPropertiesByName ex_Account))
                 ["id"; "balance"; "owner"; "legacy"]
       /\ deriveDecodable derivingDecodable initRequirement
                          (initialState ex_Account) =
            Returned None
              (emit (initialState ex_Account)
                    (diags ++ [type_does_not_conform "Account" Decodable;
                               no_witnesses initRequirement Decodable])).
Proof.
  split; [reflexivity|]. split; [reflexivity|].
  destruct (C7_every_extraneous_key_reported
              derivingDecodable initRequirement (initialState ex_Account)
              (NominalDecl (EnumNominal
                              {| enum_name := Id_CodingKeys;
                                 enum_elements :=
                                   ["id"; "balance"; "owner"; "legacy"];
                                 enum_isImplicit := false |}) true)
              {| enum_name := Id_CodingKeys;
                 enum_elements := ["id"; "balance"; "owner"; "legacy"];
                 enum_isImplicit := false |}
              eq_refl eq_refl eq_refl eq_refl
              (ex_intro _ "balance"
                        (conj (or_intror (or_introl eq_refl)) eq_refl)))
    as (diags & Hval & Hfilter & _ & _ & _ & Hderive).
  exists diags. split; [exact Hval|]. split; [exact Hfilter|].
  exact (proj2 (Hderive eq_refl eq_refl eq_refl) eq_refl).
Defined.

(** ** The body of [init(from:)] for structs and classes *)

Lemma lookupEvaluatedCodingKeysEnum_view target identifier e s :
  evaluatedCodingKeysEnum target identifier = Some e ->
  lookupEvaluatedCodingKeysEnum target identifier s = Returned (Some e) s.
Proof.
  unfold evaluatedCodingKeysEnum, lookupEvaluatedCodingKeysEnum.
  destruct (lookupDirect target identifier) as [|d rest]; [discriminate|].
  destruct d as [v b|elt|t|f]; try discriminate.
  destruct t as [n c|name [n|] c]; simpl; try discriminate.
  - destruct n; [|discriminate]. now intros [= ->].
  - destruct n; [|discriminate]. now intros [= ->].
Qed.

Lemma requireCodingKeysEnum_view target e s :
  evaluatedCodingKeysEnum target Id_CodingKeys = Some e ->
  requireCodingKeysEnum target s = Returned e s.
Proof.
  intros H. unfold requireCodingKeysEnum, bind.
  now rewrite (lookupEvaluatedCodingKeysEnum_view _ _ _ _ H).
Qed.

Lemma deriveBodyDecodable_init_key_spec target codingKeysEnum key statements s :
  resolvedMember target key <> None ->
  exists diags,
    deriveBodyDecodable_init_key
      target codingKeysEnum (DeclaredType (enum_name codingKeysEnum))
      (DeclRefExpr Id_container DirectToStorage) key statements s =
      Returned (statements
                ++ spec_decodeStatementsForKey target codingKeysEnum key)
               (emit s diags)
    /\ forallb isWillNotBeDecodedNote diags = true.
Proof.
  intros Hres.
  unfold deriveBodyDecodable_init_key, spec_decodeStatementsForKey,
    lookupVarDeclForCodingKeysCase, resolvedMember in *.
  destruct (lookupVarDeclForCodingKeysCase_in (lookupDirect target key))
    as [[[v ty] ifp]|]; [|congruence].
  unfold bind at 1. unfold ret at 1.
  destruct (var_isLet v && isParentInitialized v).
  - rewrite app_nil_r.
    destruct (negb (enum_isImplicit codingKeysEnum)
              && (nominal_conformsToEncodable target
                  || negb (existsb (String.eqb (var_name v))
                                   (enum_elements codingKeysEnum)))).
    + exists []. now rewrite emit_nil.
    + unfold bind, ret.
      destruct (enum_isImplicit codingKeysEnum);
        destruct (getParentPatternBinding v);
        rewrite ?diagnose_emit, ?emit_emit;
        eexists; (split; [reflexivity|]); reflexivity.
  - exists []. now rewrite emit_nil.
Qed.

Lemma deriveBodyDecodable_init_key_loop target codingKeysEnum keys :
  forall statements s,
    (forall key, In key keys -> resolvedMember target key <> None) ->
    exists diags,
      forEach keys
              (deriveBodyDecodable_init_key
                 target codingKeysEnum (DeclaredType (enum_name codingKeysEnum))
                 (DeclRefExpr Id_container DirectToStorage))
              statements s =
        Returned (statements
                  ++ flat_map (spec_decodeStatementsForKey target codingKeysEnum)
                              keys)
                 (emit s diags)
      /\ forallb isWillNotBeDecodedNote diags = true.
Proof.
  induction keys as [|key keys IH]; intros statements s Hres.
  - exists []. rewrite forEach_nil, emit_nil. simpl. now rewrite app_nil_r.
  - destruct (deriveBodyDecodable_init_key_spec
                target codingKeysEnum key statements s)
      as (d1 & Hstep & Hd1); [apply Hres; now left|].
    destruct (IH (statements
                  ++ spec_decodeStatementsForKey target codingKeysEnum key)
                 (emit s d1))
      as (d2 & Hrest & Hd2); [intros k Hk; apply Hres; now right|].
    exists (d1 ++ d2). rewrite forEach_cons, Hstep, Hrest, emit_emit.
    simpl. rewrite <- app_assoc. split; [reflexivity|].
    rewrite forallb_app. now rewrite Hd1, Hd2.
Qed.

Lemma deriveBodyDecodable_init_super_spec target statements s :
  superInitCallable target = true ->
  exists superCall,
    deriveBodyDecodable_init_super
      target (DeclRefExpr Id_container DirectToStorage) statements s =
      Returned (statements ++ superCall) s
    /\ (superCall = [] \/ exists e, superCall = [N_Expr e])
    /\ (dyn_cast_ClassDecl target = None
        \/ dyn_cast_ClassDecl target = Some None -> superCall = []).
Proof.
  unfold superInitCallable, deriveBodyDecodable_init_super.
  destruct (dyn_cast_ClassDecl target) as [[sup|]|]; simpl.
  - intros H. destruct (class_conformsToDecodable sup); simpl in *.
    + eexists. split; [reflexivity|]. split; [right; eauto|].
      intros [|]; discriminate.
    + destruct (lookupDirect_init sup []) as [|c rest]; [discriminate|].
      unfold bind, assert. destruct (ctor_isFailable c); [discriminate|].
      simpl. eexists. split; [reflexivity|]. split; [right; eauto|].
      intros [|]; discriminate.
  - intros _. exists []. rewrite app_nil_r. auto.
  - intros _. exists []. rewrite app_nil_r. auto.
Qed.

(** C8. In the synthesised [init(from:)] of a struct or class: with a key
    enumeration of zero cases, no statement acquires a decoding container;
    otherwise the body starts with the binding
    [let container = try decoder.container(keyedBy: CodingKeys.self)],
    and then holds, key by key and in order, nothing for a key whose member
    is a [let] with an initial value (only notes that the property will not
    be decoded may be emitted) and, for every other key, one assignment of
    a [decode] / [decodeIfPresent] call into the member.  The only
    statement that may follow is the call of the superclass initialiser. *)
Theorem C8_decode_init_body :
  forall (s : SemaState) (codingKeysEnum : EnumDecl),
    evaluatedCodingKeysEnum (Nominal s) Id_CodingKeys = Some codingKeysEnum ->
    (forall key, In key (enum_elements codingKeysEnum) ->
                 resolvedMember (Nominal s) key <> None) ->
    superInitCallable (Nominal s) = true ->
    exists (superCall : list ASTNode) (diags : list Diagnostic),
      deriveBodyDecodable_init s =
        Returned
          ((match enum_elements codingKeysEnum with
            | [] => []
            | _ :: _ =>
                [N_PatternBinding
                   (NamedPattern Id_container)
                   (TryExpr
                      (CallExpr
                         (UnresolvedDotExpr (DeclRefExpr Id_decoder Ordinary)
                                            Id_container (Some [Id_keyedBy]))
                         [DotSelfExpr
                            (TypeExpr
                               (DeclaredType (enum_name codingKeysEnum)))]
                         [Id_keyedBy]));
                 N_VarDecl Id_container Let
                           (BoundGenericType
                              KeyedDecodingContainerDecl
                              (DeclaredType (enum_name codingKeysEnum)))]
            end)
           ++ flat_map (spec_decodeStatementsForKey (Nominal s) codingKeysEnum)
                       (enum_elements codingKeysEnum)
           ++ superCall)
          (emit s diags)
      /\ forallb isWillNotBeDecodedNote diags = true
      /\ (superCall = [] \/ exists e, superCall = [N_Expr e])
      /\ (enum_elements codingKeysEnum = [] ->
          forall stmts s',
            deriveBodyDecodable_init s = Returned stmts s' ->
            existsb acquiresContainer stmts = false).
Proof.
  intros s ck Hck Hres Hsuper.
  unfold deriveBodyDecodable_init, bind, getNominal.
  rewrite (requireCodingKeysEnum_view _ _ _ Hck).
  destruct (enum_elements ck) as [|k0 keys] eqn:Hkeys.
  - destruct (deriveBodyDecodable_init_super_spec (Nominal s) [] s Hsuper)
      as (superCall & Hs & Hshape & _).
    exists superCall, []. unfold ret. simpl. rewrite emit_nil.
    split; [exact Hs|]. split; [reflexivity|]. split; [exact Hshape|].
    intros _ stmts s' Hrun. simpl in Hs. rewrite Hs in Hrun.
    injection Hrun as <- _.
    destruct Hshape as [->|[e ->]]; reflexivity.
  - destruct (deriveBodyDecodable_init_key_loop
                (Nominal s) ck (k0 :: keys)
                ([] ++ [N_PatternBinding
                          (NamedPattern Id_container)
                          (TryExpr
                             (createContainerKeyedByCall
                                (DeclRefExpr Id_decoder Ordinary) ck));
                        SynthesizedVarDecl_asNode
                          (createKeyedContainer
                             KeyedDecodingContainerDecl
                             (DeclaredType (enum_name ck)) Let Id_container)])
                s Hres)
      as (diags & Hloop & Hdiags).
    simpl svd_name. rewrite Hloop.
    destruct (deriveBodyDecodable_init_super_spec
                (Nominal s)
                (([] ++ [N_PatternBinding
                          (NamedPattern Id_container)
                          (TryExpr
                             (createContainerKeyedByCall
                                (DeclRefExpr Id_decoder Ordinary) ck));
                        SynthesizedVarDecl_asNode
                          (createKeyedContainer
                             KeyedDecodingContainerDecl
                             (DeclaredType (enum_name ck)) Let Id_container)])
                 ++ flat_map (spec_decodeStatementsForKey (Nominal s) ck)
                             (k0 :: keys))
                (emit s diags) Hsuper)
      as (superCall & Hs & Hshape & _).
    exists superCall, diags. simpl Nominal in Hs. rewrite Hs.
    split; [|split; [exact Hdiags|split; [exact Hshape|discriminate]]].
    f_equal. all: simpl; now rewrite <- ?app_assoc.
Qed.

Lemma C8_decode_init_body_witness :
  evaluatedCodingKeysEnum ex_Person_keyed Id_CodingKeys =
    Some {| enum_name := Id_CodingKeys;
            enum_elements := ["name"; "nick"; "kind"];
            enum_isImplicit := true |}
  /\ superInitCallable ex_Person_keyed = true
  /\ exists (stmts : list ASTNode) (diags : list Diagnostic),
       deriveBodyDecodable_init (initialState ex_Person_keyed) =
         Returned stmts (emit (initialState ex_Person_keyed) diags)
       /\ forallb isWillNotBeDecodedNote diags = true.
Proof.
  split; [reflexivity|]. split; [reflexivity|].
  destruct (C8_decode_init_body
              (initialState ex_Person_keyed)
              {| enum_name := Id_CodingKeys;
                 enum_elements := ["name"; "nick"; "kind"];
                 enum_isImplicit := true |}
              eq_refl
              (fun key H =>
                 match H with
                 | or_introl e =>
                     match e in _ = k return resolvedMember ex_Person_keyed k <> None
                     with eq_refl => fun E => ltac:(discriminate E) end
                 | or_intror (or_introl e) =>
                     match e in _ = k return resolvedMember ex_Person_keyed k <> None
                     with eq_refl => fun E => ltac:(discriminate E) end
                 | or_intror (or_intror (or_introl e)) =>
                     match e in _ = k return resolvedMember ex_Person_keyed k <> None
                     with eq_refl => fun E => ltac:(discriminate E) end
                 | or_intror (or_intror (or_intror F)) => match F with end
                 end)
              eq_refl)
    as (superCall & diags & Hrun & Hdiags & _).
  eexists. exists diags. split; [exact Hrun | exact Hdiags].
Defined.

(** ** The body of [encode(to:)] for enums *)

Lemma forEach_same_state {A S} (xs : list A) (body : A -> S -> Sema S) :
  (forall x acc s, In x xs -> exists acc', body x acc s = Returned acc' s) ->
  forall acc s, exists acc', forEach xs body acc s = Returned acc' s.
Proof.
  induction xs as [|x xs IH]; intros Hbody acc s.
  - exists acc. reflexivity.
  - destruct (Hbody x acc s (or_introl eq_refl)) as (acc1 & H1).
    destruct (IH (fun y a t Hy => Hbody y a t (or_intror Hy)) acc1 s)
      as (acc2 & H2).
    exists acc2. now rewrite forEach_cons, H1.
Qed.

(** A loop whose every iteration appends to the accumulator appends the
    concatenation of what the iterations append. *)
Lemma forEach_collect {A B} (R : A -> list B -> Prop) (xs : list A)
      (body : A -> list B -> Sema (list B)) (s : SemaState) :
  (forall x, In x xs ->
             exists ys, (forall acc, body x acc s = Returned (acc ++ ys) s)
                        /\ R x ys) ->
  forall acc, exists yss,
      forEach xs body acc s = Returned (acc ++ concat yss) s
      /\ Forall2 R xs yss.
Proof.
  induction xs as [|x xs IH]; intros Hbody acc.
  - exists []. simpl. rewrite app_nil_r. split; [reflexivity|constructor].
  - destruct (Hbody x (or_introl eq_refl)) as (ys & Hys & HR).
    destruct (IH (fun y Hy => Hbody y (or_intror Hy)) (acc ++ ys))
      as (yss & Hrun & HF).
    exists (ys :: yss). rewrite forEach_cons, Hys, Hrun. simpl.
    rewrite <- app_assoc. split; [reflexivity|now constructor].
Qed.

Lemma Forall2_singletons {A B} (P : A -> B -> Prop) (xs : list A)
      (yss : list (list B)) :
  Forall2 (fun x ys => exists y, ys = [y] /\ P x y) xs yss ->
  Forall2 P xs (concat yss).
Proof.
  induction 1 as [|x ys xs yss (y & -> & HP) _ IH]; simpl; now constructor.
Qed.

Lemma combine_seq_In {A} (xs : list A) :
  forall start i x,
    In (i, x) (combine (seq start (length xs)) xs) ->
    exists j, i = start + j /\ nth_error xs j = Some x.
Proof.
  induction xs as [|y xs IH]; intros start i x H; [destruct H|].
  simpl in H. destruct H as [[= <- <-]|H].
  - exists 0. split; [lia|reflexivity].
  - destruct (IH _ _ _ H) as (j & -> & Hj).
    exists (S j). split; [lia|exact Hj].
Qed.

Lemma enumerate_In {A} (xs : list A) i x :
  In (i, x) (enumerate xs) -> nth_error xs i = Some x.
Proof.
  intros H. destruct (combine_seq_In xs 0 i x H) as (j & -> & Hj). exact Hj.
Qed.

Lemma enumerate_length {A} (xs : list A) : length (enumerate xs) = length xs.
Proof.
  unfold enumerate. rewrite length_combine, length_seq. apply Nat.min_id.
Qed.

Lemma deriveBodyEncodable_enum_encode_payload_loop elt caseCodingKeys decl :
  forall acc s,
  exists acc',
    forEach (enumerate (snd (enumElementPayloadSubpattern elt "a")))
            (deriveBodyEncodable_enum_encode_payload elt caseCodingKeys decl)
            acc s = Returned acc' s.
Proof.
  apply forEach_same_state. intros [i pv] acc s Hin.
  apply enumerate_In in Hin.
  assert (Hlt : i < length (getParameterList elt)).
  { assert (Hne : nth_error (snd (enumElementPayloadSubpattern elt "a")) i
                  <> None) by congruence.
    apply nth_error_Some in Hne. revert Hne.
    unfold enumElementPayloadSubpattern, getParameterList.
    destruct (elt_params elt) as [ps|]; simpl; [|lia].
    now rewrite length_map, enumerate_length. }
  unfold deriveBodyEncodable_enum_encode_payload. cbn [fst snd].
  destruct (nth_error (getParameterList elt) i) as [p|] eqn:Hp.
  - destruct (lookupEnumCase caseCodingKeys (paramCodingIdentifier i p));
      eexists; reflexivity.
  - apply nth_error_None in Hp. lia.
Qed.

Lemma deriveBodyEncodable_enum_encode_case_spec enumDecl codingKeysEnum elt s :
  (lookupEnumCase codingKeysEnum (elt_name elt) <> None ->
   evaluatedCodingKeysEnum enumDecl (caseCodingKeysIdentifier elt) <> None) ->
  exists c,
    (forall cases,
        deriveBodyEncodable_enum_encode_case
          enumDecl codingKeysEnum (DeclRefExpr Id_container DirectToStorage)
          elt cases s = Returned (cases ++ [c]) s)
    /\ case_label c =
         EnumElementPattern (DeclaredType (nominal_name enumDecl)) (elt_name elt)
                            (fst (enumElementPayloadSubpattern elt "a"))
    /\ (lookupEnumCase codingKeysEnum (elt_name elt) = None ->
        case_body c =
          [spec_throwInvalidValue (deriveBodyEncodable_enum_encode_message elt)]).
Proof.
  intros Hkeys. unfold deriveBodyEncodable_enum_encode_case.
  destruct (lookupEnumCase codingKeysEnum (elt_name elt)) as [k|] eqn:Hk.
  - destruct (evaluatedCodingKeysEnum enumDecl (caseCodingKeysIdentifier elt))
      as [cck|] eqn:Hcck; [|exfalso; now apply Hkeys].
    pose proof (deriveBodyEncodable_enum_encode_payload_loop
                  elt cck
                  (createKeyedContainer KeyedEncodingContainerDecl
                                        (DeclaredType (enum_name cck))
                                        Var Id_nestedContainer)) as Hloop.
    destruct (enumElementPayloadSubpattern elt "a") as [sub pvs].
    simpl snd in Hloop.
    destruct (Hloop
                [N_PatternBinding
                   (NamedPattern Id_nestedContainer)
                   (createNestedContainerKeyedByForKeyCall
                      (DeclRefExpr Id_container DirectToStorage) cck
                      codingKeysEnum k);
                 SynthesizedVarDecl_asNode
                   (createKeyedContainer KeyedEncodingContainerDecl
                                         (DeclaredType (enum_name cck))
                                         Var Id_nestedContainer)] s)
      as (body & Hbody).
    exists (CaseStmt_create
              (EnumElementPattern (DeclaredType (nominal_name enumDecl))
                                  (elt_name elt) sub)
              body
              (if match pvs with [] => false | _ :: _ => true end
               then Some (map fst pvs) else None)).
    split; [|split; [reflexivity|discriminate]].
    intros cases. unfold bind.
    rewrite (lookupEvaluatedCodingKeysEnum_view _ _ _ _ Hcck).
    simpl svd_name. rewrite Hbody. reflexivity.
  - destruct (enumElementPayloadSubpattern elt "a") as [sub pvs].
    exists (CaseStmt_create
              (EnumElementPattern (DeclaredType (nominal_name enumDecl))
                                  (elt_name elt) sub)
              [spec_throwInvalidValue
                 (deriveBodyEncodable_enum_encode_message elt)]
              (if match pvs with [] => false | _ :: _ => true end
               then Some (map fst pvs) else None)).
    split; [|split; [reflexivity|intros _; reflexivity]].
    intros cases. reflexivity.
Qed.

(** The whole encode body of an enum: the container binding, then one
    switch over [self] with one case per case of the enum, in order. *)
Lemma deriveBodyEncodable_enum_encode_spec s codingKeysEnum :
  evaluatedCodingKeysEnum (Nominal s) Id_CodingKeys = Some codingKeysEnum ->
  matchedCasesHaveKeys (Nominal s) codingKeysEnum = true ->
  exists cases,
    deriveBodyEncodable_enum_encode s =
      Returned
        [N_PatternBinding
           (NamedPattern Id_container)
           (createContainerKeyedByCall (DeclRefExpr Id_encoder Ordinary)
                                       codingKeysEnum);
         N_VarDecl Id_container Var
                   (BoundGenericType KeyedEncodingContainerDecl
                                     (DeclaredType (enum_name codingKeysEnum)));
         N_Switch (DeclRefExpr Id_self Ordinary) cases] s
    /\ Forall2
         (fun elt c =>
            case_label c =
              EnumElementPattern (DeclaredType (nominal_name (Nominal s)))
                                 (elt_name elt)
                                 (fst (enumElementPayloadSubpattern elt "a"))
            /\ (lookupEnumCase codingKeysEnum (elt_name elt) = None ->
                case_body c =
                  [spec_throwInvalidValue
                     (deriveBodyEncodable_enum_encode_message elt)]))
         (getAllElements (Nominal s)) cases.
Proof.
  intros Hck Hready.
  unfold deriveBodyEncodable_enum_encode, bind, getNominal.
  rewrite (requireCodingKeysEnum_view _ _ _ Hck).
  destruct (forEach_collect
              (fun elt ys =>
                 exists c, ys = [c]
                   /\ (case_label c =
                         EnumElementPattern
                           (DeclaredType (nominal_name (Nominal s)))
                           (elt_name elt)
                           (fst (enumElementPayloadSubpattern elt "a"))
                       /\ (lookupEnumCase codingKeysEnum (elt_name elt) = None ->
                           case_body c =
                             [spec_throwInvalidValue
                                (deriveBodyEncodable_enum_encode_message elt)])))
              (getAllElements (Nominal s))
              (deriveBodyEncodable_enum_encode_case
                 (Nominal s) codingKeysEnum
                 (DeclRefExpr Id_container DirectToStorage))
              s) with (acc := @nil CaseStmt) as (yss & Hrun & HF).
  { intros elt Hin.
    destruct (deriveBodyEncodable_enum_encode_case_spec
                (Nominal s) codingKeysEnum elt s) as (c & Hc & Hlabel & Hbody).
    { intros Hk. unfold matchedCasesHaveKeys in Hready.
      rewrite forallb_forall in Hready. specialize (Hready elt Hin).
      destruct (lookupEnumCase codingKeysEnum (elt_name elt)); [|congruence].
      destruct (evaluatedCodingKeysEnum
                  (Nominal s) (caseCodingKeysIdentifier elt));
        [discriminate | discriminate Hready]. }
    exists [c]. split; [exact Hc|]. exists c. auto. }
  simpl svd_name. rewrite Hrun. simpl.
  exists (concat yss). split; [reflexivity|].
  now apply Forall2_singletons.
Qed.

Lemma deriveBodyEncodable_enum_encode_message_text elt :
  deriveBodyEncodable_enum_encode_message elt =
  ("Case '" ++ elt_name elt
   ++ "' cannot be decoded because it is not defined in CodingKeys.")%string.
Proof.
  unfold deriveBodyEncodable_enum_encode_message. simpl.
  repeat f_equal.
Qed.

(** C6. In the synthesised [encode(to:)] of an enum, after the binding
    of the container, the switch over [self] has one branch per case of the
    enum, and the branch of every case that has no key in [CodingKeys]
    consists of a single statement: a [throw] of
    [EncodingError.invalidValue] carrying [self] and a context made of the
    container's coding path and the message
    ["Case '<case name>' cannot be decoded because it is not defined in CodingKeys."].
    No nested container is bound and no encode call is made in such a
    branch, and synthesising it emits no diagnostic. *)
Theorem C6_unmatched_case_throws_on_encode :
  forall (s : SemaState) (codingKeysEnum : EnumDecl),
    evaluatedCodingKeysEnum (Nominal s) Id_CodingKeys = Some codingKeysEnum ->
    matchedCasesHaveKeys (Nominal s) codingKeysEnum = true ->
    exists cases : list CaseStmt,
      deriveBodyEncodable_enum_encode s =
        Returned
          [N_PatternBinding
             (NamedPattern "container")
             (CallExpr
                (UnresolvedDotExpr (DeclRefExpr "encoder" Ordinary)
                                   "container" (Some ["keyedBy"]))
                [DotSelfExpr
                   (TypeExpr (DeclaredType (enum_name codingKeysEnum)))]
                ["keyedBy"]);
           N_VarDecl "container" Var
                     (BoundGenericType
                        "KeyedEncodingContainer"
                        (DeclaredType (enum_name codingKeysEnum)));
           N_Switch (DeclRefExpr "self" Ordinary) cases] s
      /\ Forall2
           (fun elt c =>
              case_label c =
                EnumElementPattern (DeclaredType (nominal_name (Nominal s)))
                                   (elt_name elt)
                                   (fst (enumElementPayloadSubpattern elt "a"))
              /\ (lookupEnumCase codingKeysEnum (elt_name elt) = None ->
                  case_body c =
                    [spec_throwInvalidValue
                       ("Case '" ++ elt_name elt
                        ++ "' cannot be decoded because it is not defined in CodingKeys.")%string]))
           (getAllElements (Nominal s)) cases.
Proof.
  intros s ck Hck Hready.
  destruct (deriveBodyEncodable_enum_encode_spec s ck Hck Hready)
    as (cases & Hrun & HF).
  exists cases. split; [exact Hrun|].
  revert HF. apply Forall2_impl. intros elt c (Hl & Hb).
  split; [exact Hl|]. intros Hk.
  rewrite <- deriveBodyEncodable_enum_encode_message_text. now apply Hb.
Qed.

Lemma C6_unmatched_case_throws_on_encode_witness :
  evaluatedCodingKeysEnum ex_Command_keyed Id_CodingKeys =
    Some {| enum_name := Id_CodingKeys; enum_elements := ["load"; "store"];
            enum_isImplicit := false |}
  /\ lookupEnumCase {| enum_name := Id_CodingKeys;
                       enum_elements := ["load"; "store"];
                       enum_isImplicit := false |} "stop" = None
  /\ exists (binding decl : ASTNode) (c1 c2 c3 : CaseStmt),
       deriveBodyEncodable_enum_encode (initialState ex_Command_keyed) =
         Returned [binding; decl;
                   N_Switch (DeclRefExpr "self" Ordinary) [c1; c2; c3]]
                  (initialState ex_Command_keyed)
       /\ case_body c3 =
            [spec_throwInvalidValue
               "Case 'stop' cannot be decoded because it is not defined in CodingKeys."].
Proof.
  split; [reflexivity|]. split; [reflexivity|].
  destruct (C6_unmatched_case_throws_on_encode
              (initialState ex_Command_keyed)
              {| enum_name := Id_CodingKeys; enum_elements := ["load"; "store"];
                 enum_isImplicit := false |} eq_refl eq_refl)
    as (cases & Hrun & HF).
  inversion HF as [|e1 c1 l1 r1 _ HF1]; subst.
  inversion HF1 as [|e2 c2 l2 r2 _ HF2]; subst.
  inversion HF2 as [|e3 c3 l3 r3 H3 HF3]; subst.
  inversion HF3; subst.
  do 2 eexists. exists c1, c2, c3. split; [exact Hrun|].
  exact (proj2 H3 eq_refl).
Defined.

(** C10. In the synthesised [encode(to:)] of an enum, the error thrown in
    the branch of a case that has no key in [CodingKeys] has the debug
    message
    ["Case '<case name>' cannot be decoded because it is not defined in CodingKeys."]:
    the message of the encode path says "decoded". *)
Theorem C10_unmatched_case_message :
  forall (s : SemaState) (codingKeysEnum : EnumDecl),
    evaluatedCodingKeysEnum (Nominal s) Id_CodingKeys = Some codingKeysEnum ->
    matchedCasesHaveKeys (Nominal s) codingKeysEnum = true ->
    exists (stmts : list ASTNode) (subject : Expr) (cases : list CaseStmt),
      deriveBodyEncodable_enum_encode s = Returned stmts s
      /\ last stmts (N_Expr NilLiteralExpr) = N_Switch subject cases
      /\ Forall2
           (fun elt c =>
              lookupEnumCase codingKeysEnum (elt_name elt) = None ->
              exists stmt : ASTNode,
                case_body c = [stmt]
                /\ thrownDebugMessage stmt =
                     Some ("Case '" ++ elt_name elt
                           ++ "' cannot be decoded because it is not defined in CodingKeys.")%string)
           (getAllElements (Nominal s)) cases.
Proof.
  intros s ck Hck Hready.
  destruct (deriveBodyEncodable_enum_encode_spec s ck Hck Hready)
    as (cases & Hrun & HF).
  do 2 eexists. exists cases. split; [exact Hrun|]. split; [reflexivity|].
  revert HF. apply Forall2_impl. intros elt c (_ & Hb) Hk.
  eexists. split; [now apply Hb|].
  simpl. now rewrite deriveBodyEncodable_enum_encode_message_text.
Qed.

Lemma C10_unmatched_case_message_witness :
  lookupEnumCase {| enum_name := Id_CodingKeys;
                    enum_elements := ["load"; "store"];
                    enum_isImplicit := false |} "stop" = None
  /\ exists (stmts : list ASTNode) (subject : Expr) (c1 c2 c3 : CaseStmt)
            (stmt : ASTNode),
       deriveBodyEncodable_enum_encode (initialState ex_Command_keyed) =
         Returned stmts (initialState ex_Command_keyed)
       /\ last stmts (N_Expr NilLiteralExpr) = N_Switch subject [c1; c2; c3]
       /\ case_body c3 = [stmt]
       /\ thrownDebugMessage stmt =
            Some "Case 'stop' cannot be decoded because it is not defined in CodingKeys.".
Proof.
  split; [reflexivity|].
  destruct (C10_unmatched_case_message
              (initialState ex_Command_keyed)
              {| enum_name := Id_CodingKeys; enum_elements := ["load"; "store"];
                 enum_isImplicit := false |} eq_refl eq_refl)
    as (stmts & subject & cases & Hrun & Hlast & HF).
  inversion HF as [|e1 c1 l1 r1 _ HF1]; subst.
  inversion HF1 as [|e2 c2 l2 r2 _ HF2]; subst.
  inversion HF2 as [|e3 c3 l3 r3 H3 HF3]; subst.
  inversion HF3; subst.
  destruct (H3 eq_refl) as (stmt & Hbody & Hmsg).
  exists stmts, subject, c1, c2, c3, stmt.
  repeat split; assumption.
Defined.

(** C3, at an input where the code departs from it.  The second payload
    slot of [Command.load] has the optional type [Int?] and the key [_1].
    The synthesised [encode(to:)] encodes it with [encodeIfPresent], but
    the synthesised [init(from:)] decodes it with the plain [decode] and the
    optional type itself, not with [decodeIfPresent]. *)
Theorem C3_optional_payload_decoded_with_plain_decode :
  nth_error (getParameterList {| elt_name := "load";
                                 elt_params :=
                                   Some [payload "key" String_ty None;
                                         payload "" (OptionalTy Int_ty) None] |})
            1 = Some (payload "" (OptionalTy Int_ty) None)
  /\ (exists binding decl subject nested nestedDecl e1 e2 vars rest,
        deriveBodyEncodable_enum_encode (initialState ex_Command_keyed) =
          Returned
            [binding; decl;
             N_Switch subject
                      (CaseStmt_create
                         (EnumElementPattern (DeclaredType "Command") "load" vars)
                         [nested; nestedDecl; N_Expr e1; N_Expr e2] (Some ["a0"; "a1"])
                       :: rest)]
            (initialState ex_Command_keyed)
        /\ calledMethod e1 = Some "encode"
        /\ calledMethod e2 = Some "encodeIfPresent")
  /\ (exists binding decl guard subject label nested nestedDecl callee a1 a2
             labels rest,
        deriveBodyDecodable_enum_init (initialState ex_Command_keyed) =
          Returned
            [binding; decl; guard;
             N_Switch subject
                      (CaseStmt_create
                         label
                         [nested; nestedDecl;
                          N_Expr (AssignExpr (DeclRefExpr "self" Ordinary)
                                             (CallExpr callee [a1; a2] labels))]
                         None
                       :: rest)]
            (initialState ex_Command_keyed)
        /\ label = OptionalSomePattern
                     (EnumElementPattern (DeclaredType "CodingKeys") "load" None)
        /\ calledMethod a1 = Some "decode"
        /\ calledMethod a2 = Some "decode"
        /\ a2 = TryExpr
                  (CallExpr
                     (UnresolvedDotExpr
                        (DeclRefExpr "nestedContainer" DirectToStorage)
                        "decode" (Some [""; "forKey"]))
                     [DotSelfExpr (TypeExpr (ValueType (OptionalTy Int_ty)));
                      MemberRefExpr (TypeExpr (DeclaredType "LoadCodingKeys"))
                                    "_1"]
                     [""; "forKey"])).
Proof.
  split; [reflexivity|]. split.
  - do 9 eexists. repeat split.
  - do 12 eexists. repeat split.
Qed.

(** ** The body of [init(from:)] for enums *)

Lemma lookupEnumCase_Some e identifier x :
  lookupEnumCase e identifier = Some x -> x = identifier.
Proof.
  unfold lookupEnumCase.
  destruct (filter (String.eqb identifier) (enum_elements e)) as [|y ys] eqn:E;
    [discriminate|].
  intros [= <-].
  assert (Hin : In y (filter (String.eqb identifier) (enum_elements e)))
    by (rewrite E; now left).
  apply filter_In in Hin. destruct Hin as [_ Heq].
  apply String.eqb_eq in Heq. now symmetry.
Qed.

Lemma lookupEnumCase_None e identifier :
  lookupEnumCase e identifier = None -> ~ In identifier (enum_elements e).
Proof.
  unfold lookupEnumCase.
  destruct (filter (String.eqb identifier) (enum_elements e)) as [|y ys] eqn:E;
    [|discriminate].
  intros _ Hin.
  assert (H : In identifier (filter (String.eqb identifier) (enum_elements e))).
  { apply filter_In. split; [exact Hin|apply String.eqb_refl]. }
  rewrite E in H. destruct H.
Qed.

Lemma deriveBodyDecodable_enum_init_param_loop caseCodingKeys entries :
  forall calls labels s,
    forallb (slotHasKeyOrDefault caseCodingKeys) entries = true ->
    exists args,
      forEach entries
              (deriveBodyDecodable_enum_init_param
                 caseCodingKeys
                 (createKeyedContainer KeyedDecodingContainerDecl
                                       (DeclaredType (enum_name caseCodingKeys))
                                       Var Id_nestedContainer))
              (calls, labels) s =
        Returned (calls ++ args,
                  labels ++ map (fun entry => param_name (snd entry)) entries) s
      /\ Forall2 (slotArgument caseCodingKeys) entries args.
Proof.
  induction entries as [|entry entries IH]; intros calls labels s Hready.
  - exists []. rewrite forEach_nil. simpl. rewrite !app_nil_r.
    split; [reflexivity|constructor].
  - simpl in Hready. apply andb_prop in Hready. destruct Hready as [Hhead Hrest].
    rewrite forEach_cons.
    unfold deriveBodyDecodable_enum_init_param at 1.
    unfold slotHasKeyOrDefault, hasDefaultExpr in Hhead.
    destruct (lookupEnumCase caseCodingKeys
                (paramCodingIdentifier (fst entry) (snd entry)))
      as [key|] eqn:Hkey.
    + unfold ret at 1.
      match goal with
      | |- context [forEach entries _ (calls ++ [?a], ?l) s] =>
          destruct (IH (calls ++ [a]) l s Hrest) as (args & Hrun & HF);
          exists (a :: args)
      end.
      rewrite Hrun. simpl. rewrite <- !app_assoc. split; [reflexivity|].
      constructor; [|exact HF]. unfold slotArgument. now rewrite Hkey.
    + destruct (param_defaultExpr (snd entry)) as [d|] eqn:Hd; [|discriminate].
      unfold ret at 1.
      destruct (IH (calls ++ [d])
                   (labels ++ [getVarNameForCoding
                                 (ParamDecl_asVarDecl (snd entry))]) s Hrest)
        as (args & Hrun & HF).
      exists (d :: args). rewrite Hrun. simpl. rewrite <- !app_assoc.
      split; [reflexivity|].
      constructor; [|exact HF]. unfold slotArgument. now rewrite Hkey.
Qed.

Lemma deriveBodyDecodable_enum_init_case_spec targetEnum codingKeysEnum elt s :
  (hasCodingKey codingKeysEnum elt = true ->
   exists caseCodingKeys,
     evaluatedCodingKeysEnum targetEnum (caseCodingKeysIdentifier elt) =
       Some caseCodingKeys
     /\ forallb (slotHasKeyOrDefault caseCodingKeys)
                (enumerate (getParameterList elt)) = true) ->
  exists ys,
    (forall cases,
        deriveBodyDecodable_enum_init_case
          targetEnum codingKeysEnum (DeclRefExpr Id_container DirectToStorage)
          elt cases s = Returned (cases ++ ys) s)
    /\ (if hasCodingKey codingKeysEnum elt
        then exists c, ys = [c] /\ decodedCase targetEnum codingKeysEnum elt c
        else ys = []).
Proof.
  intros Hready.
  unfold deriveBodyDecodable_enum_init_case, hasCodingKey in *.
  destruct (lookupEnumCase codingKeysEnum (elt_name elt)) as [key|] eqn:Hkey.
  - destruct (Hready eq_refl) as (cck & Hcck & Hslots).
    pose proof (lookupEnumCase_Some _ _ _ Hkey) as ->.
    destruct (deriveBodyDecodable_enum_init_param_loop
                cck (enumerate (getParameterList elt)) [] [] s Hslots)
      as (args & Hloop & HF).
    simpl app in Hloop.
    eexists [_]. split.
    + intros cases. unfold bind.
      rewrite (lookupEvaluatedCodingKeysEnum_view _ _ _ _ Hcck).
      assert (Hparams :
        (if hasAssociatedValues elt
         then forEach (enumerate (getParameterList elt))
                      (deriveBodyDecodable_enum_init_param
                         cck
                         (createKeyedContainer
                            KeyedDecodingContainerDecl
                            (DeclaredType (enum_name cck)) Var
                            Id_nestedContainer))
                      ([], [])
         else ret ([], [])) s =
        Returned (args, map (fun entry => param_name (snd entry))
                            (enumerate (getParameterList elt))) s).
      { unfold hasAssociatedValues, getParameterList in *.
        destruct (elt_params elt) as [ps|]; [exact Hloop|].
        inversion HF; subst. reflexivity. }
      rewrite Hparams. reflexivity.
    + eexists. split; [reflexivity|].
      exists cck, args.
      split; [exact Hkey|]. split; [exact Hcck|]. split; [exact HF|].
      unfold payloadLabels.
      destruct (map (fun entry : nat * ParamDecl => param_name (snd entry))
                    (enumerate (getParameterList elt))); reflexivity.
  - exists []. split; [|reflexivity].
    intros cases. unfold ret. now rewrite app_nil_r.
Qed.

Lemma Forall2_filter_concat {A B} (keep : A -> bool) (P : A -> B -> Prop)
      (xs : list A) (yss : list (list B)) :
  Forall2 (fun x ys => if keep x then exists y, ys = [y] /\ P x y else ys = [])
          xs yss ->
  Forall2 P (filter keep xs) (concat yss).
Proof.
  induction 1 as [|x ys xs yss H _ IH]; simpl; [constructor|].
  destruct (keep x).
  - destruct H as (y & -> & HP). simpl. now constructor.
  - subst ys. exact IH.
Qed.

(** The whole decode initialiser of an enum whose key enumeration has
    cases: the container binding, the guard on the number of keys, and a
    switch on the first key with one branch per case that has a key. *)
Lemma deriveBodyDecodable_enum_init_spec s codingKeysEnum :
  evaluatedCodingKeysEnum (Nominal s) Id_CodingKeys = Some codingKeysEnum ->
  hasCases codingKeysEnum = true ->
  casesReadyForDecoding (Nominal s) codingKeysEnum = true ->
  exists cases,
    deriveBodyDecodable_enum_init s =
      Returned
        [N_PatternBinding
           (NamedPattern Id_container)
           (TryExpr (createContainerKeyedByCall
                       (DeclRefExpr Id_decoder Ordinary) codingKeysEnum));
         N_VarDecl Id_container Let
                   (BoundGenericType KeyedDecodingContainerDecl
                                     (DeclaredType (enum_name codingKeysEnum)));
         spec_exactlyOneKeyGuard (nominal_name (Nominal s))
                                 deriveBodyDecodable_enum_init_message;
         N_Switch
           (UnresolvedDotExpr
              (UnresolvedDotExpr (DeclRefExpr Id_container DirectToStorage)
                                 Id_allKeys None)
              Id_first None)
           cases] s
    /\ Forall2 (decodedCase (Nominal s) codingKeysEnum)
               (filter (hasCodingKey codingKeysEnum)
                       (getAllElements (Nominal s)))
               cases.
Proof.
  intros Hck Hcases Hready.
  unfold deriveBodyDecodable_enum_init, bind, getNominal.
  rewrite (requireCodingKeysEnum_view _ _ _ Hck), Hcases.
  destruct (forEach_collect
              (fun elt ys =>
                 if hasCodingKey codingKeysEnum elt
                 then exists c, ys = [c]
                                /\ decodedCase (Nominal s) codingKeysEnum elt c
                 else ys = [])
              (getAllElements (Nominal s))
              (deriveBodyDecodable_enum_init_case
                 (Nominal s) codingKeysEnum
                 (DeclRefExpr Id_container DirectToStorage))
              s) with (acc := @nil CaseStmt) as (yss & Hrun & HF).
  { intros elt Hin.
    apply deriveBodyDecodable_enum_init_case_spec.
    intros Hkey. unfold casesReadyForDecoding in Hready.
    rewrite forallb_forall in Hready. specialize (Hready elt Hin).
    rewrite Hkey in Hready. simpl in Hready.
    destruct (evaluatedCodingKeysEnum
                (Nominal s) (caseCodingKeysIdentifier elt)) as [cck|];
      [|discriminate].
    now exists cck. }
  simpl svd_name. rewrite Hrun. simpl.
  exists (concat yss). split; [reflexivity|].
  now apply Forall2_filter_concat.
Qed.

Lemma decodedCase_label target codingKeysEnum elt c :
  decodedCase target codingKeysEnum elt c ->
  case_label c =
    OptionalSomePattern
      (EnumElementPattern (DeclaredType (enum_name codingKeysEnum))
                          (elt_name elt) None).
Proof. intros (cck & args & _ & _ & _ & ->). reflexivity. Qed.

(** The switch picks the branch of the first case whose name is the key. *)
Lemma dispatch_selects_matching_case target codingKeysEnum key elts cases :
  Forall2 (decodedCase target codingKeysEnum) elts cases ->
  (exists elt, In elt elts /\ elt_name elt = key) ->
  exists c elt,
    find (fun c => matchesCaseLabel (case_label c) (Some key)) cases = Some c
    /\ In elt elts /\ elt_name elt = key
    /\ decodedCase target codingKeysEnum elt c.
Proof.
  induction 1 as [|x y xs ys Hxy _ IH]; intros (elt & Hin & Hname);
    [destruct Hin|].
  simpl. rewrite (decodedCase_label _ _ _ _ Hxy). simpl.
  destruct (String.eqb (elt_name x) key) eqn:E.
  - apply String.eqb_eq in E. exists y, x.
    split; [reflexivity|]. split; [now left|]. split; [exact E|exact Hxy].
  - destruct Hin as [->|Hin].
    + rewrite Hname, String.eqb_refl in E. discriminate.
    + destruct IH as (c & elt' & Hfind & Hin' & Hname' & Hc);
        [now exists elt|].
      exists c, elt'.
      split; [exact Hfind|]. split; [now right|]. split; [exact Hname'|exact Hc].
Qed.

(** C1 (as amended). For an enum whose key enumeration has at least one
    case, the synthesised [init(from:)] first binds the keyed container
    obtained from the decoder and then guards on
    [container.allKeys.count == 1]: run with a container whose number of
    keys is not exactly one, it throws [DecodingError.typeMismatch] for the
    enum type with a context carrying the container's coding path and the
    fixed message ["Invalid number of keys found, expected one."]; run with
    exactly one key that names a case of the enum having a key, the switch
    on [container.allKeys.first] selects the branch built for a case of
    that name, which assigns that case to [self]. *)
Theorem C1_exactly_one_key_guard_and_dispatch :
  forall (s : SemaState) (codingKeysEnum : EnumDecl),
    evaluatedCodingKeysEnum (Nominal s) Id_CodingKeys = Some codingKeysEnum ->
    hasCases codingKeysEnum = true ->
    casesReadyForDecoding (Nominal s) codingKeysEnum = true ->
    exists (stmts : list ASTNode) (decl : ASTNode) (subject : Expr)
           (cases : list CaseStmt),
      deriveBodyDecodable_enum_init s = Returned stmts s
      /\ stmts =
           [N_PatternBinding
              (NamedPattern "container")
              (TryExpr
                 (CallExpr
                    (UnresolvedDotExpr (DeclRefExpr "decoder" Ordinary)
                                       "container" (Some ["keyedBy"]))
                    [DotSelfExpr
                       (TypeExpr (DeclaredType (enum_name codingKeysEnum)))]
                    ["keyedBy"]));
            decl;
            spec_exactlyOneKeyGuard
              (nominal_name (Nominal s))
              "Invalid number of keys found, expected one.";
            N_Switch subject cases]
      /\ (forall allKeys : list Identifier,
             length allKeys <> 1 ->
             execInit allKeys stmts =
               Throws (spec_typeMismatchError
                         (nominal_name (Nominal s))
                         "Invalid number of keys found, expected one."))
      /\ (forall key : Identifier,
             (exists elt, In elt (getAllElements (Nominal s))
                          /\ elt_name elt = key
                          /\ hasCodingKey codingKeysEnum elt = true) ->
             exists c elt,
               execInit [key] stmts = Selects c
               /\ In c cases
               /\ In elt (getAllElements (Nominal s))
               /\ elt_name elt = key
               /\ decodedCase (Nominal s) codingKeysEnum elt c).
Proof.
  intros s ck Hck Hcases Hready.
  destruct (deriveBodyDecodable_enum_init_spec s ck Hck Hcases Hready)
    as (cases & Hrun & HF).
  eexists. do 2 eexists. exists cases.
  split; [exact Hrun|]. split; [reflexivity|]. split.
  - intros allKeys Hlen. simpl.
    destruct (Nat.eqb (length allKeys) 1) eqn:E; [|reflexivity].
    apply Nat.eqb_eq in E. contradiction.
  - intros key (elt & Hin & Hname & Hkey).
    destruct (dispatch_selects_matching_case
                (Nominal s) ck key _ _ HF) as (c & elt' & Hfind & Hin' & Hn & Hc).
    { exists elt. split; [|exact Hname]. apply filter_In. now split. }
    exists c, elt'. simpl. rewrite Hfind.
    apply filter_In in Hin'. destruct Hin' as [Hin' _].
    apply find_some in Hfind. destruct Hfind as [Hc_in _].
    repeat split; assumption.
Qed.

Lemma C1_exactly_one_key_guard_and_dispatch_witness :
  evaluatedCodingKeysEnum ex_Command_keyed Id_CodingKeys =
    Some {| enum_name := Id_CodingKeys; enum_elements := ["load"; "store"];
            enum_isImplicit := false |}
  /\ casesReadyForDecoding
       ex_Command_keyed
       {| enum_name := Id_CodingKeys; enum_elements := ["load"; "store"];
          enum_isImplicit := false |} = true
  /\ exists (stmts : list ASTNode) (c : CaseStmt),
       deriveBodyDecodable_enum_init (initialState ex_Command_keyed) =
         Returned stmts (initialState ex_Command_keyed)
       /\ execInit ["load"; "store"] stmts =
            Throws (spec_typeMismatchError
                      "Command" "Invalid number of keys found, expected one.")
       /\ execInit ["store"] stmts = Selects c
       /\ case_label c =
            OptionalSomePattern
              (EnumElementPattern (DeclaredType "CodingKeys") "store" None).
Proof.
  split; [reflexivity|]. split; [reflexivity|].
  destruct (C1_exactly_one_key_guard_and_dispatch
              (initialState ex_Command_keyed)
              {| enum_name := Id_CodingKeys; enum_elements := ["load"; "store"];
                 enum_isImplicit := false |} eq_refl eq_refl eq_refl)
    as (stmts & decl & subject & cases & Hrun & _ & Hthrow & Hselect).
  destruct (Hselect "store"
              (ex_intro _ {| elt_name := "store";
                             elt_params :=
                               Some [payload "key" String_ty None;
                                     payload "retries" Int_ty
                                             (Some (IntegerLiteralExpr 3))] |}
                        (conj (or_intror (or_introl eq_refl))
                              (conj eq_refl eq_refl))))
    as (c & elt & Hsel & _ & _ & Hname & Hc).
  exists stmts, c. split; [exact Hrun|].
  split; [apply (Hthrow ["load"; "store"]); discriminate|].
  split; [exact Hsel|].
  rewrite (decodedCase_label _ _ _ _ Hc), Hname. reflexivity.
Defined.

(** C1 as stated fails on the text of the message: the error thrown for a
    container without keys does not carry the debug message
    ["invalid number of keys found, expected one"]. *)
Lemma C1_message_differs_from_quoted_text :
  exists (stmts : list ASTNode) (error : Expr),
    deriveBodyDecodable_enum_init (initialState ex_Command_keyed) =
      Returned stmts (initialState ex_Command_keyed)
    /\ execInit [] stmts = Throws error
    /\ thrownDebugMessage (N_Throw error) =
         Some "Invalid number of keys found, expected one."
    /\ thrownDebugMessage (N_Throw error) <>
         Some "invalid number of keys found, expected one".
Proof.
  do 2 eexists. split; [reflexivity|]. split; [reflexivity|].
  split; [reflexivity|discriminate].
Qed.

(** ** From a successful [canSynthesize] to the decode body of an enum *)

Lemma bind_inv {A B} (m : Sema A) (k : A -> Sema B) s b s' :
  bind m k s = Returned b s' ->
  exists a s1, m s = Returned a s1 /\ k a s1 = Returned b s'.
Proof.
  unfold bind. destruct (m s) as [a s1|t]; [|discriminate].
  intros H. now exists a, s1.
Qed.

Lemma ret_inv {A} (a b : A) s s' : ret a s = Returned b s' -> a = b /\ s = s'.
Proof. unfold ret. now intros [= -> ->]. Qed.

Lemma preservesNominal_ret {A} (a : A) : preservesNominal (ret a).
Proof. intros s b s' H. apply ret_inv in H. destruct H as [_ <-]. reflexivity. Qed.

Lemma preservesNominal_diagnose d : preservesNominal (diagnose d).
Proof. intros s b s' [= _ <-]. reflexivity. Qed.

Lemma preservesNominal_trap {A} t : preservesNominal (@trap A t).
Proof. intros s b s' H. discriminate. Qed.

Lemma preservesNominal_bind {A B} (m : Sema A) (k : A -> Sema B) :
  preservesNominal m -> (forall a, preservesNominal (k a)) ->
  preservesNominal (bind m k).
Proof.
  intros Hm Hk s b s' H. apply bind_inv in H.
  destruct H as (a & s1 & H1 & H2).
  rewrite (Hk _ _ _ _ H2). exact (Hm _ _ _ H1).
Qed.

Lemma preservesNominal_forEach {A S} (xs : list A) (body : A -> S -> Sema S) :
  (forall x acc, preservesNominal (body x acc)) ->
  forall acc, preservesNominal (forEach xs body acc).
Proof.
  intros Hbody. induction xs as [|x xs IH]; intros acc.
  - apply preservesNominal_ret.
  - simpl. apply preservesNominal_bind; [apply Hbody|]. intros a. apply IH.
Qed.

(** The recurring shape [diagnose d ;; ret x]. *)
Ltac preserves_diagnose_ret :=
  apply preservesNominal_bind;
  [apply preservesNominal_diagnose | intros; apply preservesNominal_ret].

Lemma preservesNominal_validateCodingKeysType proto td :
  preservesNominal (validateCodingKeysType proto td).
Proof.
  unfold validateCodingKeysType.
  destruct (conformsToCodingKey td); simpl.
  - destruct (getAnyNominal td) as [[e|name]|].
    + apply preservesNominal_ret.
    + preserves_diagnose_ret.
    + apply preservesNominal_trap.
  - preserves_diagnose_ret.
Qed.

Lemma preservesNominal_validateCodingKeysEnum_case proto elt acc :
  preservesNominal (validateCodingKeysEnum_case proto elt acc).
Proof.
  destruct acc as [vd valid]. unfold validateCodingKeysEnum_case.
  destruct (MapVector_find vd elt) as [v|].
  - destruct (negb (conformsToProtocol (var_type v) proto)).
    + preserves_diagnose_ret.
    + apply preservesNominal_ret.
  - preserves_diagnose_ret.
Qed.

Lemma preservesNominal_validateCodingKeysEnum_varDecls proto vd td :
  preservesNominal (validateCodingKeysEnum_varDecls proto vd td).
Proof.
  unfold validateCodingKeysEnum_varDecls.
  apply preservesNominal_bind; [apply preservesNominal_validateCodingKeysType|].
  intros [ck|]; [|apply preservesNominal_ret].
  apply preservesNominal_bind.
  - apply preservesNominal_forEach. intros.
    apply preservesNominal_validateCodingKeysEnum_case.
  - intros [vd' valid]. destruct (negb valid); [apply preservesNominal_ret|].
    destruct (isSpecificProtocol proto Decodable); [|apply preservesNominal_ret].
    apply preservesNominal_forEach. intros e acc s a s' H.
    rewrite validateCodingKeysEnum_remaining_step in H.
    destruct (isDefaultable (snd e)); now injection H as _ <-.
Qed.

Lemma validateCodingKeysType_Some_inv proto td s e s' :
  validateCodingKeysType proto td s = Returned (Some e) s' ->
  getAnyNominal td = Some (EnumNominal e).
Proof.
  unfold validateCodingKeysType.
  destruct (conformsToCodingKey td); simpl.
  - destruct (getAnyNominal td) as [[e0|name]|]; try discriminate.
    now intros [= -> _].
  - discriminate.
Qed.

(** A first loop that ends valid has matched every key. *)
Lemma validateCodingKeysEnum_case_loop_true proto keys :
  forall vd valid s vd' s',
    forEach keys (validateCodingKeysEnum_case proto) (vd, valid) s =
      Returned (vd', true) s' ->
    valid = true /\ keysAllMatched proto vd keys = true.
Proof.
  induction keys as [|k keys IH]; intros vd valid s vd' s' H.
  - rewrite forEach_nil in H. injection H as _ -> _. auto.
  - rewrite forEach_cons in H. simpl.
    destruct (MapVector_find vd k) as [v|] eqn:Hfind.
    + destruct (conformsToProtocol (var_type v) proto) eqn:Hconf.
      * rewrite (validateCodingKeysEnum_case_matched _ _ _ _ _ _ Hfind Hconf) in H.
        apply IH in H. destruct H as [-> ->]. auto.
      * rewrite (validateCodingKeysEnum_case_nonconforming
                   _ _ _ _ _ _ Hfind Hconf) in H.
        apply IH in H. destruct H as [H _]. discriminate.
    + rewrite (validateCodingKeysEnum_case_extraneous _ _ _ _ _ Hfind) in H.
      apply IH in H. destruct H as [H _]. discriminate.
Qed.

(** What a successful [Decodable] validation against a map of members
    establishes. *)
Lemma validateCodingKeysEnum_varDecls_true vd td s s' :
  validateCodingKeysEnum_varDecls Decodable vd td s = Returned true s' ->
  exists ck,
    getAnyNominal td = Some (EnumNominal ck)
    /\ keysAllMatched Decodable vd (enum_elements ck) = true
    /\ forallb (fun e => isDefaultable (snd e))
               (unmatchedMembers vd (enum_elements ck)) = true.
Proof.
  unfold validateCodingKeysEnum_varDecls. intros H.
  apply bind_inv in H. destruct H as ([ck|] & s1 & Htype & H);
    [|apply ret_inv in H; destruct H; discriminate].
  exists ck. split; [exact (validateCodingKeysType_Some_inv _ _ _ _ _ Htype)|].
  apply bind_inv in H. destruct H as ([vd' valid] & s2 & Hloop & H).
  destruct valid; simpl in H;
    [|apply ret_inv in H; destruct H; discriminate].
  apply validateCodingKeysEnum_case_loop_true in Hloop as Hkeys.
  destruct Hkeys as [_ Hkeys]. split; [exact Hkeys|].
  rewrite (validateCodingKeysEnum_case_loop_matched _ _ _ _ _ Hkeys) in Hloop.
  injection Hloop as <- <-.
  rewrite validateCodingKeysEnum_remaining_loop in H.
  now injection H as -> _.
Qed.

Lemma withKeyEnums_nil n : withKeyEnums n [] = n.
Proof. destruct n; unfold withKeyEnums; simpl. now rewrite app_nil_r. Qed.

Lemma withKeyEnums_app n a b :
  withKeyEnums (withKeyEnums n a) b = withKeyEnums n (a ++ b).
Proof. unfold withKeyEnums; simpl. now rewrite map_app, app_assoc. Qed.

Lemma addMember_withKeyEnums n e :
  NominalTypeDecl_addMember n (EnumDecl_asMember e) = withKeyEnums n [e].
Proof. reflexivity. Qed.

Lemma getAllElements_withKeyEnums n added :
  getAllElements (withKeyEnums n added) = getAllElements n.
Proof.
  unfold getAllElements, withKeyEnums; simpl. rewrite flat_map_app.
  assert (H : flat_map (fun d => match d with
                                 | VD_EnumElement e => [e]
                                 | _ => []
                                 end) (map EnumDecl_asMember added) = []).
  { induction added as [|e added IH]; [reflexivity|exact IH]. }
  rewrite H. apply app_nil_r.
Qed.

Lemma lookupDirect_withKeyEnums n added identifier :
  lookupDirect (withKeyEnums n added) identifier =
  lookupDirect n identifier
  ++ filter (fun d => String.eqb (ValueDecl_name d) identifier)
            (map EnumDecl_asMember added).
Proof. unfold lookupDirect, withKeyEnums; simpl. apply filter_app. Qed.

Lemma evaluatedCodingKeysEnum_withKeyEnums n added identifier e :
  evaluatedCodingKeysEnum n identifier = Some e ->
  evaluatedCodingKeysEnum (withKeyEnums n added) identifier = Some e.
Proof.
  unfold evaluatedCodingKeysEnum. rewrite lookupDirect_withKeyEnums.
  destruct (lookupDirect n identifier) as [|d rest]; [discriminate|].
  simpl. auto.
Qed.

Lemma evaluatedCodingKeysEnum_added n e :
  lookupDirect n (enum_name e) = [] ->
  evaluatedCodingKeysEnum (withKeyEnums n [e]) (enum_name e) = Some e.
Proof.
  intros H. unfold evaluatedCodingKeysEnum.
  rewrite lookupDirect_withKeyEnums, H. simpl.
  now rewrite String.eqb_refl.
Qed.

Lemma fold_EnumDecl_addMember_name {A} (f : A -> Identifier) (xs : list A) :
  forall e,
    enum_name (fold_left (fun e x => EnumDecl_addMember e (f x)) xs e) =
    enum_name e.
Proof.
  induction xs as [|x xs IH]; intros e; simpl; [reflexivity|].
  now rewrite IH.
Qed.

(** *** The map of payload slots by coding name *)

Lemma MapVector_find_set_same m k v :
  MapVector_find (MapVector_set m k v) k = Some v.
Proof.
  induction m as [|[k0 v0] m IH]; simpl.
  - now rewrite String.eqb_refl.
  - destruct (String.eqb k0 k) eqn:E; simpl; rewrite E; [reflexivity|exact IH].
Qed.

Lemma MapVector_find_set_other m k v k' :
  k <> k' -> MapVector_find (MapVector_set m k v) k' = MapVector_find m k'.
Proof.
  intros Hne. induction m as [|[k0 v0] m IH]; simpl.
  - destruct (String.eqb k k') eqn:E; [|reflexivity].
    apply String.eqb_eq in E. contradiction.
  - destruct (String.eqb k0 k) eqn:E; simpl.
    + apply String.eqb_eq in E. subst k0.
      destruct (String.eqb k k') eqn:E'; [|reflexivity].
      apply String.eqb_eq in E'. contradiction.
    + destruct (String.eqb k0 k'); [reflexivity|exact IH].
Qed.

Lemma MapVector_find_erase_other m k k' :
  k <> k' -> MapVector_find (MapVector_erase m k) k' = MapVector_find m k'.
Proof.
  intros Hne. induction m as [|[k0 v0] m IH]; simpl; [reflexivity|].
  destruct (String.eqb k0 k) eqn:E.
  - apply String.eqb_eq in E. subst k0.
    destruct (String.eqb k k') eqn:E'; [|reflexivity].
    apply String.eqb_eq in E'. contradiction.
  - simpl. destruct (String.eqb k0 k'); [reflexivity|exact IH].
Qed.

Lemma MapVector_find_In m k v :
  MapVector_find m k = Some v -> In (k, v) m.
Proof.
  induction m as [|[k0 v0] m IH]; simpl; [discriminate|].
  destruct (String.eqb k0 k) eqn:E.
  - apply String.eqb_eq in E. subst k0. intros [= ->]. now left.
  - intros H. right. now apply IH.
Qed.

Lemma MapVector_find_unmatchedMembers keys :
  forall m k,
    ~ In k keys ->
    MapVector_find (unmatchedMembers m keys) k = MapVector_find m k.
Proof.
  unfold unmatchedMembers.
  induction keys as [|k0 keys IH]; intros m k Hnin; simpl; [reflexivity|].
  rewrite IH by (intros H; apply Hnin; now right).
  apply MapVector_find_erase_other. intros ->. apply Hnin. now left.
Qed.

Lemma caseParameters_fold_other entries :
  forall m k,
    ~ In k (map slotCodingName entries) ->
    MapVector_find
      (fold_left (fun properties entry =>
                    if negb (param_isUserAccessible (snd entry)) then properties
                    else MapVector_set properties
                           (paramCodingIdentifier (fst entry) (snd entry))
                           (ParamDecl_asVarDecl (snd entry)))
                 entries m) k =
    MapVector_find m k.
Proof.
  induction entries as [|e entries IH]; intros m k Hnin; simpl; [reflexivity|].
  rewrite IH by (intros H; apply Hnin; now right).
  destruct (negb (param_isUserAccessible (snd e))); [reflexivity|].
  apply MapVector_find_set_other. intros Heq. apply Hnin. now left.
Qed.

Lemma caseParameters_fold_find entries :
  forall m entry,
    NoDup (map slotCodingName entries) ->
    forallb (fun e => param_isUserAccessible (snd e)) entries = true ->
    In entry entries ->
    MapVector_find
      (fold_left (fun properties entry =>
                    if negb (param_isUserAccessible (snd entry)) then properties
                    else MapVector_set properties
                           (paramCodingIdentifier (fst entry) (snd entry))
                           (ParamDecl_asVarDecl (snd entry)))
                 entries m) (slotCodingName entry) =
    Some (ParamDecl_asVarDecl (snd entry)).
Proof.
  induction entries as [|e entries IH]; intros m entry Hnd Hacc Hin;
    [destruct Hin|].
  simpl in Hacc. apply andb_prop in Hacc. destruct Hacc as [Hacc_e Hacc].
  inversion Hnd as [|? ? Hnotin Hnd']; subst.
  simpl. rewrite Hacc_e. simpl.
  destruct Hin as [->|Hin].
  - rewrite caseParameters_fold_other by exact Hnotin.
    apply MapVector_find_set_same.
  - now apply IH.
Qed.

(** *** The duplicate check on payload slots *)

Lemma ParamMap_find_app_None m k v k' :
  ParamMap_find (m ++ [(k, v)]) k' = None ->
  ParamMap_find m k' = None /\ k <> k'.
Proof.
  induction m as [|[k0 v0] m IH]; simpl.
  - destruct (String.eqb k k') eqn:E; [discriminate|].
    intros _. split; [reflexivity|]. intros ->.
    rewrite String.eqb_refl in E. discriminate.
  - destruct (String.eqb k0 k'); [discriminate|exact IH].
Qed.

Lemma preservesNominal_canSynthesize_param derived elt entry acc :
  preservesNominal (canSynthesize_param derived elt entry acc).
Proof.
  destruct acc as [params valid]. unfold canSynthesize_param.
  destruct (ParamMap_find params _).
  - preserves_diagnose_ret.
  - apply preservesNominal_ret.
Qed.

(** A duplicate check that ends valid has seen pairwise distinct coding
    names. *)
Lemma canSynthesize_param_loop_true derived elt entries :
  forall params valid s params' s',
    forEach entries (canSynthesize_param derived elt) (params, valid) s =
      Returned (params', true) s' ->
    valid = true
    /\ NoDup (map slotCodingName entries)
    /\ (forall e, In e entries -> ParamMap_find params (slotCodingName e) = None).
Proof.
  induction entries as [|e entries IH]; intros params valid s params' s' H.
  - rewrite forEach_nil in H. injection H as _ -> _.
    repeat split; [constructor|intros e []].
  - rewrite forEach_cons in H.
    unfold canSynthesize_param at 1 in H. fold (slotCodingName e) in H.
    destruct (ParamMap_find params (slotCodingName e)) as [p|] eqn:Hfind.
    + unfold bind, ret in H. rewrite diagnose_emit in H.
      apply IH in H. destruct H as [H _]. discriminate.
    + unfold ret in H. apply IH in H. destruct H as (-> & Hnd & Hnone).
      split; [reflexivity|]. split.
      * simpl. constructor; [|exact Hnd].
        intros Hin. apply in_map_iff in Hin. destruct Hin as (e' & Heq & Hin).
        apply Hnone in Hin. apply ParamMap_find_app_None in Hin.
        destruct Hin as [_ Hne]. congruence.
      * intros e' [<-|Hin]; [exact Hfind|].
        apply Hnone in Hin. now apply ParamMap_find_app_None in Hin.
Qed.

(** *** Validation of the key enumeration of one case *)

Lemma isDefaultable_ParamDecl p :
  isDefaultable (ParamDecl_asVarDecl p) = hasDefaultExpr p.
Proof.
  unfold isDefaultable, hasDefaultExpr, isParentInitialized,
    getParentPatternBinding, dyn_cast_ParamDecl. simpl.
  now destruct (param_defaultExpr p).
Qed.

(** Once the slots of a case have been validated for [Decodable] against
    its key enumeration, every slot has a key or a default expression. *)
Lemma validated_slots_have_key_or_default elt cck :
  NoDup (map slotCodingName (enumerate (getParameterList elt))) ->
  forallb param_isUserAccessible (getParameterList elt) = true ->
  forallb (fun e => isDefaultable (snd e))
          (unmatchedMembers (caseParametersByName elt) (enum_elements cck))
    = true ->
  forallb (slotHasKeyOrDefault cck) (enumerate (getParameterList elt)) = true.
Proof.
  intros Hnd Hacc Hdef. apply forallb_forall. intros entry Hin.
  unfold slotHasKeyOrDefault. fold (slotCodingName entry).
  destruct (lookupEnumCase cck (slotCodingName entry)) eqn:Hkey; [reflexivity|].
  apply lookupEnumCase_None in Hkey.
  assert (Hacc' : forallb (fun e : nat * ParamDecl =>
                             param_isUserAccessible (snd e))
                          (enumerate (getParameterList elt)) = true).
  { apply forallb_forall. intros [i p] Hip. simpl.
    apply enumerate_In in Hip. apply nth_error_In in Hip.
    rewrite forallb_forall in Hacc. now apply Hacc. }
  assert (Hfind : MapVector_find (caseParametersByName elt)
                                 (slotCodingName entry) =
                  Some (ParamDecl_asVarDecl (snd entry))).
  { unfold caseParametersByName, hasAssociatedValues, getParameterList in *.
    destruct (elt_params elt) as [ps|]; [|destruct Hin].
    now apply caseParameters_fold_find. }
  rewrite <- (MapVector_find_unmatchedMembers
                (enum_elements cck) (caseParametersByName elt) _ Hkey) in Hfind.
  apply MapVector_find_In in Hfind.
  rewrite forallb_forall in Hdef. specialize (Hdef _ Hfind). simpl in Hdef.
  now rewrite isDefaultable_ParamDecl in Hdef.
Qed.

Lemma addImplicitCaseCodingKeys_Some elt ck s e s' :
  addImplicitCaseCodingKeys elt ck s = Returned (Some e) s' ->
  enum_name e = caseCodingKeysIdentifier elt
  /\ s' = {| Nominal := withKeyEnums (Nominal s) [e]; Diags := Diags s |}.
Proof.
  unfold addImplicitCaseCodingKeys.
  destruct (lookupEnumCase ck (elt_name elt)); [|discriminate].
  unfold bind, addMember, ret. intros [= <- <-]. split; [|reflexivity].
  destruct (hasAssociatedValues elt); [|reflexivity].
  apply (fold_EnumDecl_addMember_name
           (fun entry : nat * ParamDecl =>
              paramCodingIdentifier (fst entry) (snd entry))).
Qed.

Lemma length_le_1 {A} (l : list A) :
  (1 <? length l)%nat = false -> l = [] \/ exists x, l = [x].
Proof.
  destruct l as [|x [|y l]]; simpl; intros H; [now left|right; now exists x|].
  discriminate.
Qed.

(** What a successful validation of the key enumeration of a case leaves
    behind: the type has only grown by key enumerations, the per-case key
    enumeration can be evaluated, and the map of slots validated against
    it. *)
Lemma validateCaseCodingKeysEnum_true elt s s' ck :
  evaluatedCodingKeysEnum (Nominal s) Id_CodingKeys = Some ck ->
  validateCaseCodingKeysEnum Decodable elt s = Returned true s' ->
  exists added cck,
    Nominal s' = withKeyEnums (Nominal s) added
    /\ evaluatedCodingKeysEnum (Nominal s') (caseCodingKeysIdentifier elt) =
         Some cck
    /\ forallb (fun e => isDefaultable (snd e))
               (unmatchedMembers (caseParametersByName elt) (enum_elements cck))
       = true.
Proof.
  intros Hck H. unfold validateCaseCodingKeysEnum in H.
  unfold bind at 1, getNominal in H.
  destruct (negb (isa_EnumDecl (Nominal s)));
    [apply ret_inv in H; destruct H; discriminate|].
  unfold bind at 1 in H.
  rewrite (lookupEvaluatedCodingKeysEnum_view _ _ _ _ Hck) in H.
  destruct (1 <? length (lookupDirect (Nominal s) (caseCodingKeysIdentifier elt)))%nat
    eqn:Hlen; [apply ret_inv in H; destruct H; discriminate|].
  apply length_le_1 in Hlen. destruct Hlen as [Hnil|(front & Hone)].
  - rewrite Hnil in H. apply bind_inv in H.
    destruct H as (result & s1 & Hadd & H).
    apply bind_inv in Hadd. destruct Hadd as (e & s2 & Hadd & Hret).
    apply ret_inv in Hret. destruct Hret as [<- <-].
    destruct e as [e|]; simpl in H; [|discriminate].
    apply addImplicitCaseCodingKeys_Some in Hadd. destruct Hadd as [Hname ->].
    pose proof (preservesNominal_validateCodingKeysEnum_varDecls
                  _ _ _ _ _ _ H) as Hnom. simpl in Hnom.
    apply validateCodingKeysEnum_varDecls_true in H.
    destruct H as (cck & Hany & _ & Hdef). simpl in Hany.
    injection Hany as <-.
    exists [e], e. split; [exact Hnom|]. split; [|exact Hdef].
    rewrite Hnom, <- Hname. apply evaluatedCodingKeysEnum_added.
    now rewrite Hname.
  - rewrite Hone in H. apply bind_inv in H.
    destruct H as (result & s1 & Hret & H).
    apply ret_inv in Hret. destruct Hret as [<- <-].
    destruct front as [v b|e|td|f];
      try (apply bind_inv in H; destruct H as (? & ? & _ & H);
           apply ret_inv in H; destruct H; discriminate).
    pose proof (preservesNominal_validateCodingKeysEnum_varDecls
                  _ _ _ _ _ _ H) as Hnom.
    apply validateCodingKeysEnum_varDecls_true in H.
    destruct H as (cck & Hany & _ & Hdef).
    exists [], cck. rewrite withKeyEnums_nil. split; [exact Hnom|].
    split; [|exact Hdef].
    rewrite Hnom. unfold evaluatedCodingKeysEnum. now rewrite Hone, Hany.
Qed.

(** *** The loop of [canSynthesize] over the cases *)

Section DecodableEnum.

(** The conformance being derived is [Decodable]. *)
Variable derived : DerivedConformance.
Hypothesis Hproto : Protocol derived = Decodable.

Lemma canSynthesize_params_stage elt valid s valid' s' :
  (if hasAssociatedValues elt then
     '(_, allValid) <-
       forEach (enumerate (getParameterList elt))
               (canSynthesize_param derived elt) ([], valid) ;;
     ret allValid
   else ret valid) s = Returned valid' s' ->
  Nominal s' = Nominal s
  /\ (valid' = true ->
      valid = true
      /\ NoDup (map slotCodingName (enumerate (getParameterList elt)))).
Proof.
  unfold hasAssociatedValues, getParameterList.
  destruct (elt_params elt) as [ps|].
  - intros H. apply bind_inv in H.
    destruct H as ([params allValid] & s1 & Hloop & Hret).
    apply ret_inv in Hret. destruct Hret as [-> ->].
    split.
    + exact (preservesNominal_forEach
               _ _ (preservesNominal_canSynthesize_param derived elt)
               _ _ _ _ Hloop).
    + intros ->. apply canSynthesize_param_loop_true in Hloop.
      destruct Hloop as (Hv & Hnd & _). auto.
  - intros H. apply ret_inv in H. destruct H as [-> ->].
    split; [reflexivity|]. intros ->. split; [reflexivity|constructor].
Qed.

Lemma caseValidatedForDecoding_withKeyEnums n added elt :
  caseValidatedForDecoding n elt = true ->
  caseValidatedForDecoding (withKeyEnums n added) elt = true.
Proof.
  unfold caseValidatedForDecoding.
  destruct (evaluatedCodingKeysEnum n (caseCodingKeysIdentifier elt))
    as [cck|] eqn:E; [|discriminate].
  now rewrite (evaluatedCodingKeysEnum_withKeyEnums _ added _ _ E).
Qed.

(** The flag of the loop over the cases is never set back to valid. *)
Lemma canSynthesize_element_valid_inv elt names valid s names' s' :
  canSynthesize_element derived elt (names, valid) s =
    Returned (names', true) s' ->
  valid = true.
Proof.
  intros H. unfold canSynthesize_element in H.
  apply bind_inv in H. destruct H as ([names1 valid1] & s1 & Hdup & H).
  apply bind_inv in H. destruct H as (valid2 & s2 & Hparams & H).
  apply canSynthesize_params_stage in Hparams.
  destruct Hparams as [_ Hparams].
  assert (Hvalid2 : valid2 = true).
  { destruct (negb (existsb (String.eqb (elt_name elt)) names)).
    - apply bind_inv in H. destruct H as (ok & s3 & _ & H).
      destruct (negb ok); apply ret_inv in H; destruct H as [E _]; congruence.
    - apply ret_inv in H. destruct H as [E _]. congruence. }
  destruct (Hparams Hvalid2) as [-> _].
  destruct (existsb (String.eqb (elt_name elt)) names).
  - apply bind_inv in Hdup. destruct Hdup as (? & ? & _ & Hdup).
    apply ret_inv in Hdup. destruct Hdup as [E _]. congruence.
  - apply ret_inv in Hdup. destruct Hdup as [E _]. congruence.
Qed.

Lemma canSynthesize_element_loop_valid_inv elts :
  forall names valid s names' s',
    forEach elts (canSynthesize_element derived) (names, valid) s =
      Returned (names', true) s' ->
    valid = true.
Proof.
  induction elts as [|elt elts IH]; intros names valid s names' s' H.
  - rewrite forEach_nil in H. now injection H as _ -> _.
  - rewrite forEach_cons in H.
    destruct (canSynthesize_element derived elt (names, valid) s)
      as [[names1 valid1] s1|] eqn:Hstep; [|discriminate].
    apply IH in H. subst valid1.
    exact (canSynthesize_element_valid_inv _ _ _ _ _ _ Hstep).
Qed.

Lemma canSynthesize_element_true elt names valid s names' s' ck :
  evaluatedCodingKeysEnum (Nominal s) Id_CodingKeys = Some ck ->
  forallb param_isUserAccessible (getParameterList elt) = true ->
  canSynthesize_element derived elt (names, valid) s =
    Returned (names', true) s' ->
  exists added,
    Nominal s' = withKeyEnums (Nominal s) added
    /\ caseValidatedForDecoding (Nominal s') elt = true.
Proof.
  intros Hck Hacc H. unfold canSynthesize_element in H.
  apply bind_inv in H. destruct H as ([names1 valid1] & s1 & Hdup & H).
  apply bind_inv in H. destruct H as (valid2 & s2 & Hparams & H).
  apply canSynthesize_params_stage in Hparams.
  destruct Hparams as [Hnom2 Hparams].
  destruct (existsb (String.eqb (elt_name elt)) names) eqn:Hduplicate.
  - (* a duplicate case name leaves the result invalid *)
    simpl in H. apply ret_inv in H. destruct H as [E _].
    assert (Hvalid2 : valid2 = true) by congruence.
    destruct (Hparams Hvalid2) as [-> _].
    apply bind_inv in Hdup. destruct Hdup as (? & ? & _ & Hdup).
    apply ret_inv in Hdup. destruct Hdup as [E' _]. congruence.
  - simpl in H. apply ret_inv in Hdup. destruct Hdup as [E1 <-].
    apply bind_inv in H. destruct H as (ok & s3 & Hcase & H).
    destruct ok; simpl in H;
      [|apply ret_inv in H; destruct H as [E _]; congruence].
    apply ret_inv in H. destruct H as [E <-].
    assert (Hvalid2 : valid2 = true) by congruence.
    destruct (Hparams Hvalid2) as [_ Hnd].
    rewrite Hproto in Hcase.
    rewrite <- Hnom2 in Hck.
    destruct (validateCaseCodingKeysEnum_true _ _ _ _ Hck Hcase)
      as (added & cck & Hnom3 & Heval & Hdef).
    exists added. rewrite Hnom2 in Hnom3. split; [exact Hnom3|].
    unfold caseValidatedForDecoding. rewrite Heval.
    now apply validated_slots_have_key_or_default.
Qed.

Lemma canSynthesize_element_loop_true ck elts :
  forall names valid s names' s',
    evaluatedCodingKeysEnum (Nominal s) Id_CodingKeys = Some ck ->
    forallb (fun elt => forallb param_isUserAccessible (getParameterList elt))
            elts = true ->
    forEach elts (canSynthesize_element derived) (names, valid) s =
      Returned (names', true) s' ->
    exists added,
      Nominal s' = withKeyEnums (Nominal s) added
      /\ forallb (caseValidatedForDecoding (Nominal s')) elts = true.
Proof.
  induction elts as [|elt elts IH];
    intros names valid s names' s' Hck Hacc H.
  - rewrite forEach_nil in H. injection H as _ _ <-.
    exists []. now rewrite withKeyEnums_nil.
  - simpl in Hacc. apply andb_prop in Hacc. destruct Hacc as [Hacc_e Hacc].
    rewrite forEach_cons in H.
    destruct (canSynthesize_element derived elt (names, valid) s)
      as [[names1 valid1] s1|] eqn:Hstep; [|discriminate].
    pose proof (canSynthesize_element_loop_valid_inv _ _ _ _ _ _ H) as ->.
    destruct (canSynthesize_element_true _ _ _ _ _ _ _ Hck Hacc_e Hstep)
      as (added1 & Hnom1 & Hready1).
    assert (Hck1 : evaluatedCodingKeysEnum (Nominal s1) Id_CodingKeys = Some ck).
    { rewrite Hnom1. now apply evaluatedCodingKeysEnum_withKeyEnums. }
    destruct (IH _ _ _ _ _ Hck1 Hacc H) as (added2 & Hnom2 & Hready2).
    exists (added1 ++ added2).
    split; [now rewrite Hnom2, Hnom1, withKeyEnums_app|].
    simpl. rewrite Hready2, andb_true_r.
    rewrite Hnom2. now apply caseValidatedForDecoding_withKeyEnums.
Qed.

(** *** Validation of the top-level key enumeration of an enum *)

Lemma validateCodingKeysEnum_enum_true_inv proto td s s' :
  validateCodingKeysEnum_enum proto td s = Returned true s' ->
  Nominal s' = Nominal s
  /\ exists ck, getAnyNominal td = Some (EnumNominal ck).
Proof.
  unfold validateCodingKeysEnum_enum. unfold bind at 1, getNominal.
  destruct (negb (isa_EnumDecl (Nominal s)));
    [intros H; apply ret_inv in H; destruct H; discriminate|].
  intros H. apply bind_inv in H. destruct H as ([ck|] & s1 & Htype & H);
    [|apply ret_inv in H; destruct H; discriminate].
  split.
  - rewrite <- (preservesNominal_validateCodingKeysType _ _ _ _ _ Htype).
    revert H. apply preservesNominal_forEach. intros elt valid.
    destruct (negb (existsb (String.eqb elt) _)).
    + preserves_diagnose_ret.
    + apply preservesNominal_ret.
  - exists ck. exact (validateCodingKeysType_Some_inv _ _ _ _ _ Htype).
Qed.

Lemma isa_EnumDecl_withKeyEnums n added :
  isa_EnumDecl (withKeyEnums n added) = isa_EnumDecl n.
Proof. reflexivity. Qed.

Lemma validateCodingKeysEnum_true_on_enum proto s s' :
  isa_EnumDecl (Nominal s) = true ->
  validateCodingKeysEnum proto s = Returned true s' ->
  exists added ck,
    Nominal s' = withKeyEnums (Nominal s) added
    /\ evaluatedCodingKeysEnum (Nominal s') Id_CodingKeys = Some ck.
Proof.
  intros Henum H. unfold validateCodingKeysEnum in H.
  unfold bind at 1, getNominal in H.
  destruct (1 <? length (lookupDirect (Nominal s) Id_CodingKeys))%nat eqn:Hlen;
    [apply ret_inv in H; destruct H; discriminate|].
  apply length_le_1 in Hlen. destruct Hlen as [Hnil|(front & Hone)].
  - rewrite Hnil, Henum in H.
    apply bind_inv in H. destruct H as (result & s1 & Hadd & H).
    apply bind_inv in Hadd. destruct Hadd as (e & s2 & Hadd & Hret).
    apply ret_inv in Hret. destruct Hret as [<- <-].
    unfold addImplicitCodingKeys, bind, getNominal in Hadd.
    rewrite Henum in Hadd.
    unfold addImplicitCodingKeys_enum, bind, getNominal, addMember, ret in Hadd.
    injection Hadd as <- <-. simpl in H.
    apply validateCodingKeysEnum_enum_true_inv in H. destruct H as [Hnom _].
    simpl in Hnom. rewrite addMember_withKeyEnums in Hnom.
    eexists [_], _. split; [exact Hnom|]. rewrite Hnom.
    match goal with
    | |- evaluatedCodingKeysEnum (withKeyEnums _ [?e]) _ = _ =>
        assert (Hname : enum_name e = Id_CodingKeys)
          by apply (fold_EnumDecl_addMember_name elt_name);
        pose proof (evaluatedCodingKeysEnum_added (Nominal s) e) as Hev
    end.
    rewrite Hname in Hev. exact (Hev Hnil).
  - rewrite Hone, Henum in H.
    apply bind_inv in H. destruct H as (result & s1 & Hret & H).
    apply ret_inv in Hret. destruct Hret as [<- <-].
    destruct front as [v b|e|td|f];
      try (apply bind_inv in H; destruct H as (? & ? & _ & H);
           apply ret_inv in H; destruct H; discriminate).
    apply validateCodingKeysEnum_enum_true_inv in H.
    destruct H as (Hnom & ck & Hany).
    exists [], ck. rewrite withKeyEnums_nil. split; [exact Hnom|].
    rewrite Hnom. unfold evaluatedCodingKeysEnum. now rewrite Hone, Hany.
Qed.

(** A successful [canSynthesize] of [Decodable] on an enum leaves the type
    with an evaluated [CodingKeys] and every case ready to be decoded. *)
Lemma canSynthesize_true_on_enum requirement s0 s1 :
  isa_EnumDecl (Nominal s0) = true ->
  payloadSlotsAccessible (Nominal s0) = true ->
  canSynthesize derived requirement s0 = Returned true s1 ->
  exists ck,
    evaluatedCodingKeysEnum (Nominal s1) Id_CodingKeys = Some ck
    /\ casesReadyForDecoding (Nominal s1) ck = true.
Proof.
  intros Henum Hacc H. unfold canSynthesize in H.
  apply bind_inv in H. destruct H as (superOk & sA & Hsuper & H).
  assert (HsA : superOk = true /\ sA = s0).
  { unfold canSynthesize_superInit, bind, getNominal, dyn_cast_ClassDecl in Hsuper.
    unfold isa_EnumDecl in Henum.
    destruct (nominal_kind (Nominal s0)); try discriminate.
    apply ret_inv in Hsuper. destruct Hsuper. auto. }
  destruct HsA as [-> ->]. simpl in H.
  apply bind_inv in H. destruct H as (valid & sB & Hvalid & H).
  destruct valid; simpl in H;
    [|apply ret_inv in H; destruct H; discriminate].
  rewrite Hproto in Hvalid.
  destruct (validateCodingKeysEnum_true_on_enum _ _ _ Henum Hvalid)
    as (added & ck & HnomB & Hck).
  unfold bind at 1, getNominal in H.
  rewrite HnomB, isa_EnumDecl_withKeyEnums, Henum in H.
  rewrite getAllElements_withKeyEnums in H.
  apply bind_inv in H. destruct H as ([names allValid] & sC & Hloop & H).
  apply ret_inv in H. destruct H as [-> <-].
  destruct (canSynthesize_element_loop_true
              ck (getAllElements (Nominal s0))
              _ _ _ _ _ Hck Hacc Hloop) as (added2 & HnomC & Hready).
  exists ck. split.
  - rewrite HnomC. now apply evaluatedCodingKeysEnum_withKeyEnums.
  - unfold casesReadyForDecoding.
    rewrite HnomC, HnomB at 1.
    rewrite !getAllElements_withKeyEnums.
    apply forallb_forall. intros elt Hin.
    rewrite forallb_forall in Hready. specialize (Hready elt Hin).
    unfold caseValidatedForDecoding in Hready. rewrite Hready.
    apply orb_true_r.
Qed.

End DecodableEnum.

(** The whole decode initialiser of an enum whose keyed cases are ready:
    container binding, guard on the number of keys, and the switch with one
    branch per keyed case; nothing at all when [CodingKeys] has no case. *)
Lemma deriveBodyDecodable_enum_init_full s codingKeysEnum :
  evaluatedCodingKeysEnum (Nominal s) Id_CodingKeys = Some codingKeysEnum ->
  casesReadyForDecoding (Nominal s) codingKeysEnum = true ->
  if hasCases codingKeysEnum then
    exists cases : list CaseStmt,
      deriveBodyDecodable_enum_init s =
        Returned
          [N_PatternBinding
             (NamedPattern "container")
             (TryExpr
                (CallExpr
                   (UnresolvedDotExpr (DeclRefExpr "decoder" Ordinary)
                                      "container" (Some ["keyedBy"]))
                   [DotSelfExpr
                      (TypeExpr (DeclaredType (enum_name codingKeysEnum)))]
                   ["keyedBy"]));
           N_VarDecl "container" Let
                     (BoundGenericType
                        "KeyedDecodingContainer"
                        (DeclaredType (enum_name codingKeysEnum)));
           spec_exactlyOneKeyGuard
             (nominal_name (Nominal s))
             "Invalid number of keys found, expected one.";
           N_Switch
             (UnresolvedDotExpr
                (UnresolvedDotExpr (DeclRefExpr "container" DirectToStorage)
                                   "allKeys" None)
                "first" None)
             cases] s
      /\ Forall2 (decodedCase (Nominal s) codingKeysEnum)
                 (filter (hasCodingKey codingKeysEnum)
                         (getAllElements (Nominal s)))
                 cases
  else deriveBodyDecodable_enum_init s = Returned [] s.
Proof.
  intros Hck Hready. destruct (hasCases codingKeysEnum) eqn:Hcases.
  - destruct (deriveBodyDecodable_enum_init_spec s _ Hck Hcases Hready)
      as (cases & Hrun & HF).
    exists cases. split; [exact Hrun|exact HF].
  - unfold deriveBodyDecodable_enum_init, bind, getNominal.
    now rewrite (requireCodingKeysEnum_view _ _ _ Hck), Hcases.
Qed.

(** X23. Once [canSynthesize] has succeeded for [Decodable] on an enum
    all of whose payload slots are user-accessible, every case that has a
    key has a per-case key enumeration in which each payload slot has a key
    or a default expression, and the synthesis of [init(from:)] returns
    without tripping an assertion: after the container binding and the
    guard on the number of keys, the switch holds, for every case that has
    a key, the branch that constructs the case from one argument per
    payload slot, a [decode] call against the nested container of the case
    when the slot has a key in the per-case key enumeration and otherwise
    the declared default expression of the slot. *)
Theorem X23_validated_accessible_slots_decode_or_default :
  forall (derived : DerivedConformance) (requirement : DeclName)
         (s0 s1 : SemaState),
    Protocol derived = Decodable ->
    isa_EnumDecl (Nominal s0) = true ->
    payloadSlotsAccessible (Nominal s0) = true ->
    canSynthesize derived requirement s0 = Returned true s1 ->
    exists codingKeysEnum : EnumDecl,
      evaluatedCodingKeysEnum (Nominal s1) Id_CodingKeys = Some codingKeysEnum
      /\ casesReadyForDecoding (Nominal s1) codingKeysEnum = true
      /\ if hasCases codingKeysEnum then
           exists cases : list CaseStmt,
             deriveBodyDecodable_enum_init s1 =
               Returned
                 [N_PatternBinding
                    (NamedPattern "container")
                    (TryExpr
                       (CallExpr
                          (UnresolvedDotExpr (DeclRefExpr "decoder" Ordinary)
                                             "container" (Some ["keyedBy"]))
                          [DotSelfExpr
                             (TypeExpr
                                (DeclaredType (enum_name codingKeysEnum)))]
                          ["keyedBy"]));
                  N_VarDecl "container" Let
                            (BoundGenericType
                               "KeyedDecodingContainer"
                               (DeclaredType (enum_name codingKeysEnum)));
                  spec_exactlyOneKeyGuard
                    (nominal_name (Nominal s1))
                    "Invalid number of keys found, expected one.";
                  N_Switch
                    (UnresolvedDotExpr
                       (UnresolvedDotExpr
                          (DeclRefExpr "container" DirectToStorage)
                          "allKeys" None)
                       "first" None)
                    cases] s1
             /\ Forall2 (decodedCase (Nominal s1) codingKeysEnum)
                        (filter (hasCodingKey codingKeysEnum)
                                (getAllElements (Nominal s1)))
                        cases
         else deriveBodyDecodable_enum_init s1 = Returned [] s1.
Proof.
  intros derived requirement s0 s1 Hproto Henum Hacc Hcan.
  destruct (canSynthesize_true_on_enum derived Hproto _ _ _ Henum Hacc Hcan)
    as (ck & Hck & Hready).
  exists ck. split; [exact Hck|]. split; [exact Hready|].
  exact (deriveBodyDecodable_enum_init_full s1 ck Hck Hready).
Qed.

Lemma X23_validated_accessible_slots_witness :
  payloadSlotsAccessible ex_Command = true
  /\ canSynthesize derivingDecodable initRequirement (initialState ex_Command) =
       Returned true (initialState ex_Command_keyed)
  /\ exists codingKeysEnum : EnumDecl,
       evaluatedCodingKeysEnum ex_Command_keyed Id_CodingKeys =
         Some codingKeysEnum
       /\ casesReadyForDecoding ex_Command_keyed codingKeysEnum = true.
Proof.
  split; [reflexivity|]. split; [reflexivity|].
  destruct (X23_validated_accessible_slots_decode_or_default
              derivingDecodable initRequirement
              (initialState ex_Command) (initialState ex_Command_keyed)
              eq_refl eq_refl eq_refl eq_refl)
    as (ck & Hck & Hready & _).
  exists ck. split; [exact Hck|exact Hready].
Defined.

(** C9, at an input where the code departs from it.  The second payload
    slot of [Job.run] is not user-accessible, has no key in the declared
    [RunCodingKeys] and has no default expression.  Validation skips a slot
    that is not user-accessible when it builds the map of slots to check,
    so [canSynthesize] succeeds for [Decodable] without a diagnostic; the
    synthesis of [init(from:)] then goes through every payload slot,
    finds no key for that one, and the assertion that the slot has a
    default expression fails. *)
Theorem C9_unkeyed_inaccessible_slot_trips_assertion :
  canSynthesize derivingDecodable initRequirement (initialState ex_Job) =
    Returned true (initialState ex_Job)
  /\ evaluatedCodingKeysEnum ex_Job "RunCodingKeys" =
       Some {| enum_name := "RunCodingKeys"; enum_elements := ["id"];
               enum_isImplicit := false |}
  /\ (exists slot : ParamDecl,
         nth_error (getParameterList
                      {| elt_name := "run";
                         elt_params :=
                           Some [payload "id" Int_ty None;
                                 {| param_name := "$storage";
                                    param_type := Int_ty;
                                    param_isUserAccessible := false;
                                    param_defaultExpr := None |}] |}) 1 =
           Some slot
         /\ param_isUserAccessible slot = false
         /\ lookupEnumCase {| enum_name := "RunCodingKeys";
                              enum_elements := ["id"];
                              enum_isImplicit := false |}
                           (slotCodingName (1, slot)) = None
         /\ hasDefaultExpr slot = false)
  /\ MapVector_find
       (caseParametersByName
          {| elt_name := "run";
             elt_params :=
               Some [payload "id" Int_ty None;
                     {| param_name := "$storage"; param_type := Int_ty;
                        param_isUserAccessible := false;
                        param_defaultExpr := None |}] |})
       "$storage" = None
  /\ deriveBodyDecodable_enum_init (initialState ex_Job) =
       Trapped (AssertionFailed "paramDecl->hasDefaultExpr()").
Proof.
  split; [reflexivity|]. split; [reflexivity|].
  split; [eexists; repeat split|]. split; reflexivity.
Qed.

(* ================================================================== *)
(** * Further properties of the synthesiser *)

(** ** Looking up the member of a key *)

Lemma lookupVarDeclForCodingKeysCase_in_spec decls v ty ifPresent :
  lookupVarDeclForCodingKeysCase_in decls = Some (v, ty, ifPresent) ->
  var_isStatic v = false
  /\ (exists d, In d decls
                /\ (d = VD_Var v None \/ exists w, d = VD_Var w (Some v)))
  /\ (if ifPresent then var_type v = OptionalTy ty
      else var_type v = ty /\ getOptionalObjectType ty = None).
Proof.
  induction decls as [|d decls IH]; [discriminate|].
  assert (Hrest : lookupVarDeclForCodingKeysCase_in decls = Some (v, ty, ifPresent) ->
                  var_isStatic v = false
                  /\ (exists d0, In d0 (d :: decls)
                                 /\ (d0 = VD_Var v None
                                     \/ exists w, d0 = VD_Var w (Some v)))
                  /\ (if ifPresent then var_type v = OptionalTy ty
                      else var_type v = ty /\ getOptionalObjectType ty = None)).
  { intros H. destruct (IH H) as (Hs & (d0 & Hin & Hd0) & Ht).
    split; [exact Hs|]. split; [|exact Ht]. exists d0. split; [now right|exact Hd0]. }
  destruct d as [w backing|e|t|f]; simpl; try exact Hrest.
  set (vd := match backing with Some b => b | None => w end).
  destruct (var_isStatic vd) eqn:Hstatic; simpl; [exact Hrest|].
  assert (Hd : VD_Var w backing = VD_Var vd None
               \/ exists w', VD_Var w backing = VD_Var w' (Some vd)).
  { subst vd. destruct backing; [right; eauto|now left]. }
  destruct (var_type vd) as [name enc dec|obj] eqn:Hty; simpl;
    intros [= <- <- <-].
  - split; [exact Hstatic|]. split; [|rewrite Hty; auto].
    exists (VD_Var w backing). split; [now left|exact Hd].
  - split; [exact Hstatic|]. split; [|exact Hty].
    exists (VD_Var w backing). split; [now left|exact Hd].
Qed.

(** X1. The member a key resolves to is never a static property; it is a
    property of that name found in the type, or the backing property of a
    wrapped one; and the if-present variant is asked for exactly when the
    type of that member is optional, in which case the type handed to
    [decode] is the optional's object type (one level only). *)
Theorem X1_resolved_member_is_instance_and_unwrapped :
  forall (target : NominalTypeDecl) (key : Identifier)
         (v : VarDecl) (ty : Ty) (ifPresent : bool),
    resolvedMember target key = Some (v, ty, ifPresent) ->
    var_isStatic v = false
    /\ (exists d, In d (nominal_members target)
                  /\ ValueDecl_name d = key
                  /\ (d = VD_Var v None \/ exists w, d = VD_Var w (Some v)))
    /\ (ifPresent = true <-> exists obj, var_type v = OptionalTy obj)
    /\ (ifPresent = true -> var_type v = OptionalTy ty)
    /\ (ifPresent = false -> var_type v = ty).
Proof.
  intros target key v ty ifPresent H.
  apply lookupVarDeclForCodingKeysCase_in_spec in H.
  destruct H as (Hs & (d & Hin & Hd) & Ht).
  split; [exact Hs|]. split.
  - exists d. unfold lookupDirect in Hin. apply filter_In in Hin.
    destruct Hin as [Hin Hname]. apply String.eqb_eq in Hname. auto.
  - destruct ifPresent.
    + split; [split; [eauto|reflexivity]|]. split; [auto|discriminate].
    + destruct Ht as [Ht Hnone]. split.
      * split; [discriminate|]. intros (obj & Hobj).
        rewrite Hobj in Ht. subst ty. discriminate.
      * split; [discriminate|auto].
Qed.

Lemma X1_resolved_member_witness :
  resolvedMember ex_Person "nick" =
    Some ({| var_name := "nick"; var_type := OptionalTy String_ty;
             var_isStatic := false; var_isLet := false;
             var_hasStorage := true; var_isUserAccessible := true;
             var_originalWrappedProperty := None;
             var_origin := FromPattern uninitialized |}, String_ty, true)
  /\ (true = true <-> exists obj, OptionalTy String_ty = OptionalTy obj).
Proof.
  split; [reflexivity|].
  exact (proj1 (proj2 (proj2
           (X1_resolved_member_is_instance_and_unwrapped
              ex_Person "nick" _ String_ty true eq_refl)))).
Defined.

(** ** The body of [encode(to:)] for structs and classes *)

Lemma deriveBodyEncodable_encode_key_spec target codingKeysEnum key statements s :
  resolvedMember target key <> None ->
  deriveBodyEncodable_encode_key
    target (DeclaredType (enum_name codingKeysEnum))
    (DeclRefExpr Id_container DirectToStorage) key statements s =
    Returned (statements ++ spec_encodeStatementsForKey target codingKeysEnum key)
             s.
Proof.
  intros Hres.
  unfold deriveBodyEncodable_encode_key, spec_encodeStatementsForKey,
    lookupVarDeclForCodingKeysCase, resolvedMember in *.
  destruct (lookupVarDeclForCodingKeysCase_in (lookupDirect target key))
    as [[[v ty] ifp]|]; [|congruence].
  reflexivity.
Qed.

Lemma deriveBodyEncodable_encode_key_loop target codingKeysEnum keys :
  forall statements s,
    (forall key, In key keys -> resolvedMember target key <> None) ->
    forEach keys
            (deriveBodyEncodable_encode_key
               target (DeclaredType (enum_name codingKeysEnum))
               (DeclRefExpr Id_container DirectToStorage))
            statements s =
      Returned (statements
                ++ flat_map (spec_encodeStatementsForKey target codingKeysEnum)
                            keys)
               s.
Proof.
  induction keys as [|key keys IH]; intros statements s Hres.
  - rewrite forEach_nil. simpl. now rewrite app_nil_r.
  - rewrite forEach_cons, deriveBodyEncodable_encode_key_spec
      by (apply Hres; now left).
    rewrite IH by (intros k Hk; apply Hres; now right).
    simpl. now rewrite <- app_assoc.
Qed.

(** X2. The synthesised [encode(to:)] of a struct or class always starts
    by binding [var container = encoder.container(keyedBy: CodingKeys.self)],
    also when [CodingKeys] has no case; it then holds exactly one
    [try container.encode(self.<member>, forKey: CodingKeys.<key>)] per
    key, in the order of the keys, with [encodeIfPresent] for an optional
    member; and it ends with [try super.encode(to: container.superEncoder())]
    exactly when the superclass conforms to [Encodable].  No diagnostic is
    emitted and the type is left as it is. *)
Theorem X2_encode_body_of_struct_or_class :
  forall (s : SemaState) (codingKeysEnum : EnumDecl),
    evaluatedCodingKeysEnum (Nominal s) Id_CodingKeys = Some codingKeysEnum ->
    (forall key, In key (enum_elements codingKeysEnum) ->
                 resolvedMember (Nominal s) key <> None) ->
    deriveBodyEncodable_encode s =
      Returned
        ([N_PatternBinding
            (NamedPattern "container")
            (CallExpr
               (UnresolvedDotExpr (DeclRefExpr "encoder" Ordinary)
                                  "container" (Some ["keyedBy"]))
               [DotSelfExpr
                  (TypeExpr (DeclaredType (enum_name codingKeysEnum)))]
               ["keyedBy"]);
          N_VarDecl "container" Var
                    (BoundGenericType
                       "KeyedEncodingContainer"
                       (DeclaredType (enum_name codingKeysEnum)))]
         ++ flat_map (spec_encodeStatementsForKey (Nominal s) codingKeysEnum)
                     (enum_elements codingKeysEnum)
         ++ (if superclassConformsTo (dyn_cast_ClassDecl (Nominal s)) Encodable
             then [spec_superEncodeCall] else []))
        s.
Proof.
  intros s ck Hck Hres.
  unfold deriveBodyEncodable_encode, bind, getNominal.
  rewrite (requireCodingKeysEnum_view _ _ _ Hck).
  simpl svd_name.
  rewrite (deriveBodyEncodable_encode_key_loop (Nominal s) ck _ _ s Hres).
  destruct (superclassConformsTo (dyn_cast_ClassDecl (Nominal s)) Encodable);
    unfold ret; f_equal; simpl; rewrite <- ?app_assoc, ?app_nil_r; reflexivity.
Qed.

Lemma In_3_resolved target (a b c : Identifier) :
  resolvedMember target a <> None ->
  resolvedMember target b <> None ->
  resolvedMember target c <> None ->
  forall key, In key [a; b; c] -> resolvedMember target key <> None.
Proof.
  intros Ha Hb Hc key [<-|[<-|[<-|[]]]]; assumption.
Qed.

Lemma X2_encode_body_witness :
  exists stmts,
    deriveBodyEncodable_encode (initialState ex_Person_keyed) =
      Returned stmts (initialState ex_Person_keyed)
    /\ length stmts = 5.
Proof.
  eexists. split.
  - apply (X2_encode_body_of_struct_or_class
             (initialState ex_Person_keyed)
             {| enum_name := Id_CodingKeys;
                enum_elements := ["name"; "nick"; "kind"];
                enum_isImplicit := true |}
             eq_refl).
    apply In_3_resolved; discriminate.
  - reflexivity.
Defined.

(** ** A key that names no instance property *)

Lemma forEach_traps {A S} (t : Trap) (xs : list A) (body : A -> S -> Sema S) :
  (forall x acc s,
      In x xs ->
      (exists acc' s', body x acc s = Returned acc' s')
      \/ body x acc s = Trapped t) ->
  (exists x, In x xs /\ forall acc s, body x acc s = Trapped t) ->
  forall acc s, forEach xs body acc s = Trapped t.
Proof.
  induction xs as [|x xs IH]; intros Hstep (x0 & Hin & Hx0) acc s.
  - destruct Hin.
  - rewrite forEach_cons.
    destruct Hin as [->|Hin].
    + now rewrite Hx0.
    + destruct (Hstep x acc s (or_introl eq_refl)) as [(acc' & s' & ->)| ->];
        [|reflexivity].
      apply IH; [intros y a t' Hy; apply Hstep; now right|eauto].
Qed.

Lemma deriveBodyEncodable_encode_key_unresolved target ty container key :
  resolvedMember target key = None ->
  forall statements s,
    deriveBodyEncodable_encode_key target ty container key statements s =
      Trapped noVarDeclTrap.
Proof.
  intros H statements s.
  unfold deriveBodyEncodable_encode_key, lookupVarDeclForCodingKeysCase,
    resolvedMember in *.
  now rewrite H.
Qed.

Lemma deriveBodyDecodable_init_key_unresolved target ck ty container key :
  resolvedMember target key = None ->
  forall statements s,
    deriveBodyDecodable_init_key target ck ty container key statements s =
      Trapped noVarDeclTrap.
Proof.
  intros H statements s.
  unfold deriveBodyDecodable_init_key, lookupVarDeclForCodingKeysCase,
    resolvedMember in *.
  now rewrite H.
Qed.

(** X3. The body synthesisers of a struct or class rely on validation:
    when some key of the evaluated [CodingKeys] names no instance property
    of the type, both [deriveBodyEncodable_encode] and
    [deriveBodyDecodable_init] stop at the unreachable
    "Should have found at least 1 var decl" and produce no body. *)
Theorem X3_body_synthesis_traps_on_unresolved_key :
  forall (s : SemaState) (codingKeysEnum : EnumDecl) (key : Identifier),
    evaluatedCodingKeysEnum (Nominal s) Id_CodingKeys = Some codingKeysEnum ->
    In key (enum_elements codingKeysEnum) ->
    resolvedMember (Nominal s) key = None ->
    deriveBodyEncodable_encode s =
      Trapped (Unreachable "Should have found at least 1 var decl")
    /\ deriveBodyDecodable_init s =
         Trapped (Unreachable "Should have found at least 1 var decl").
Proof.
  intros s ck key Hck Hin Hnone. split.
  - unfold deriveBodyEncodable_encode, bind, getNominal.
    rewrite (requireCodingKeysEnum_view _ _ _ Hck).
    rewrite (forEach_traps noVarDeclTrap); [reflexivity| |].
    + intros x acc s0 _.
      destruct (resolvedMember (Nominal s) x) eqn:Hx.
      * left. do 2 eexists.
        apply (deriveBodyEncodable_encode_key_spec (Nominal s) ck).
        congruence.
      * right. now apply deriveBodyEncodable_encode_key_unresolved.
    + exists key. split; [exact Hin|].
      now apply deriveBodyEncodable_encode_key_unresolved.
  - unfold deriveBodyDecodable_init, bind, getNominal.
    rewrite (requireCodingKeysEnum_view _ _ _ Hck).
    destruct (enum_elements ck) as [|k0 keys] eqn:Hkeys; [destruct Hin|].
    rewrite (forEach_traps noVarDeclTrap); [reflexivity| |].
    + intros x acc s0 _.
      destruct (resolvedMember (Nominal s) x) eqn:Hx.
      * left.
        destruct (deriveBodyDecodable_init_key_spec
                    (Nominal s) ck x acc s0) as (d & Hd & _); [congruence|].
        eauto.
      * right. now apply deriveBodyDecodable_init_key_unresolved.
    + exists key. split; [exact Hin|].
      now apply deriveBodyDecodable_init_key_unresolved.
Qed.

Lemma X3_body_synthesis_traps_witness :
  deriveBodyEncodable_encode (initialState ex_Account) =
    Trapped (Unreachable "Should have found at least 1 var decl")
  /\ deriveBodyDecodable_init (initialState ex_Account) =
       Trapped (Unreachable "Should have found at least 1 var decl").
Proof.
  apply (X3_body_synthesis_traps_on_unresolved_key
           (initialState ex_Account)
           {| enum_name := Id_CodingKeys;
              enum_elements := ["id"; "balance"; "owner"; "legacy"];
              enum_isImplicit := false |}
           "balance" eq_refl).
  - right. left. reflexivity.
  - reflexivity.
Defined.

(** ** The superclass call that ends [init(from:)] *)

Lemma deriveBodyDecodable_init_super_calls target statements s :
  superInitCallable target = true ->
  deriveBodyDecodable_init_super
    target (DeclRefExpr Id_container DirectToStorage) statements s =
    Returned (statements ++ spec_superInitCalls target) s.
Proof.
  unfold superInitCallable, deriveBodyDecodable_init_super, spec_superInitCalls.
  destruct (dyn_cast_ClassDecl target) as [[sup|]|]; simpl.
  - intros H. destruct (class_conformsToDecodable sup); simpl in *;
      [reflexivity|].
    destruct (lookupDirect_init sup []) as [|c rest]; [discriminate|].
    unfold bind, assert. destruct (ctor_isFailable c); [discriminate|].
    simpl. unfold spec_superPlainInitCall.
    destruct (ctor_hasThrows c); reflexivity.
  - intros _. unfold ret. now rewrite app_nil_r.
  - intros _. unfold ret. now rewrite app_nil_r.
Qed.

Lemma deriveBodyDecodable_init_super_uncallable target container statements s :
  superInitCallable target = false ->
  exists message,
    deriveBodyDecodable_init_super target container statements s =
      Trapped (AssertionFailed message).
Proof.
  unfold superInitCallable, deriveBodyDecodable_init_super.
  destruct (dyn_cast_ClassDecl target) as [[sup|]|]; simpl; try discriminate.
  destruct (class_conformsToDecodable sup); simpl; [discriminate|].
  destruct (lookupDirect_init sup []) as [|c rest]; [intros _; eexists; reflexivity|].
  unfold bind, assert.
  destruct (ctor_isFailable c); [intros _; eexists; reflexivity|discriminate].
Qed.

(** X4. The synthesised [init(from:)] of a class ends with the call of
    the superclass initialiser, after every member has been decoded:
    [try super.init(from: container.superDecoder())] when the superclass is
    [Decodable]; otherwise [super.init()], under [try] exactly when the
    first zero-argument initialiser declared in the superclass throws.  A
    struct or a class without superclass gets no such call.  When the
    superclass is not [Decodable] and declares no zero-argument initialiser,
    or the first one is failable, no body is produced: an assertion
    fails. *)
Theorem X4_decode_init_ends_with_superclass_call :
  forall (s : SemaState) (codingKeysEnum : EnumDecl),
    evaluatedCodingKeysEnum (Nominal s) Id_CodingKeys = Some codingKeysEnum ->
    (forall key, In key (enum_elements codingKeysEnum) ->
                 resolvedMember (Nominal s) key <> None) ->
    if superInitCallable (Nominal s) then
      exists (decoding : list ASTNode) (s' : SemaState),
        deriveBodyDecodable_init s =
          Returned (decoding ++ spec_superInitCalls (Nominal s)) s'
        /\ Nominal s' = Nominal s
        /\ (forall n, In n decoding ->
                      acquiresContainer n = true
                      \/ In n (flat_map (spec_decodeStatementsForKey
                                           (Nominal s) codingKeysEnum)
                                        (enum_elements codingKeysEnum)))
    else
      exists message,
        deriveBodyDecodable_init s = Trapped (AssertionFailed message).
Proof.
  intros s ck Hck Hres.
  unfold deriveBodyDecodable_init, bind, getNominal.
  rewrite (requireCodingKeysEnum_view _ _ _ Hck).
  destruct (enum_elements ck) as [|k0 keys] eqn:Hkeys.
  - unfold ret.
    destruct (superInitCallable (Nominal s)) eqn:Hsuper.
    + exists [], s.
      rewrite (deriveBodyDecodable_init_super_calls _ _ _ Hsuper).
      split; [reflexivity|]. split; [reflexivity|]. intros n [].
    + apply deriveBodyDecodable_init_super_uncallable, Hsuper.
  - simpl svd_name.
    destruct (deriveBodyDecodable_init_key_loop
                (Nominal s) ck (k0 :: keys)
                ([] ++ [N_PatternBinding
                          (NamedPattern Id_container)
                          (TryExpr
                             (createContainerKeyedByCall
                                (DeclRefExpr Id_decoder Ordinary) ck));
                        SynthesizedVarDecl_asNode
                          (createKeyedContainer
                             KeyedDecodingContainerDecl
                             (DeclaredType (enum_name ck)) Let Id_container)])
                s Hres)
      as (diags & Hloop & _).
    rewrite Hloop.
    destruct (superInitCallable (Nominal s)) eqn:Hsuper.
    + eexists. exists (emit s diags).
      change (Nominal (emit s diags)) with (Nominal s).
      rewrite (deriveBodyDecodable_init_super_calls (Nominal s) _ _ Hsuper).
      split; [reflexivity|]. split; [reflexivity|].
      intros n Hn. apply in_app_or in Hn. destruct Hn as [Hn|Hn].
      * left. simpl in Hn. destruct Hn as [<-|[<-|[]]]; reflexivity.
      * right. exact Hn.
    + change (Nominal (emit s diags)) with (Nominal s).
      apply deriveBodyDecodable_init_super_uncallable, Hsuper.
Qed.

Lemma X4_decode_init_ends_with_superclass_call_witness :
  exists (decoding : list ASTNode) (s' : SemaState),
    deriveBodyDecodable_init
      (initialState (ex_Circle_keyed [plainInit true true false])) =
      Returned (decoding ++ [spec_superPlainInitCall false]) s'.
Proof.
  destruct (X4_decode_init_ends_with_superclass_call
              (initialState (ex_Circle_keyed [plainInit true true false]))
              {| enum_name := Id_CodingKeys; enum_elements := ["r"];
                 enum_isImplicit := true |}
              eq_refl
              (fun key H =>
                 match H with
                 | or_introl e =>
                     match e in _ = k
                           return resolvedMember
                                    (ex_Circle_keyed [plainInit true true false])
                                    k <> None
                     with eq_refl => fun E => ltac:(discriminate E) end
                 | or_intror F => match F with end
                 end))
    as (decoding & s' & Hrun & _).
  exists decoding, s'. exact Hrun.
Defined.

(** ** Validation for [Encodable] tolerates members without a key *)

(** X5. For [Encodable], a struct or class whose declared [CodingKeys]
    names only stored properties of conforming type can be synthesised
    whatever properties are left without a key: [canSynthesize] answers
    true, emits no diagnostic and leaves the type as it is (the unmatched
    members are simply not encoded). *)
Theorem X5_encodable_accepts_members_without_key :
  forall (derived : DerivedConformance) (requirement : DeclName)
         (s : SemaState) (codingKeysTypeDecl : TypeDecl)
         (codingKeysDecl : EnumDecl),
    Protocol derived = Encodable ->
    isa_EnumDecl (Nominal s) = false ->
    lookupDirect (Nominal s) Id_CodingKeys = [VD_Type codingKeysTypeDecl] ->
    conformsToCodingKey codingKeysTypeDecl = true ->
    getAnyNominal codingKeysTypeDecl = Some (EnumNominal codingKeysDecl) ->
    keysAllMatched Encodable (storedPropertiesByName (Nominal s))
                   (enum_elements codingKeysDecl) = true ->
    canSynthesize derived requirement s = Returned true s.
Proof.
  intros derived requirement s td ck Hproto Henum Hlookup Hconf Hnom Hkeys.
  unfold canSynthesize, bind.
  rewrite (canSynthesize_superInit_encodable _ _ _ Hproto). simpl.
  rewrite Hproto, (validateCodingKeysEnum_declared _ _ _ Henum Hlookup).
  unfold validateCodingKeysEnum_varDecls, bind.
  rewrite (validateCodingKeysType_enum _ _ _ _ Hconf Hnom).
  rewrite (validateCodingKeysEnum_case_loop_matched _ _ _ _ _ Hkeys).
  simpl. unfold getNominal. now rewrite Henum.
Qed.

Lemma X5_encodable_accepts_members_without_key_witness :
  hasNoMember (unmatchedMembers (storedPropertiesByName ex_Point) ["x"]) "y"
    = false
  /\ canSynthesize derivingEncodable encodeRequirement (initialState ex_Point)
     = Returned true (initialState ex_Point).
Proof.
  split; [reflexivity|].
  exact (X5_encodable_accepts_members_without_key
           derivingEncodable encodeRequirement (initialState ex_Point)
           (NominalDecl (EnumNominal {| enum_name := Id_CodingKeys;
                                        enum_elements := ["x"];
                                        enum_isImplicit := false |}) true)
           {| enum_name := Id_CodingKeys; enum_elements := ["x"];
              enum_isImplicit := false |}
           eq_refl eq_refl eq_refl eq_refl eq_refl eq_refl).
Defined.

(** ** Key enumerations of enums *)

Lemma validateCodingKeysEnum_enum_loop (caseNames keys : list Identifier) :
  forall (valid : bool) (s : SemaState),
    forEach keys
            (fun elt casesAreValid =>
               if negb (existsb (String.eqb elt) caseNames) then
                 diagnose (codable_extraneous_codingkey_case_here elt) ;;
                 ret false
               else ret casesAreValid)
            valid s =
      Returned
        (valid && forallb (fun k => existsb (String.eqb k) caseNames) keys)
        (emit s (map codable_extraneous_codingkey_case_here
                     (filter (fun k => negb (existsb (String.eqb k) caseNames))
                             keys))).
Proof.
  induction keys as [|k keys IH]; intros valid s.
  - rewrite forEach_nil, emit_nil. simpl. now rewrite andb_true_r.
  - rewrite forEach_cons. cbn [filter forallb map].
    destruct (existsb (String.eqb k) caseNames); cbn [negb andb].
    + unfold ret at 1. apply IH.
    + unfold bind at 1, ret at 1. rewrite diagnose_emit, IH, emit_emit.
      cbn [map app]. now rewrite andb_false_r.
Qed.

Lemma validateCodingKeysEnum_enum_spec proto s td ck :
  isa_EnumDecl (Nominal s) = true ->
  conformsToCodingKey td = true ->
  getAnyNominal td = Some (EnumNominal ck) ->
  validateCodingKeysEnum_enum proto td s =
    Returned
      (forallb (namesCase (Nominal s)) (enum_elements ck))
      (emit s (map codable_extraneous_codingkey_case_here
                   (filter (fun k => negb (namesCase (Nominal s) k))
                           (enum_elements ck)))).
Proof.
  intros Henum Hconf Hnom.
  unfold validateCodingKeysEnum_enum, bind, getNominal. rewrite Henum. simpl.
  rewrite (validateCodingKeysType_enum _ _ _ _ Hconf Hnom).
  now rewrite validateCodingKeysEnum_enum_loop.
Qed.

(** X6. The declared [CodingKeys] of an enum is checked against the
    names of the cases only: one "extraneous key" diagnostic is emitted for
    each key that names no case, in the order of the keys, and validation
    succeeds exactly when every key names a case.  A case without a key is
    never diagnosed. *)
Theorem X6_enum_keys_must_name_cases :
  forall (proto : KnownProtocolKind) (s : SemaState)
         (codingKeysTypeDecl : TypeDecl) (codingKeysDecl : EnumDecl),
    isa_EnumDecl (Nominal s) = true ->
    conformsToCodingKey codingKeysTypeDecl = true ->
    getAnyNominal codingKeysTypeDecl = Some (EnumNominal codingKeysDecl) ->
    validateCodingKeysEnum_enum proto codingKeysTypeDecl s =
      Returned
        (forallb (namesCase (Nominal s)) (enum_elements codingKeysDecl))
        (emit s (map codable_extraneous_codingkey_case_here
                     (filter (fun k => negb (namesCase (Nominal s) k))
                             (enum_elements codingKeysDecl)))).
Proof.
  intros proto s td ck. apply validateCodingKeysEnum_enum_spec.
Qed.

Lemma X6_enum_keys_must_name_cases_witness :
  validateCodingKeysEnum_enum
    Encodable
    (NominalDecl (EnumNominal {| enum_name := Id_CodingKeys;
                                 enum_elements := ["go"; "bogus"; "halt"; "other"];
                                 enum_isImplicit := false |}) true)
    (initialState ex_Signal) =
    Returned false
      {| Nominal := ex_Signal;
         Diags := [codable_extraneous_codingkey_case_here "bogus";
                   codable_extraneous_codingkey_case_here "other"] |}.
Proof.
  exact (X6_enum_keys_must_name_cases
           Encodable (initialState ex_Signal)
           (NominalDecl (EnumNominal
                           {| enum_name := Id_CodingKeys;
                              enum_elements := ["go"; "bogus"; "halt"; "other"];
                              enum_isImplicit := false |}) true)
           {| enum_name := Id_CodingKeys;
              enum_elements := ["go"; "bogus"; "halt"; "other"];
              enum_isImplicit := false |}
           eq_refl eq_refl eq_refl).
Defined.

Lemma fold_EnumDecl_addMember {A} (f : A -> Identifier) (xs : list A) :
  forall e,
    fold_left (fun e x => EnumDecl_addMember e (f x)) xs e =
    {| enum_name := enum_name e;
       enum_elements := enum_elements e ++ map f xs;
       enum_isImplicit := enum_isImplicit e |}.
Proof.
  induction xs as [|x xs IH]; intros e; simpl.
  - destruct e; simpl. now rewrite app_nil_r.
  - rewrite IH. simpl. now rewrite <- app_assoc.
Qed.

Lemma addImplicitCodingKeys_enum_run s :
  addImplicitCodingKeys_enum s =
    Returned (implicitCodingKeys_enum (Nominal s))
             (withKeyEnum s (implicitCodingKeys_enum (Nominal s))).
Proof.
  unfold addImplicitCodingKeys_enum, bind, getNominal.
  rewrite (fold_EnumDecl_addMember elt_name). reflexivity.
Qed.

Lemma getAllElements_addKeyEnum n e :
  getAllElements (NominalTypeDecl_addMember n (EnumDecl_asMember e)) =
  getAllElements n.
Proof.
  rewrite addMember_withKeyEnums. apply getAllElements_withKeyEnums.
Qed.

Lemma existsb_eqb_In (k : Identifier) (l : list Identifier) :
  In k l -> existsb (String.eqb k) l = true.
Proof.
  intros H. apply existsb_exists. exists k. split; [exact H|].
  apply String.eqb_refl.
Qed.

(** X7. An enum without [CodingKeys] gets an implicit one holding one
    key per case, named as the case and in declaration order, and that
    enumeration always passes validation: nothing is diagnosed. *)
Theorem X7_enum_without_keys_gets_one_key_per_case :
  forall (proto : KnownProtocolKind) (s : SemaState),
    isa_EnumDecl (Nominal s) = true ->
    lookupDirect (Nominal s) Id_CodingKeys = [] ->
    validateCodingKeysEnum proto s =
      Returned true
        {| Nominal :=
             NominalTypeDecl_addMember
               (Nominal s)
               (EnumDecl_asMember
                  {| enum_name := "CodingKeys";
                     enum_elements := map elt_name (getAllElements (Nominal s));
                     enum_isImplicit := true |});
           Diags := Diags s |}.
Proof.
  intros proto s Henum Hlookup.
  unfold validateCodingKeysEnum, bind, getNominal.
  rewrite Hlookup, Henum. simpl.
  unfold addImplicitCodingKeys, bind, getNominal.
  rewrite Henum, addImplicitCodingKeys_enum_run. unfold ret at 1.
  unfold EnumDecl_asMember at 1. cbv iota.
  rewrite (validateCodingKeysEnum_enum_spec
             proto (withKeyEnum s (implicitCodingKeys_enum (Nominal s)))
             (NominalDecl (EnumNominal (implicitCodingKeys_enum (Nominal s)))
                          true)
             (implicitCodingKeys_enum (Nominal s)) Henum eq_refl eq_refl).
  assert (Hall : forall k,
             In k (enum_elements (implicitCodingKeys_enum (Nominal s))) ->
             namesCase (Nominal (withKeyEnum s (implicitCodingKeys_enum (Nominal s))))
                       k = true).
  { intros k Hk. unfold namesCase, withKeyEnum. cbn [Nominal].
    rewrite getAllElements_addKeyEnum. now apply existsb_eqb_In. }
  rewrite (proj2 (forallb_forall _ _) Hall).
  assert (Hnone :
            filter (fun k =>
                      negb (namesCase
                              (Nominal (withKeyEnum
                                          s (implicitCodingKeys_enum (Nominal s))))
                              k))
                   (enum_elements (implicitCodingKeys_enum (Nominal s))) = []).
  { induction (enum_elements (implicitCodingKeys_enum (Nominal s))) as [|k l IH];
      [reflexivity|].
    cbn [filter]. rewrite (Hall k (or_introl eq_refl)). cbn [negb].
    apply IH. intros k' Hk'. apply Hall. now right. }
  rewrite Hnone. cbn [map]. now rewrite emit_nil.
Qed.

Lemma X7_enum_without_keys_witness :
  exists s',
    validateCodingKeysEnum Decodable
      (initialState ex_Signal_plain) =
      Returned true s'
    /\ evaluatedCodingKeysEnum (Nominal s') Id_CodingKeys =
         Some {| enum_name := Id_CodingKeys;
                 enum_elements := ["go"; "wait"; "halt"];
                 enum_isImplicit := true |}.
Proof.
  eexists. split.
  - apply (X7_enum_without_keys_gets_one_key_per_case
             Decodable
             (initialState ex_Signal_plain)
             eq_refl eq_refl).
  - reflexivity.
Defined.

(** X8. The key enumeration synthesised for the payload of a case is
    called [<Case>CodingKeys], is implicit, and holds one key per payload
    slot in declaration order: the label of the slot, or [_<index>] for an
    unlabeled slot (none for a case without payload).  It is added to the
    type; for a case that has no key in [CodingKeys], nothing is synthesised
    and the null declaration is returned. *)
Theorem X8_case_key_enumeration_of_payload :
  forall (elt : EnumElementDecl) (codingKeysEnum : EnumDecl) (s : SemaState),
    addImplicitCaseCodingKeys elt codingKeysEnum s =
      if hasCodingKey codingKeysEnum elt then
        Returned
          (Some {| enum_name := caseCodingKeysIdentifier elt;
                   enum_elements :=
                     map (fun entry =>
                            if Identifier_isEmpty (param_name (snd entry))
                            then ("_" ++ to_string (fst entry))%string
                            else param_name (snd entry))
                         (enumerate (getParameterList elt));
                   enum_isImplicit := true |})
          (withKeyEnum s (implicitCaseCodingKeys elt))
      else Returned None s.
Proof.
  intros elt ck s. unfold addImplicitCaseCodingKeys, hasCodingKey.
  destruct (lookupEnumCase ck (elt_name elt)); [|reflexivity].
  unfold bind, addMember, ret, withKeyEnum, implicitCaseCodingKeys.
  assert (Hcase :
            (if hasAssociatedValues elt
             then fold_left
                    (fun e entry =>
                       EnumDecl_addMember
                         e (paramCodingIdentifier (fst entry) (snd entry)))
                    (enumerate (getParameterList elt))
                    (EnumDecl_createImplicit (caseCodingKeysIdentifier elt))
             else EnumDecl_createImplicit (caseCodingKeysIdentifier elt)) =
            {| enum_name := caseCodingKeysIdentifier elt;
               enum_elements := map slotCodingName
                                    (enumerate (getParameterList elt));
               enum_isImplicit := true |}).
  { unfold hasAssociatedValues, getParameterList.
    destruct (elt_params elt) as [ps|]; [|reflexivity].
    rewrite (fold_EnumDecl_addMember
               (fun entry : nat * ParamDecl =>
                  paramCodingIdentifier (fst entry) (snd entry))).
    reflexivity. }
  rewrite Hcase. reflexivity.
Qed.

(** ** Implicit key enumerations of structs and classes under validation *)

Lemma addImplicitCodingKeys_run s :
  isa_EnumDecl (Nominal s) = false ->
  lookupDirect (Nominal s) Id_CodingKeys = [] ->
  addImplicitCodingKeys s =
    Returned (implicitCodingKeys (Nominal s))
             (withKeyEnum s (implicitCodingKeys (Nominal s))).
Proof.
  intros Hkind Hlookup.
  unfold addImplicitCodingKeys, bind, getNominal.
  rewrite Hkind, Hlookup; simpl.
  match goal with
  | |- context [fold_left ?f ?l ?e0] =>
      destruct (addImplicitCodingKeys_fold l e0) as (H1 & H2 & H3);
      set (ck := fold_left f l e0) in *
  end.
  assert (Hck : ck = implicitCodingKeys (Nominal s)).
  { destruct ck as [name elts impl]. simpl in H1, H2, H3.
    unfold implicitCodingKeys. subst name elts impl.
    now destruct (_ || _). }
  unfold addMember, ret. now rewrite Hck.
Qed.

Lemma validateCodingKeysEnum_implicit proto s :
  isa_EnumDecl (Nominal s) = false ->
  lookupDirect (Nominal s) Id_CodingKeys = [] ->
  validateCodingKeysEnum proto s =
    validateCodingKeysEnum_varDecls
      proto (storedPropertiesByName (Nominal s))
      (NominalDecl (EnumNominal (implicitCodingKeys (Nominal s))) true)
      (withKeyEnum s (implicitCodingKeys (Nominal s))).
Proof.
  intros Hkind Hlookup.
  unfold validateCodingKeysEnum, bind, getNominal.
  rewrite Hlookup, Hkind. simpl.
  now rewrite (addImplicitCodingKeys_run s Hkind Hlookup).
Qed.

Lemma MapVector_set_fresh m k v :
  MapVector_find m k = None -> MapVector_set m k v = m ++ [(k, v)].
Proof.
  induction m as [|[k0 v0] m IH]; simpl; [reflexivity|].
  destruct (String.eqb k0 k); [discriminate|].
  intros H. now rewrite IH.
Qed.

Lemma MapVector_find_app_fresh m k v k' :
  MapVector_find m k' = None -> k <> k' ->
  MapVector_find (m ++ [(k, v)]) k' = None.
Proof.
  intros Hm Hne. induction m as [|[k0 v0] m IH]; simpl in *.
  - destruct (String.eqb k k') eqn:E; [|reflexivity].
    apply String.eqb_eq in E. contradiction.
  - destruct (String.eqb k0 k'); [discriminate|]. now apply IH.
Qed.

Lemma storedProperties_fold (vars : list VarDecl) :
  forall m : MapVector,
    NoDup (map getVarNameForCoding (filter var_isUserAccessible vars)) ->
    (forall v, In v (filter var_isUserAccessible vars) ->
               MapVector_find m (getVarNameForCoding v) = None) ->
    fold_left (fun properties varDecl =>
                 if negb (var_isUserAccessible varDecl) then properties
                 else MapVector_set properties
                                    (getVarNameForCoding varDecl) varDecl)
              vars m =
    m ++ map (fun v => (getVarNameForCoding v, v))
             (filter var_isUserAccessible vars).
Proof.
  induction vars as [|v vars IH]; intros m Hnd Hfresh; simpl.
  - now rewrite app_nil_r.
  - simpl in Hnd, Hfresh. destruct (var_isUserAccessible v); simpl in *.
    + inversion Hnd as [|? ? Hnotin Hnd']; subst.
      rewrite (MapVector_set_fresh m _ v (Hfresh v (or_introl eq_refl))).
      rewrite IH; [now rewrite <- app_assoc|exact Hnd'|].
      intros v' Hv'. apply MapVector_find_app_fresh.
      * apply Hfresh. now right.
      * intros Heq. apply Hnotin. rewrite Heq. now apply in_map.
    + now apply IH.
Qed.

Lemma keysAllMatched_own_names proto (vars : list VarDecl) :
  forallb (fun v => conformsToProtocol (var_type v) proto) vars = true ->
  keysAllMatched proto (map (fun v => (getVarNameForCoding v, v)) vars)
                 (map getVarNameForCoding vars) = true
  /\ unmatchedMembers (map (fun v => (getVarNameForCoding v, v)) vars)
                      (map getVarNameForCoding vars) = [].
Proof.
  unfold unmatchedMembers.
  induction vars as [|v vars IH]; intros Hconf; [split; reflexivity|].
  simpl in Hconf. apply andb_prop in Hconf. destruct Hconf as [Hv Hrest].
  simpl. rewrite String.eqb_refl, Hv. simpl. now apply IH.
Qed.

(** X9. Round trip of synthesis and validation: for a struct or a class
    whose superclass conforms to neither protocol, without [CodingKeys],
    whose user-accessible stored properties have pairwise distinct coding
    names and types that conform to the protocol, the implicit [CodingKeys]
    (one key per such property, in declaration order) is added to the type
    and passes validation without any diagnostic: every key finds its
    property and no property is left without a key. *)
Theorem X9_implicit_keys_pass_validation :
  forall (proto : KnownProtocolKind) (s : SemaState),
    isa_EnumDecl (Nominal s) = false ->
    lookupDirect (Nominal s) Id_CodingKeys = [] ->
    superclassConformsTo (dyn_cast_ClassDecl (Nominal s)) Encodable = false ->
    superclassConformsTo (dyn_cast_ClassDecl (Nominal s)) Decodable = false ->
    NoDup (map getVarNameForCoding
               (filter var_isUserAccessible (getStoredProperties (Nominal s)))) ->
    forallb (fun v => conformsToProtocol (var_type v) proto)
            (filter var_isUserAccessible (getStoredProperties (Nominal s)))
      = true ->
    validateCodingKeysEnum proto s =
      Returned true
        {| Nominal :=
             NominalTypeDecl_addMember
               (Nominal s)
               (EnumDecl_asMember
                  {| enum_name := "CodingKeys";
                     enum_elements :=
                       map getVarNameForCoding
                           (filter var_isUserAccessible
                                   (getStoredProperties (Nominal s)));
                     enum_isImplicit := true |});
           Diags := Diags s |}.
Proof.
  intros proto s Hkind Hlookup Henc Hdec Hnd Hconf.
  rewrite (validateCodingKeysEnum_implicit _ _ Hkind Hlookup).
  unfold validateCodingKeysEnum_varDecls, bind.
  rewrite (validateCodingKeysType_enum
             _ (NominalDecl (EnumNominal (implicitCodingKeys (Nominal s))) true)
             (implicitCodingKeys (Nominal s)) _ eq_refl eq_refl).
  unfold implicitCodingKeys, withKeyEnum. rewrite Henc, Hdec.
  cbn [orb app enum_elements].
  unfold storedPropertiesByName.
  rewrite (storedProperties_fold _ [] Hnd) by (intros; reflexivity).
  cbn [app].
  destruct (keysAllMatched_own_names proto _ Hconf) as [Hkeys Hleft].
  rewrite (validateCodingKeysEnum_case_loop_matched _ _ _ _ _ Hkeys).
  rewrite Hleft. cbn [negb].
  destruct (isSpecificProtocol proto Decodable); reflexivity.
Qed.

Lemma X9_implicit_keys_pass_validation_witness :
  validateCodingKeysEnum Decodable (initialState ex_Simple) =
    Returned true
      {| Nominal :=
           NominalTypeDecl_addMember
             ex_Simple
             (EnumDecl_asMember {| enum_name := "CodingKeys";
                                   enum_elements := ["a"; "b"];
                                   enum_isImplicit := true |});
         Diags := [] |}.
Proof.
  apply (X9_implicit_keys_pass_validation
           Decodable (initialState ex_Simple) eq_refl eq_refl eq_refl eq_refl).
  - repeat constructor; simpl; intuition discriminate.
  - reflexivity.
Defined.

Lemma storedPropertiesByName_find_None (vars : list VarDecl) (k : Identifier) :
  forall m : MapVector,
    ~ In k (map getVarNameForCoding (filter var_isUserAccessible vars)) ->
    MapVector_find
      (fold_left (fun properties varDecl =>
                    if negb (var_isUserAccessible varDecl) then properties
                    else MapVector_set properties
                                       (getVarNameForCoding varDecl) varDecl)
                 vars m) k =
    MapVector_find m k.
Proof.
  induction vars as [|v vars IH]; intros m Hnin; simpl; [reflexivity|].
  simpl in Hnin. destruct (var_isUserAccessible v); simpl in *.
  - rewrite IH by (intros H; apply Hnin; now right).
    apply MapVector_find_set_other. intros Heq. apply Hnin. now left.
  - now apply IH.
Qed.

Lemma extraneousKeysOf_In k diags :
  In k (extraneousKeysOf diags) ->
  In (codable_extraneous_codingkey_case_here k) diags.
Proof.
  unfold extraneousKeysOf. intros H. apply in_flat_map in H.
  destruct H as (d & Hd & Hk).
  destruct d; simpl in Hk; try contradiction.
  destruct Hk as [<-|[]]. exact Hd.
Qed.

Lemma canSynthesize_superInit_returns derived requirement s :
  exists ok diags,
    canSynthesize_superInit derived requirement s = Returned ok (emit s diags).
Proof.
  unfold canSynthesize_superInit, bind, getNominal.
  destruct (dyn_cast_ClassDecl (Nominal s)) as [[sup|]|];
    try (exists true, []; now rewrite emit_nil).
  destruct (isSpecificProtocol (Protocol derived) Decodable);
    [|exists true, []; now rewrite emit_nil].
  destruct (lookupMember sup _) as [|c [|c' rest]].
  - eexists false, [_]. reflexivity.
  - destruct (negb (ctor_isDesignatedInit c)); [eexists false, [_]; reflexivity|].
    destruct (negb (ctor_isAccessibleFromConformance c));
      [eexists false, [_]; reflexivity|].
    destruct (ctor_isFailable c); [eexists false, [_]; reflexivity|].
    exists true, []. now rewrite emit_nil.
  - exists false, []. now rewrite emit_nil.
Qed.

(** X10. A class whose superclass conforms to [Encodable] or
    [Decodable] and that declares no [CodingKeys] cannot be synthesised: the
    implicit enumeration starts with the key [super], which names no stored
    property, so validation reports it as an extraneous key and fails, and
    [canSynthesize] answers false for either protocol. *)
Theorem X10_implicit_super_key_fails_validation :
  forall (derived : DerivedConformance) (requirement : DeclName) (s : SemaState),
    isa_EnumDecl (Nominal s) = false ->
    lookupDirect (Nominal s) Id_CodingKeys = [] ->
    superclassConformsTo (dyn_cast_ClassDecl (Nominal s)) Encodable
      || superclassConformsTo (dyn_cast_ClassDecl (Nominal s)) Decodable = true ->
    ~ In "super"
         (map getVarNameForCoding
              (filter var_isUserAccessible (getStoredProperties (Nominal s)))) ->
    (exists diags,
        validateCodingKeysEnum (Protocol derived) s =
          Returned false
                   (emit (withKeyEnum s (implicitCodingKeys (Nominal s))) diags)
        /\ In (codable_extraneous_codingkey_case_here "super") diags)
    /\ exists s', canSynthesize derived requirement s = Returned false s'.
Proof.
  intros derived requirement s Hkind Hlookup Hsuper Hnin.
  assert (Hval : forall s0 : SemaState,
             Nominal s0 = Nominal s ->
             exists diags,
               validateCodingKeysEnum (Protocol derived) s0 =
                 Returned false
                          (emit (withKeyEnum s0 (implicitCodingKeys (Nominal s0)))
                                diags)
               /\ In (codable_extraneous_codingkey_case_here "super") diags).
  { intros s0 Hs0.
    rewrite validateCodingKeysEnum_implicit by (rewrite Hs0; assumption).
    rewrite Hs0.
    set (props := storedPropertiesByName (Nominal s)).
    set (s1 := withKeyEnum s0 (implicitCodingKeys (Nominal s))).
    assert (Hnone : hasNoMember props "super" = true).
    { unfold hasNoMember, props, storedPropertiesByName.
      now rewrite storedPropertiesByName_find_None. }
    assert (Hin : In "super" (enum_elements (implicitCodingKeys (Nominal s)))).
    { unfold implicitCodingKeys. cbn [enum_elements]. rewrite Hsuper.
      now left. }
    destruct (validateCodingKeysEnum_case_loop
                (Protocol derived) (hasNoMember props)
                (enum_elements (implicitCodingKeys (Nominal s))) props true s1)
      as (vd' & valid' & diags & Hrun & Hfilter & _ & Hfalse).
    { intros k Hk. unfold hasNoMember in Hk.
      destruct (MapVector_find props k); [discriminate|reflexivity]. }
    rewrite (Hfalse (ex_intro _ "super" (conj Hin Hnone))) in Hrun.
    exists diags. split.
    - unfold validateCodingKeysEnum_varDecls, bind.
      rewrite (validateCodingKeysType_enum
                 _ (NominalDecl (EnumNominal (implicitCodingKeys (Nominal s)))
                                true)
                 (implicitCodingKeys (Nominal s)) _ eq_refl eq_refl).
      now rewrite Hrun.
    - apply extraneousKeysOf_In.
      assert (H : In "super" (filter (hasNoMember props)
                                     (enum_elements
                                        (implicitCodingKeys (Nominal s))))).
      { apply filter_In. split; assumption. }
      rewrite <- Hfilter in H. apply filter_In in H. tauto. }
  split; [exact (Hval s eq_refl)|].
  unfold canSynthesize, bind.
  destruct (canSynthesize_superInit_returns derived requirement s)
    as (ok & d0 & ->).
  destruct ok; simpl; [|eexists; reflexivity].
  destruct (Hval (emit s d0) eq_refl) as (diags & -> & _).
  simpl. eexists; reflexivity.
Qed.

Lemma X10_implicit_super_key_witness :
  exists s',
    canSynthesize derivingEncodable encodeRequirement (initialState ex_Derived) =
      Returned false s'.
Proof.
  refine (proj2 (X10_implicit_super_key_fails_validation
                   derivingEncodable encodeRequirement (initialState ex_Derived)
                   eq_refl eq_refl eq_refl _)).
  simpl. intuition discriminate.
Defined.

(** ** What synthesis may change in the type *)

Lemma onlyAddsKeyEnums_ret {A} (a : A) : onlyAddsKeyEnums (ret a).
Proof.
  intros s b s' H. apply ret_inv in H. destruct H as [_ <-].
  exists [], []. rewrite withKeyEnums_nil, app_nil_r. now destruct s.
Qed.

Lemma onlyAddsKeyEnums_getNominal : onlyAddsKeyEnums getNominal.
Proof.
  intros s b s' [= _ <-].
  exists [], []. rewrite withKeyEnums_nil, app_nil_r. now destruct s.
Qed.

Lemma onlyAddsKeyEnums_trap {A} t : onlyAddsKeyEnums (@trap A t).
Proof. intros s b s' H. discriminate. Qed.

Lemma onlyAddsKeyEnums_diagnose d : onlyAddsKeyEnums (diagnose d).
Proof.
  intros s b s' [= _ <-]. exists [], [d]. now rewrite withKeyEnums_nil.
Qed.

Lemma onlyAddsKeyEnums_assert b msg : onlyAddsKeyEnums (assert b msg).
Proof.
  unfold assert. destruct b;
    [apply onlyAddsKeyEnums_ret|apply onlyAddsKeyEnums_trap].
Qed.

Lemma onlyAddsKeyEnums_addMember e :
  enum_isImplicit e = true ->
  onlyAddsKeyEnums (addMember (EnumDecl_asMember e)).
Proof.
  intros He s b s' [= _ <-]. exists [e], [].
  rewrite app_nil_r. split; [reflexivity|]. simpl. now rewrite He.
Qed.

Lemma onlyAddsKeyEnums_bind {A B} (m : Sema A) (k : A -> Sema B) :
  onlyAddsKeyEnums m -> (forall a, onlyAddsKeyEnums (k a)) ->
  onlyAddsKeyEnums (bind m k).
Proof.
  intros Hm Hk s b s' H. apply bind_inv in H.
  destruct H as (a & s1 & H1 & H2).
  destruct (Hm _ _ _ H1) as (added1 & diags1 & -> & Himpl1).
  destruct (Hk _ _ _ _ H2) as (added2 & diags2 & -> & Himpl2).
  exists (added1 ++ added2), (diags1 ++ diags2). simpl.
  rewrite withKeyEnums_app, app_assoc. split; [reflexivity|].
  rewrite forallb_app. now rewrite Himpl1, Himpl2.
Qed.

Lemma onlyAddsKeyEnums_forEach {A S} (xs : list A) (body : A -> S -> Sema S) :
  (forall x acc, onlyAddsKeyEnums (body x acc)) ->
  forall acc, onlyAddsKeyEnums (forEach xs body acc).
Proof.
  intros Hbody. induction xs as [|x xs IH]; intros acc.
  - apply onlyAddsKeyEnums_ret.
  - simpl. apply onlyAddsKeyEnums_bind; [apply Hbody|]. intros a. apply IH.
Qed.

Lemma onlyAddsKeyEnums_preserving {A} (m : Sema A) :
  (forall s a s', m s = Returned a s' ->
                  exists diags, s' = emit s diags) ->
  onlyAddsKeyEnums m.
Proof.
  intros Hm s a s' H. destruct (Hm _ _ _ H) as (diags & ->).
  exists [], diags. now rewrite withKeyEnums_nil.
Qed.

(** Structural steps shared by the proofs below. *)
Ltac only_adds_step :=
  first
    [ apply onlyAddsKeyEnums_ret
    | apply onlyAddsKeyEnums_trap
    | apply onlyAddsKeyEnums_diagnose
    | apply onlyAddsKeyEnums_getNominal
    | apply onlyAddsKeyEnums_assert
    | apply onlyAddsKeyEnums_bind; [|intros ?]
    | apply onlyAddsKeyEnums_forEach; intros ? ? ].

Ltac only_adds_case :=
  match goal with
  | |- onlyAddsKeyEnums (if ?b then _ else _) => destruct b
  | |- onlyAddsKeyEnums (match ?x with _ => _ end) => destruct x
  | |- onlyAddsKeyEnums (let '(_, _) := ?p in _) => destruct p
  end.

Ltac only_adds := repeat (first [only_adds_step | only_adds_case]).

Lemma onlyAddsKeyEnums_validateCodingKeysType proto td :
  onlyAddsKeyEnums (validateCodingKeysType proto td).
Proof. unfold validateCodingKeysType. only_adds. Qed.

Lemma onlyAddsKeyEnums_validateCodingKeysEnum_varDecls proto vd td :
  onlyAddsKeyEnums (validateCodingKeysEnum_varDecls proto vd td).
Proof.
  unfold validateCodingKeysEnum_varDecls.
  apply onlyAddsKeyEnums_bind;
    [apply onlyAddsKeyEnums_validateCodingKeysType|].
  intros [ck|]; [|intros; only_adds].
  apply onlyAddsKeyEnums_bind.
  - apply onlyAddsKeyEnums_forEach. intros k [m valid].
    unfold validateCodingKeysEnum_case. only_adds.
  - intros [m valid]. destruct (negb valid); [only_adds|].
    destruct (isSpecificProtocol proto Decodable); [|intros; only_adds].
    apply onlyAddsKeyEnums_forEach. intros e acc.
    unfold validateCodingKeysEnum_remaining. only_adds.
Qed.

Lemma onlyAddsKeyEnums_validateCodingKeysEnum_enum proto td :
  onlyAddsKeyEnums (validateCodingKeysEnum_enum proto td).
Proof.
  unfold validateCodingKeysEnum_enum.
  apply onlyAddsKeyEnums_bind; [only_adds|]. intros n.
  destruct (negb (isa_EnumDecl n)); [only_adds|].
  apply onlyAddsKeyEnums_bind;
    [apply onlyAddsKeyEnums_validateCodingKeysType|].
  intros [ck|]; only_adds.
Qed.

Lemma fold_EnumDecl_addMember_implicit {A} (f : A -> Identifier) (xs : list A) e :
  enum_isImplicit (fold_left (fun e x => EnumDecl_addMember e (f x)) xs e) =
  enum_isImplicit e.
Proof. now rewrite fold_EnumDecl_addMember. Qed.

Lemma onlyAddsKeyEnums_addImplicitCodingKeys :
  onlyAddsKeyEnums addImplicitCodingKeys.
Proof.
  unfold addImplicitCodingKeys.
  apply onlyAddsKeyEnums_bind; [only_adds|]. intros n.
  destruct (isa_EnumDecl n).
  - unfold addImplicitCodingKeys_enum.
    apply onlyAddsKeyEnums_bind; [only_adds|]. intros n'.
    apply onlyAddsKeyEnums_bind; [|intros; only_adds].
    apply onlyAddsKeyEnums_addMember.
    apply (fold_EnumDecl_addMember_implicit elt_name).
  - apply onlyAddsKeyEnums_bind; [only_adds|]. intros _.
    apply onlyAddsKeyEnums_bind; [|intros; only_adds].
    apply onlyAddsKeyEnums_addMember.
    match goal with
    | |- context [fold_left ?f ?l ?e0] =>
        destruct (addImplicitCodingKeys_fold l e0) as (_ & _ & H3)
    end.
    rewrite H3. now destruct (_ || _).
Qed.

Lemma onlyAddsKeyEnums_validateCodingKeysEnum proto :
  onlyAddsKeyEnums (validateCodingKeysEnum proto).
Proof.
  unfold validateCodingKeysEnum.
  apply onlyAddsKeyEnums_bind; [only_adds|]. intros n.
  destruct (1 <? length (lookupDirect n Id_CodingKeys))%nat; [only_adds|].
  apply onlyAddsKeyEnums_bind.
  - destruct (lookupDirect n Id_CodingKeys); [|intros; only_adds].
    apply onlyAddsKeyEnums_bind;
      [apply onlyAddsKeyEnums_addImplicitCodingKeys|intros; only_adds].
  - intros [v b|e|td|f]; try solve [only_adds].
    destruct (isa_EnumDecl n).
    + apply onlyAddsKeyEnums_validateCodingKeysEnum_enum.
    + apply onlyAddsKeyEnums_validateCodingKeysEnum_varDecls.
Qed.

Lemma onlyAddsKeyEnums_lookupEvaluatedCodingKeysEnum n identifier :
  onlyAddsKeyEnums (lookupEvaluatedCodingKeysEnum n identifier).
Proof.
  unfold lookupEvaluatedCodingKeysEnum, dyn_cast_EnumDecl. only_adds.
Qed.

Lemma onlyAddsKeyEnums_addImplicitCaseCodingKeys elt ck :
  onlyAddsKeyEnums (addImplicitCaseCodingKeys elt ck).
Proof.
  unfold addImplicitCaseCodingKeys.
  destruct (lookupEnumCase ck (elt_name elt)); [|intros; only_adds].
  apply onlyAddsKeyEnums_bind; [|intros; only_adds].
  apply onlyAddsKeyEnums_addMember.
  destruct (hasAssociatedValues elt); [|reflexivity].
  apply (fold_EnumDecl_addMember_implicit
           (fun entry : nat * ParamDecl =>
              paramCodingIdentifier (fst entry) (snd entry))).
Qed.

Lemma onlyAddsKeyEnums_validateCaseCodingKeysEnum proto elt :
  onlyAddsKeyEnums (validateCaseCodingKeysEnum proto elt).
Proof.
  unfold validateCaseCodingKeysEnum.
  apply onlyAddsKeyEnums_bind; [only_adds|]. intros n.
  destruct (negb (isa_EnumDecl n)); [only_adds|].
  apply onlyAddsKeyEnums_bind;
    [apply onlyAddsKeyEnums_lookupEvaluatedCodingKeysEnum|].
  intros [ck|]; [|intros; only_adds].
  destruct (1 <? length (lookupDirect n (caseCodingKeysIdentifier elt)))%nat;
    [only_adds|].
  apply onlyAddsKeyEnums_bind.
  - destruct (lookupDirect n (caseCodingKeysIdentifier elt)); [|intros; only_adds].
    apply onlyAddsKeyEnums_bind;
      [apply onlyAddsKeyEnums_addImplicitCaseCodingKeys|intros; only_adds].
  - intros [[v b|e|td|f]|]; try solve [only_adds].
    apply onlyAddsKeyEnums_validateCodingKeysEnum_varDecls.
Qed.

Lemma onlyAddsKeyEnums_canSynthesize_superInit derived requirement :
  onlyAddsKeyEnums (canSynthesize_superInit derived requirement).
Proof.
  apply onlyAddsKeyEnums_preserving. intros s a s' H.
  destruct (canSynthesize_superInit_returns derived requirement s)
    as (ok & diags & Hrun).
  rewrite Hrun in H. injection H as _ <-. now exists diags.
Qed.

Lemma onlyAddsKeyEnums_canSynthesize_element derived elt acc :
  onlyAddsKeyEnums (canSynthesize_element derived elt acc).
Proof.
  destruct acc as [caseNames allValid]. unfold canSynthesize_element.
  apply onlyAddsKeyEnums_bind; [only_adds|]. intros [names valid].
  apply onlyAddsKeyEnums_bind.
  - destruct (hasAssociatedValues elt); [|intros; only_adds].
    apply onlyAddsKeyEnums_bind; [|intros [? ?]; only_adds].
    apply onlyAddsKeyEnums_forEach. intros e [params v].
    unfold canSynthesize_param. only_adds.
  - intros valid'.
    destruct (negb (existsb (String.eqb (elt_name elt)) caseNames));
      [|intros; only_adds].
    apply onlyAddsKeyEnums_bind;
      [apply onlyAddsKeyEnums_validateCaseCodingKeysEnum|].
    intros v. only_adds.
Qed.

Lemma onlyAddsKeyEnums_canSynthesize derived requirement :
  onlyAddsKeyEnums (canSynthesize derived requirement).
Proof.
  unfold canSynthesize.
  apply onlyAddsKeyEnums_bind;
    [apply onlyAddsKeyEnums_canSynthesize_superInit|].
  intros ok. destruct (negb ok); [only_adds|].
  apply onlyAddsKeyEnums_bind; [apply onlyAddsKeyEnums_validateCodingKeysEnum|].
  intros valid. destruct (negb valid); [only_adds|].
  apply onlyAddsKeyEnums_bind; [only_adds|]. intros n.
  destruct (isa_EnumDecl n); [|intros; only_adds].
  apply onlyAddsKeyEnums_bind; [|intros [? ?]; only_adds].
  apply onlyAddsKeyEnums_forEach. intros elt acc.
  apply onlyAddsKeyEnums_canSynthesize_element.
Qed.

Lemma getStoredProperties_withKeyEnums n added :
  getStoredProperties (withKeyEnums n added) = getStoredProperties n.
Proof.
  unfold getStoredProperties, withKeyEnums; simpl. rewrite flat_map_app.
  assert (H : flat_map (fun d => match d with
                                 | VD_Var v _ =>
                                     if var_hasStorage v && negb (var_isStatic v)
                                     then [v] else []
                                 | _ => []
                                 end) (map EnumDecl_asMember added) = []).
  { induction added as [|e added IH]; [reflexivity|exact IH]. }
  rewrite H. apply app_nil_r.
Qed.

(** X11. Whatever its answer, [canSynthesize] changes the type only by
    appending implicit key enumerations to its members: the name and kind of
    the type, its stored properties and its cases are as before, every
    declaration that was there is still there in the same order, and the
    diagnostics emitted so far are only extended. *)
Theorem X11_canSynthesize_only_adds_key_enumerations :
  forall (derived : DerivedConformance) (requirement : DeclName)
         (s s' : SemaState) (ok : bool),
    canSynthesize derived requirement s = Returned ok s' ->
    exists (added : list EnumDecl) (diags : list Diagnostic),
      nominal_members (Nominal s') =
        nominal_members (Nominal s) ++ map EnumDecl_asMember added
      /\ forallb enum_isImplicit added = true
      /\ nominal_name (Nominal s') = nominal_name (Nominal s)
      /\ nominal_kind (Nominal s') = nominal_kind (Nominal s)
      /\ getStoredProperties (Nominal s') = getStoredProperties (Nominal s)
      /\ getAllElements (Nominal s') = getAllElements (Nominal s)
      /\ Diags s' = Diags s ++ diags.
Proof.
  intros derived requirement s s' ok H.
  destruct (onlyAddsKeyEnums_canSynthesize derived requirement _ _ _ H)
    as (added & diags & -> & Himpl).
  exists added, diags. cbn [Nominal Diags].
  rewrite getStoredProperties_withKeyEnums, getAllElements_withKeyEnums.
  repeat split; try reflexivity. exact Himpl.
Qed.

Lemma X11_canSynthesize_only_adds_witness :
  exists (added : list EnumDecl) (diags : list Diagnostic),
    added = [ {| enum_name := "LoadCodingKeys"; enum_elements := ["key"; "_1"];
                 enum_isImplicit := true |} ]
    /\ nominal_members ex_Command_keyed =
         nominal_members ex_Command ++ map EnumDecl_asMember added
    /\ diags = [].
Proof.
  destruct (X11_canSynthesize_only_adds_key_enumerations
              derivingDecodable initRequirement (initialState ex_Command)
              (initialState ex_Command_keyed) true eq_refl)
    as (added & diags & Hmembers & _ & _ & _ & _ & _ & Hdiags).
  exists added, diags. simpl in Hmembers, Hdiags.
  assert (Hadded : map EnumDecl_asMember added =
                   [EnumDecl_asMember
                      {| enum_name := "LoadCodingKeys";
                         enum_elements := ["key"; "_1"];
                         enum_isImplicit := true |}]).
  { injection Hmembers as Hm. exact (eq_sym Hm). }
  split.
  - destruct added as [|e [|e' rest]]; try discriminate.
    injection Hadded as ->. reflexivity.
  - split; [exact Hmembers|]. now subst diags.
Defined.

(** X12. [deriveEncodable] and [deriveDecodable] are all or nothing.
    When they return a declaration, the type has gained, besides implicit
    key enumerations, exactly that one function ([encode] resp. [init]),
    added last, and the body chosen for it is the enum variant exactly for
    an enum.  When they return null, no function is added, and if
    [canSynthesize] had been reached (a struct, class or enum, the expected
    requirement, an allowed context) the last two diagnostics are "type does
    not conform" and "no witnesses" for the requirement. *)
Theorem X12_derive_is_all_or_nothing :
  forall (derived : DerivedConformance) (requirement : DeclName)
         (s s' : SemaState) (result : option SynthesizedFunction)
         (encoding : bool),
    (if encoding then deriveEncodable derived requirement s
     else deriveDecodable derived requirement s) = Returned result s' ->
    exists (added : list EnumDecl) (diags : list Diagnostic),
      forallb enum_isImplicit added = true
      /\ Diags s' = Diags s ++ diags
      /\ match result with
         | Some fn =>
             Nominal s' =
               NominalTypeDecl_addMember
                 (withKeyEnums (Nominal s) added)
                 (VD_Func (if encoding then "encode" else "init"))
             /\ fn_name fn = (if encoding then encodeRequirement
                              else initRequirement)
             /\ fn_bodySynthesizer fn =
                  (if isa_EnumDecl (Nominal s)
                   then (if encoding then BodyEncodable_enum_encode
                         else BodyDecodable_enum_init)
                   else (if encoding then BodyEncodable_encode
                         else BodyDecodable_init))
         | None =>
             Nominal s' = withKeyEnums (Nominal s) added
             /\ (isa_Struct_Class_or_Enum (Nominal s) = true ->
                 name_base requirement = (if encoding then "encode" else "init") ->
                 InDisallowedContext derived = false ->
                 exists before,
                   diags =
                     before
                     ++ [type_does_not_conform (nominal_name (Nominal s))
                                               (Protocol derived);
                         no_witnesses requirement (Protocol derived)])
         end.
Proof.
  intros derived requirement s s' result encoding H.
  destruct encoding.
  - unfold deriveEncodable, bind, getNominal in H.
    destruct (isa_Struct_Class_or_Enum (Nominal s)) eqn:Hkind; simpl in H.
    2:{ injection H as <- <-. exists [], [].
        rewrite withKeyEnums_nil, app_nil_r.
        repeat split; try reflexivity. discriminate. }
    destruct (String.eqb (name_base requirement) Id_encode) eqn:Hname;
      simpl in H.
    2:{ injection H as <- <-. exists [], [broken_encodable_requirement].
        cbn [Nominal Diags]. rewrite withKeyEnums_nil.
        repeat split; try reflexivity. intros _ Hn.
        rewrite Hn in Hname. discriminate. }
    destruct (InDisallowedContext derived) eqn:Hctx.
    { injection H as <- <-. exists [], [].
      rewrite withKeyEnums_nil, app_nil_r.
      repeat split; try reflexivity. discriminate. }
    destruct (canSynthesize derived requirement s) as [ok s1|t] eqn:Hcan;
      [|discriminate].
    destruct (onlyAddsKeyEnums_canSynthesize derived requirement _ _ _ Hcan)
      as (added & diags & -> & Himpl).
    destruct ok; simpl in H.
    + unfold deriveEncodable_encode, bind, getNominal, addMember, ret in H.
      cbn [Nominal Diags] in H. injection H as <- <-.
      exists added, diags. cbn [Nominal Diags].
      repeat split; try reflexivity. exact Himpl.
    + unfold diagnose, ret in H. cbn [Nominal Diags] in H.
      injection H as <- <-.
      exists added,
        (diags ++ [type_does_not_conform (nominal_name (Nominal s))
                                         (Protocol derived);
                   no_witnesses requirement (Protocol derived)]).
      cbn [Nominal Diags]. split; [exact Himpl|]. split.
      * now rewrite <- !app_assoc.
      * split; [reflexivity|]. intros _ _ _. now exists diags.
  - unfold deriveDecodable, bind, getNominal in H.
    destruct (isa_Struct_Class_or_Enum (Nominal s)) eqn:Hkind; simpl in H.
    2:{ injection H as <- <-. exists [], [].
        rewrite withKeyEnums_nil, app_nil_r.
        repeat split; try reflexivity. discriminate. }
    destruct (String.eqb (name_base requirement) Id_init) eqn:Hname;
      simpl in H.
    2:{ injection H as <- <-. exists [], [broken_decodable_requirement].
        cbn [Nominal Diags]. rewrite withKeyEnums_nil.
        repeat split; try reflexivity. intros _ Hn.
        rewrite Hn in Hname. discriminate. }
    destruct (InDisallowedContext derived) eqn:Hctx.
    { injection H as <- <-. exists [], [].
      rewrite withKeyEnums_nil, app_nil_r.
      repeat split; try reflexivity. discriminate. }
    destruct (canSynthesize derived requirement s) as [ok s1|t] eqn:Hcan;
      [|discriminate].
    destruct (onlyAddsKeyEnums_canSynthesize derived requirement _ _ _ Hcan)
      as (added & diags & -> & Himpl).
    destruct ok; simpl in H.
    + unfold deriveDecodable_init, bind, getNominal, addMember, ret in H.
      cbn [Nominal Diags] in H. injection H as <- <-.
      exists added, diags. cbn [Nominal Diags].
      repeat split; try reflexivity. exact Himpl.
    + unfold diagnose, ret in H. cbn [Nominal Diags] in H.
      injection H as <- <-.
      exists added,
        (diags ++ [type_does_not_conform (nominal_name (Nominal s))
                                         (Protocol derived);
                   no_witnesses requirement (Protocol derived)]).
      cbn [Nominal Diags]. split; [exact Himpl|]. split.
      * now rewrite <- !app_assoc.
      * split; [reflexivity|]. intros _ _ _. now exists diags.
Qed.

Lemma X12_derive_is_all_or_nothing_witness :
  exists (fn : SynthesizedFunction) (s' : SemaState) (added : list EnumDecl),
    deriveEncodable derivingEncodable encodeRequirement (initialState ex_Person)
      = Returned (Some fn) s'
    /\ Nominal s' =
         NominalTypeDecl_addMember (withKeyEnums ex_Person added)
                                   (VD_Func "encode")
    /\ fn_bodySynthesizer fn = BodyEncodable_encode.
Proof.
  destruct (X12_derive_is_all_or_nothing
              derivingEncodable encodeRequirement (initialState ex_Person)
              _ _ true eq_refl)
    as (added & diags & _ & _ & Hnom & _ & Hbody).
  eexists. eexists. exists added.
  split; [reflexivity|]. split; [exact Hnom|exact Hbody].
Defined.

(** ** When the body synthesisers of an enum produce a body *)

Lemma forEach_trapped {A S} (xs : list A) (body : A -> S -> Sema S) :
  (exists x, In x xs /\ forall acc s, exists t, body x acc s = Trapped t) ->
  forall acc s, exists t, forEach xs body acc s = Trapped t.
Proof.
  induction xs as [|x xs IH]; intros (x0 & Hin & Hx0) acc s.
  - destruct Hin.
  - rewrite forEach_cons.
    destruct (body x acc s) as [acc' s'|t] eqn:Hstep; [|now exists t].
    destruct Hin as [->|Hin].
    + destruct (Hx0 acc s) as (t & Ht). congruence.
    + apply IH. eauto.
Qed.

Lemma lookupEvaluatedCodingKeysEnum_none target identifier s :
  evaluatedCodingKeysEnum target identifier = None ->
  lookupEvaluatedCodingKeysEnum target identifier s = Returned None s
  \/ exists t, lookupEvaluatedCodingKeysEnum target identifier s = Trapped t.
Proof.
  unfold evaluatedCodingKeysEnum, lookupEvaluatedCodingKeysEnum.
  destruct (lookupDirect target identifier) as [|d rest]; [now left|].
  destruct d as [v b|elt|t|f]; try (now left).
  destruct t as [n c|name [n|] c]; simpl.
  - destruct n; [discriminate|now left].
  - destruct n; [discriminate|now left].
  - intros _. right. eexists. reflexivity.
Qed.

Lemma forallb_false_exists {A} (f : A -> bool) (l : list A) :
  forallb f l = false -> exists x, In x l /\ f x = false.
Proof.
  induction l as [|x l IH]; simpl; [discriminate|].
  destruct (f x) eqn:E; simpl.
  - intros H. destruct (IH H) as (y & Hy & Hfy). exists y. auto.
  - intros _. exists x. auto.
Qed.

Lemma deriveBodyDecodable_enum_init_case_traps target ck container elt :
  hasCodingKey ck elt = true ->
  caseValidatedForDecoding target elt = false ->
  forall cases s,
  exists t,
    deriveBodyDecodable_enum_init_case target ck container elt cases s =
      Trapped t.
Proof.
  unfold hasCodingKey, caseValidatedForDecoding,
    deriveBodyDecodable_enum_init_case.
  intros Hkey Hnot cases s.
  destruct (lookupEnumCase ck (elt_name elt)) as [k|]; [|discriminate].
  unfold bind at 1.
  destruct (evaluatedCodingKeysEnum target (caseCodingKeysIdentifier elt))
    as [cck|] eqn:Hcck.
  - rewrite (lookupEvaluatedCodingKeysEnum_view _ _ _ _ Hcck).
    apply forallb_false_exists in Hnot. destruct Hnot as (entry & Hin & Hslot).
    assert (Hassoc : hasAssociatedValues elt = true).
    { unfold hasAssociatedValues, getParameterList in *.
      destruct (elt_params elt); [reflexivity|destruct Hin]. }
    rewrite Hassoc. unfold bind at 1.
    destruct (forEach_trapped
                (enumerate (getParameterList elt))
                (deriveBodyDecodable_enum_init_param
                   cck
                   (createKeyedContainer KeyedDecodingContainerDecl
                                         (DeclaredType (enum_name cck))
                                         Var Id_nestedContainer)))
      with (acc := (@nil Expr, @nil Identifier)) (s := s) as (t & ->).
    + exists entry. split; [exact Hin|]. intros [calls labels] s0.
      unfold deriveBodyDecodable_enum_init_param.
      unfold slotHasKeyOrDefault, hasDefaultExpr in Hslot.
      destruct (lookupEnumCase cck (paramCodingIdentifier (fst entry) (snd entry)));
        [discriminate|].
      destruct (param_defaultExpr (snd entry)); [discriminate|].
      eexists. reflexivity.
    + now exists t.
  - destruct (lookupEvaluatedCodingKeysEnum_none _ _ s Hcck) as [-> |(t & ->)];
      eexists; reflexivity.
Qed.

(** X13. For an enum whose [CodingKeys] has at least one case, the
    synthesiser of [init(from:)] produces a body exactly when every case
    that has a key also has a per-case key enumeration in which each payload
    slot has a key or else a default expression: otherwise it stops at a
    failed assertion or a null dereference, which is why [canSynthesize]
    must have validated the type first.  The body, when there is one, is
    produced without diagnostics. *)
Theorem X13_enum_decode_body_needs_validated_cases :
  forall (s : SemaState) (codingKeysEnum : EnumDecl),
    evaluatedCodingKeysEnum (Nominal s) Id_CodingKeys = Some codingKeysEnum ->
    hasCases codingKeysEnum = true ->
    (casesReadyForDecoding (Nominal s) codingKeysEnum = true ->
     exists stmts, deriveBodyDecodable_enum_init s = Returned stmts s)
    /\ (casesReadyForDecoding (Nominal s) codingKeysEnum = false ->
        exists t, deriveBodyDecodable_enum_init s = Trapped t).
Proof.
  intros s ck Hck Hcases. split.
  - intros Hready.
    destruct (deriveBodyDecodable_enum_init_spec s ck Hck Hcases Hready)
      as (cases & Hrun & _).
    eexists. exact Hrun.
  - intros Hnot. unfold casesReadyForDecoding in Hnot.
    apply forallb_false_exists in Hnot. destruct Hnot as (elt & Hin & Helt).
    apply orb_false_elim in Helt. destruct Helt as [Hkey Hcase].
    apply negb_false_iff in Hkey.
    unfold deriveBodyDecodable_enum_init, bind, getNominal.
    rewrite (requireCodingKeysEnum_view _ _ _ Hck), Hcases.
    destruct (forEach_trapped
                (getAllElements (Nominal s))
                (deriveBodyDecodable_enum_init_case
                   (Nominal s) ck
                   (DeclRefExpr
                      (svd_name
                         (createKeyedContainer
                            KeyedDecodingContainerDecl
                            (DeclaredType (enum_name ck)) Let Id_container))
                      DirectToStorage)))
      with (acc := @nil CaseStmt) (s := s) as (t & ->).
    + exists elt. split; [exact Hin|].
      now apply deriveBodyDecodable_enum_init_case_traps.
    + now exists t.
Qed.

Lemma X13_enum_decode_body_witness :
  (exists stmts,
      deriveBodyDecodable_enum_init (initialState ex_Command_keyed) =
        Returned stmts (initialState ex_Command_keyed))
  /\ exists t,
       deriveBodyDecodable_enum_init (initialState ex_Command) = Trapped t.
Proof.
  split.
  - exact (proj1 (X13_enum_decode_body_needs_validated_cases
                    (initialState ex_Command_keyed)
                    {| enum_name := Id_CodingKeys;
                       enum_elements := ["load"; "store"];
                       enum_isImplicit := false |} eq_refl eq_refl)
                 eq_refl).
  - exact (proj2 (X13_enum_decode_body_needs_validated_cases
                    (initialState ex_Command)
                    {| enum_name := Id_CodingKeys;
                       enum_elements := ["load"; "store"];
                       enum_isImplicit := false |} eq_refl eq_refl)
                 eq_refl).
Defined.

(** ** The encode branch of a case that has a key *)









(** ** The branches of the decode switch of an enum *)

Lemma Forall2_decodedCase_labels target ck elts cases :
  Forall2 (decodedCase target ck) elts cases ->
  map case_label cases =
    map (fun elt =>
           OptionalSomePattern
             (EnumElementPattern (DeclaredType (enum_name ck))
                                 (elt_name elt) None))
        elts
  /\ forall c, In c cases ->
               exists nested nestedDecl value,
                 case_body c =
                   [nested; nestedDecl;
                    N_Expr (AssignExpr (DeclRefExpr "self" Ordinary) value)].
Proof.
  induction 1 as [|elt c elts cases Hc _ [IHl IHb]].
  - split; [reflexivity|intros c []].
  - split.
    + simpl. now rewrite (decodedCase_label _ _ _ _ Hc), IHl.
    + intros c' [<-|Hin]; [|now apply IHb].
      destruct Hc as (cck & args & _ & _ & _ & ->). simpl.
      do 3 eexists. reflexivity.
Qed.

(** X15. The synthesised [init(from:)] of an enum binds the container,
    guards on the number of keys, and switches over
    [container.allKeys.first]; the switch has exactly one branch per case
    that has a key in [CodingKeys], in declaration order, labelled
    [.some(CodingKeys.<case>)]; a case without key gets no branch and there
    is no default branch.  The branch of a case binds
    [var nestedContainer = try container.nestedContainer(keyedBy:
    <Case>CodingKeys.self, forKey: CodingKeys.<case>)] and then assigns to
    [self] the case constructed from one argument per payload slot (a
    [decode] call on the nested container for a slot with a key, the default
    expression of the slot otherwise).  When [CodingKeys] has no case at
    all, the body of the initialiser is empty. *)
Theorem X15_enum_decode_switch_branches :
  forall (s : SemaState) (codingKeysEnum : EnumDecl),
    evaluatedCodingKeysEnum (Nominal s) Id_CodingKeys = Some codingKeysEnum ->
    casesReadyForDecoding (Nominal s) codingKeysEnum = true ->
    if hasCases codingKeysEnum then
      exists cases : list CaseStmt,
        deriveBodyDecodable_enum_init s =
          Returned
            [N_PatternBinding
               (NamedPattern "container")
               (TryExpr
                  (CallExpr
                     (UnresolvedDotExpr (DeclRefExpr "decoder" Ordinary)
                                        "container" (Some ["keyedBy"]))
                     [DotSelfExpr
                        (TypeExpr (DeclaredType (enum_name codingKeysEnum)))]
                     ["keyedBy"]));
             N_VarDecl "container" Let
                       (BoundGenericType
                          "KeyedDecodingContainer"
                          (DeclaredType (enum_name codingKeysEnum)));
             spec_exactlyOneKeyGuard
               (nominal_name (Nominal s))
               "Invalid number of keys found, expected one.";
             N_Switch
               (UnresolvedDotExpr
                  (UnresolvedDotExpr (DeclRefExpr "container" DirectToStorage)
                                     "allKeys" None)
                  "first" None)
               cases] s
        /\ Forall2 (decodedCase (Nominal s) codingKeysEnum)
                   (filter (hasCodingKey codingKeysEnum)
                           (getAllElements (Nominal s)))
                   cases
        /\ map case_label cases =
             map (fun elt =>
                    OptionalSomePattern
                      (EnumElementPattern
                         (DeclaredType (enum_name codingKeysEnum))
                         (elt_name elt) None))
                 (filter (hasCodingKey codingKeysEnum)
                         (getAllElements (Nominal s)))
        /\ forall c, In c cases ->
                     exists nested nestedDecl value,
                       case_body c =
                         [nested; nestedDecl;
                          N_Expr (AssignExpr (DeclRefExpr "self" Ordinary)
                                             value)]
    else deriveBodyDecodable_enum_init s = Returned [] s.
Proof.
  intros s ck Hck Hready.
  pose proof (deriveBodyDecodable_enum_init_full s ck Hck Hready) as Hfull.
  destruct (hasCases ck); [|exact Hfull].
  destruct Hfull as (cases & Hrun & HF).
  exists cases. split; [exact Hrun|]. split; [exact HF|].
  exact (Forall2_decodedCase_labels _ _ _ _ HF).
Qed.

Lemma X15_enum_decode_switch_branches_witness :
  exists cases : list CaseStmt,
    Forall2 (decodedCase
               ex_Command_keyed
               {| enum_name := Id_CodingKeys; enum_elements := ["load"; "store"];
                  enum_isImplicit := false |})
            (filter (hasCodingKey
                       {| enum_name := Id_CodingKeys;
                          enum_elements := ["load"; "store"];
                          enum_isImplicit := false |})
                    (getAllElements ex_Command_keyed))
            cases
    /\ map case_label cases =
         [OptionalSomePattern
            (EnumElementPattern (DeclaredType "CodingKeys") "load" None);
          OptionalSomePattern
            (EnumElementPattern (DeclaredType "CodingKeys") "store" None)].
Proof.
  destruct (X15_enum_decode_switch_branches
              (initialState ex_Command_keyed)
              {| enum_name := Id_CodingKeys; enum_elements := ["load"; "store"];
                 enum_isImplicit := false |} eq_refl eq_refl)
    as (cases & _ & HF & Hlabels & _).
  exists cases. split; [exact HF|exact Hlabels].
Defined.

(** ** From a struct without keys to its encode body *)

Lemma lookupVarDeclForCodingKeysCase_in_app (l1 l2 : list ValueDecl) :
  (forall d, In d l2 -> match d with VD_Var _ _ => False | _ => True end) ->
  lookupVarDeclForCodingKeysCase_in (l1 ++ l2) =
  lookupVarDeclForCodingKeysCase_in l1.
Proof.
  intros Hl2. induction l1 as [|d l1 IH]; simpl.
  - induction l2 as [|d l2 IH2]; [reflexivity|].
    pose proof (Hl2 d (or_introl eq_refl)) as Hd.
    destruct d; try contradiction; simpl; apply IH2;
      intros d' Hd'; apply Hl2; now right.
  - destruct d as [v b|e|t|f]; try exact IH.
    destruct (negb (var_isStatic match b with Some b0 => b0 | None => v end));
      [reflexivity|exact IH].
Qed.

Lemma resolvedMember_addMember n d key :
  match d with VD_Var _ _ => False | _ => True end ->
  resolvedMember (NominalTypeDecl_addMember n d) key = resolvedMember n key.
Proof.
  intros Hd. unfold resolvedMember, lookupDirect, NominalTypeDecl_addMember.
  cbn [nominal_members]. rewrite filter_app.
  apply lookupVarDeclForCodingKeysCase_in_app.
  intros d' Hd'. apply filter_In in Hd'. destruct Hd' as [[<-|[]] _].
  exact Hd.
Qed.

(** X16. End to end for [Encodable]: for a struct, or a class whose
    superclass conforms to neither protocol, that declares no [CodingKeys],
    whose user-accessible stored properties have pairwise distinct coding
    names and [Encodable] types and can each be looked up under their
    coding name, [deriveEncodable] succeeds without any diagnostic, adds
    the implicit [CodingKeys] and then [encode] to the type, and the body
    synthesiser it returns then produces, without failing, the binding
    [var container = encoder.container(keyedBy: CodingKeys.self)] followed
    by exactly one encode call per such property, in declaration order. *)
Theorem X16_encodable_struct_end_to_end :
  forall (derived : DerivedConformance) (requirement : DeclName) (s : SemaState),
    Protocol derived = Encodable ->
    InDisallowedContext derived = false ->
    name_base requirement = "encode" ->
    isa_Struct_Class_or_Enum (Nominal s) = true ->
    isa_EnumDecl (Nominal s) = false ->
    lookupDirect (Nominal s) Id_CodingKeys = [] ->
    superclassConformsTo (dyn_cast_ClassDecl (Nominal s)) Encodable = false ->
    superclassConformsTo (dyn_cast_ClassDecl (Nominal s)) Decodable = false ->
    NoDup (map getVarNameForCoding
               (filter var_isUserAccessible (getStoredProperties (Nominal s)))) ->
    forallb (fun v => conformsToProtocol (var_type v) Encodable)
            (filter var_isUserAccessible (getStoredProperties (Nominal s)))
      = true ->
    (forall v, In v (filter var_isUserAccessible
                            (getStoredProperties (Nominal s))) ->
               resolvedMember (Nominal s) (getVarNameForCoding v) <> None) ->
    exists (fn : SynthesizedFunction) (s' : SemaState) (calls : list ASTNode),
      deriveEncodable derived requirement s = Returned (Some fn) s'
      /\ Diags s' = Diags s
      /\ nominal_members (Nominal s') =
           nominal_members (Nominal s)
           ++ [EnumDecl_asMember (implicitCodingKeys (Nominal s));
               VD_Func "encode"]
      /\ runBodySynthesizer (fn_bodySynthesizer fn) s' =
           Returned
             ([N_PatternBinding
                 (NamedPattern "container")
                 (CallExpr
                    (UnresolvedDotExpr (DeclRefExpr "encoder" Ordinary)
                                       "container" (Some ["keyedBy"]))
                    [DotSelfExpr (TypeExpr (DeclaredType "CodingKeys"))]
                    ["keyedBy"]);
               N_VarDecl "container" Var
                         (BoundGenericType "KeyedEncodingContainer"
                                           (DeclaredType "CodingKeys"))]
              ++ calls) s'
      /\ calls =
           flat_map (spec_encodeStatementsForKey
                       (Nominal s) (implicitCodingKeys (Nominal s)))
                    (map getVarNameForCoding
                         (filter var_isUserAccessible
                                 (getStoredProperties (Nominal s))))
      /\ length calls =
           length (filter var_isUserAccessible
                          (getStoredProperties (Nominal s))).
Proof.
  intros derived requirement s Hproto Hctx Hname Hkind Henum Hlookup
         Henc Hdec Hnd Hconf Hres.
  set (vars := filter var_isUserAccessible (getStoredProperties (Nominal s)))
    in *.
  set (ck := implicitCodingKeys (Nominal s)).
  assert (Hkeys : enum_elements ck = map getVarNameForCoding vars).
  { unfold ck, implicitCodingKeys. cbn [enum_elements].
    now rewrite Henc, Hdec. }
  (* validation of the implicit key enumeration *)
  assert (Hval : validateCodingKeysEnum Encodable s =
                 Returned true (withKeyEnum s ck)).
  { rewrite (validateCodingKeysEnum_implicit _ _ Henum Hlookup).
    fold ck. unfold validateCodingKeysEnum_varDecls, bind.
    rewrite (validateCodingKeysType_enum
               _ (NominalDecl (EnumNominal ck) true) ck _ eq_refl eq_refl).
    rewrite Hkeys. unfold storedPropertiesByName.
    rewrite (storedProperties_fold _ [] Hnd) by (intros; reflexivity).
    cbn [app]. fold vars.
    destruct (keysAllMatched_own_names Encodable vars Hconf) as [Hm _].
    now rewrite (validateCodingKeysEnum_case_loop_matched _ _ _ _ _ Hm). }
  set (s' := {| Nominal := NominalTypeDecl_addMember
                            (Nominal (withKeyEnum s ck)) (VD_Func "encode");
                Diags := Diags s |}).
  assert (Hderive : exists fn,
             deriveEncodable derived requirement s = Returned (Some fn) s'
             /\ fn_bodySynthesizer fn = BodyEncodable_encode).
  { unfold deriveEncodable, bind, getNominal.
    rewrite Hkind, Hname, Hctx.
    change (String.eqb "encode" Id_encode) with true. cbn [negb].
    unfold canSynthesize, bind.
    rewrite (canSynthesize_superInit_encodable _ _ _ Hproto). cbn [negb].
    rewrite Hproto, Hval. cbn [negb]. unfold getNominal.
    change (isa_EnumDecl (Nominal (withKeyEnum s ck)))
      with (isa_EnumDecl (Nominal s)).
    rewrite Henum. unfold ret at 1. cbn [negb].
    unfold deriveEncodable_encode, bind, getNominal, addMember, ret.
    change (isa_EnumDecl (Nominal (withKeyEnum s ck)))
      with (isa_EnumDecl (Nominal s)).
    rewrite Henum. eexists. split; reflexivity. }
  destruct Hderive as (fn & Hderive & Hbody).
  assert (Heval : evaluatedCodingKeysEnum (Nominal s') Id_CodingKeys = Some ck).
  { unfold evaluatedCodingKeysEnum, lookupDirect, s', withKeyEnum.
    cbn [Nominal NominalTypeDecl_addMember nominal_members].
    rewrite !filter_app. fold (lookupDirect (Nominal s) Id_CodingKeys).
    rewrite Hlookup. reflexivity. }
  assert (Hsame : forall key,
             resolvedMember (Nominal s') key = resolvedMember (Nominal s) key).
  { intros key. unfold s', withKeyEnum. cbn [Nominal].
    rewrite resolvedMember_addMember by exact I.
    now rewrite resolvedMember_addMember by exact I. }
  assert (Hsuper : superclassConformsTo (dyn_cast_ClassDecl (Nominal s'))
                                        Encodable = false) by exact Henc.
  assert (Hspec : forall keys,
             flat_map (spec_encodeStatementsForKey (Nominal s') ck) keys =
             flat_map (spec_encodeStatementsForKey (Nominal s) ck) keys).
  { intros keys. induction keys as [|k keys IH]; [reflexivity|].
    cbn [flat_map]. rewrite IH. unfold spec_encodeStatementsForKey.
    now rewrite Hsame. }
  exists fn, s',
    (flat_map (spec_encodeStatementsForKey (Nominal s) ck)
              (map getVarNameForCoding vars)).
  split; [exact Hderive|]. split; [reflexivity|]. split.
  { unfold s', withKeyEnum.
    cbn [Nominal NominalTypeDecl_addMember nominal_members].
    now rewrite <- app_assoc. }
  split.
  { rewrite Hbody. cbn [runBodySynthesizer].
    unfold deriveBodyEncodable_encode, bind, getNominal.
    rewrite (requireCodingKeysEnum_view _ _ _ Heval). simpl svd_name.
    rewrite (deriveBodyEncodable_encode_key_loop (Nominal s') ck).
    - rewrite Hsuper, Hkeys, Hspec. reflexivity.
    - intros key Hin. rewrite Hkeys in Hin. apply in_map_iff in Hin.
      destruct Hin as (v & <- & Hv). rewrite Hsame. now apply Hres. }
  split; [reflexivity|].
  clear - Hres. induction vars as [|v vars IH]; [reflexivity|].
  cbn [map flat_map]. rewrite length_app. cbn [length]. rewrite IH.
  - unfold spec_encodeStatementsForKey.
    pose proof (Hres v (or_introl eq_refl)) as Hv.
    destruct (resolvedMember (Nominal s) (getVarNameForCoding v))
      as [[[m t] b]|]; [reflexivity|congruence].
  - intros v' Hv'. apply Hres. now right.
Qed.

Lemma X16_encodable_struct_end_to_end_witness :
  exists (fn : SynthesizedFunction) (s' : SemaState) (calls : list ASTNode),
    deriveEncodable derivingEncodable encodeRequirement (initialState ex_Person)
      = Returned (Some fn) s'
    /\ runBodySynthesizer (fn_bodySynthesizer fn) s' =
         Returned
           ([N_PatternBinding
               (NamedPattern "container")
               (CallExpr
                  (UnresolvedDotExpr (DeclRefExpr "encoder" Ordinary)
                                     "container" (Some ["keyedBy"]))
                  [DotSelfExpr (TypeExpr (DeclaredType "CodingKeys"))]
                  ["keyedBy"]);
             N_VarDecl "container" Var
                       (BoundGenericType "KeyedEncodingContainer"
                                         (DeclaredType "CodingKeys"))]
            ++ calls) s'
    /\ length calls = 3.
Proof.
  destruct (X16_encodable_struct_end_to_end
              derivingEncodable encodeRequirement (initialState ex_Person)
              eq_refl eq_refl eq_refl eq_refl eq_refl eq_refl eq_refl eq_refl)
    as (fn & s' & calls & Hrun & _ & _ & Hbody & _ & Hlen).
  - repeat constructor; simpl; intuition discriminate.
  - reflexivity.
  - intros v [<-|[<-|[<-|[]]]]; discriminate.
  - exists fn, s', calls.
    split; [exact Hrun|]. split; [exact Hbody|exact Hlen].
Defined.

(** ** The duplicate check on the payload slots of a case *)

Lemma ParamMap_find_app_fresh m k v k' :
  ParamMap_find m k' = None -> k <> k' ->
  ParamMap_find (m ++ [(k, v)]) k' = None.
Proof.
  intros Hm Hne. induction m as [|[k0 v0] m IH]; simpl in *.
  - destruct (String.eqb k k') eqn:E; [|reflexivity].
    apply String.eqb_eq in E. contradiction.
  - destruct (String.eqb k0 k'); [discriminate|]. now apply IH.
Qed.

Lemma canSynthesize_param_loop_distinct derived elt entries :
  forall params valid s,
    NoDup (map slotCodingName entries) ->
    (forall e, In e entries -> ParamMap_find params (slotCodingName e) = None) ->
    forEach entries (canSynthesize_param derived elt) (params, valid) s =
      Returned (params ++ map (fun e => (slotCodingName e, snd e)) entries,
                valid) s.
Proof.
  induction entries as [|e entries IH]; intros params valid s Hnd Hfresh.
  - rewrite forEach_nil. simpl. now rewrite app_nil_r.
  - rewrite forEach_cons. unfold canSynthesize_param at 1.
    fold (slotCodingName e).
    rewrite (Hfresh e (or_introl eq_refl)). unfold ret at 1.
    inversion Hnd as [|? ? Hnotin Hnd']; subst.
    rewrite IH; [simpl; now rewrite <- app_assoc|exact Hnd'|].
    intros e' He'. apply ParamMap_find_app_fresh.
    + apply Hfresh. now right.
    + intros Heq. apply Hnotin. rewrite Heq. now apply in_map.
Qed.



Lemma to_string_inj (i j : nat) : to_string i = to_string j -> i = j.
Proof.
  unfold to_string. intros H.
  assert (Hnn : forall n, Nat.to_uint n <> Decimal.Nil).
  { intros n E. pose proof (Unsigned.of_to n) as Ho. rewrite E in Ho.
    simpl in Ho. subst n. discriminate E. }
  apply Unsigned.to_uint_inj.
  apply (f_equal NilZero.uint_of_string) in H.
  rewrite !NilZero.usu in H by apply Hnn. congruence.
Qed.

Lemma combine_seq_fst_NoDup {A} (xs : list A) :
  forall start, NoDup (map fst (combine (seq start (length xs)) xs)).
Proof.
  induction xs as [|x xs IH]; intros start; simpl; constructor.
  - intros Hin. apply in_map_iff in Hin. destruct Hin as ([i y] & Hi & Hin).
    simpl in Hi. subst i. apply in_combine_l in Hin. apply in_seq in Hin. lia.
  - apply IH.
Qed.

Lemma NoDup_map_injective {A B} (f : A -> B) (l : list A) :
  (forall x y, f x = f y -> x = y) -> NoDup l -> NoDup (map f l).
Proof.
  intros Hinj. induction 1 as [|x l Hnotin _ IH]; simpl; constructor.
  - intros Hin. apply in_map_iff in Hin. destruct Hin as (y & Hy & Hin).
    apply Hinj in Hy. now subst y.
  - exact IH.
Qed.

(** X18. The generated names of unlabeled payload slots never collide
    with each other: in a case all of whose payload slots are unlabeled,
    the keys [_0], [_1], ... are pairwise distinct, so the duplicate check
    of [canSynthesize] always passes for it without a diagnostic. *)
Theorem X18_unlabeled_payload_slots_never_collide :
  forall (derived : DerivedConformance) (elt : EnumElementDecl) (s : SemaState),
    forallb (fun p => Identifier_isEmpty (param_name p)) (getParameterList elt)
      = true ->
    NoDup (enum_elements (implicitCaseCodingKeys elt))
    /\ exists params,
         forEach (enumerate (getParameterList elt))
                 (canSynthesize_param derived elt) ([], true) s =
           Returned (params, true) s.
Proof.
  intros derived elt s Hall.
  assert (Hnd : NoDup (map slotCodingName (enumerate (getParameterList elt)))).
  { assert (Hnames : map slotCodingName (enumerate (getParameterList elt)) =
                     map (fun e => ("_" ++ to_string (fst e))%string)
                         (enumerate (getParameterList elt))).
    { apply map_ext_in. intros [i p] Hin.
      apply enumerate_In, nth_error_In in Hin.
      rewrite forallb_forall in Hall. specialize (Hall p Hin).
      unfold slotCodingName, paramCodingIdentifier. cbn [fst snd].
      change (getVarNameForCoding (ParamDecl_asVarDecl p)) with (param_name p).
      now rewrite Hall. }
    rewrite Hnames.
    rewrite <- (map_map fst (fun i => ("_" ++ to_string i)%string)).
    apply NoDup_map_injective.
    - intros i j [= H]. now apply to_string_inj.
    - apply combine_seq_fst_NoDup. }
  split; [exact Hnd|].
  eexists.
  apply (canSynthesize_param_loop_distinct derived elt _ [] true s Hnd).
  intros e _. reflexivity.
Qed.

Lemma X18_unlabeled_payload_slots_witness :
  NoDup ["_0"; "_1"; "_2"]%string.
Proof.
  exact (proj1 (X18_unlabeled_payload_slots_never_collide
                  derivingEncodable
                  {| elt_name := "rgb";
                     elt_params := Some [payload "" Int_ty None;
                                         payload "" Int_ty None;
                                         payload "" Int_ty None] |}
                  (initialState ex_Command) eq_refl)).
Defined.

(** ** What a successful [canSynthesize] has checked on an enum *)

Lemma canSynthesize_element_true_names derived elt names valid s names' s' :
  canSynthesize_element derived elt (names, valid) s =
    Returned (names', true) s' ->
  existsb (String.eqb (elt_name elt)) names = false
  /\ names' = names ++ [elt_name elt]
  /\ NoDup (map slotCodingName (enumerate (getParameterList elt))).
Proof.
  intros H. unfold canSynthesize_element in H.
  apply bind_inv in H. destruct H as ([names1 valid1] & s1 & Hdup & H).
  apply bind_inv in H. destruct H as (valid2 & s2 & Hparams & H).
  apply canSynthesize_params_stage in Hparams.
  destruct Hparams as [_ Hparams].
  destruct (existsb (String.eqb (elt_name elt)) names) eqn:Hduplicate.
  - simpl in H. apply ret_inv in H. destruct H as [E _].
    assert (Hvalid2 : valid2 = true) by congruence.
    destruct (Hparams Hvalid2) as [-> _].
    apply bind_inv in Hdup. destruct Hdup as (? & ? & _ & Hdup).
    apply ret_inv in Hdup. destruct Hdup as [E' _]. congruence.
  - simpl in H. apply ret_inv in Hdup. destruct Hdup as [E1 <-].
    apply bind_inv in H. destruct H as (ok & s3 & Hcase & H).
    destruct ok; simpl in H;
      [|apply ret_inv in H; destruct H as [E _]; congruence].
    apply ret_inv in H. destruct H as [E <-].
    assert (Hvalid2 : valid2 = true) by congruence.
    destruct (Hparams Hvalid2) as [_ Hnd].
    split; [reflexivity|]. split; [congruence|exact Hnd].
Qed.

Lemma existsb_eqb_false (k : Identifier) (l : list Identifier) :
  existsb (String.eqb k) l = false -> ~ In k l.
Proof.
  intros H Hin. rewrite (existsb_eqb_In _ _ Hin) in H. discriminate.
Qed.

Lemma canSynthesize_element_loop_true_names derived elts :
  forall names valid s names' s',
    forEach elts (canSynthesize_element derived) (names, valid) s =
      Returned (names', true) s' ->
    NoDup names ->
    NoDup (names ++ map elt_name elts)
    /\ forall elt, In elt elts ->
                   NoDup (map slotCodingName
                              (enumerate (getParameterList elt))).
Proof.
  induction elts as [|elt elts IH]; intros names valid s names' s' H Hnd.
  - simpl. rewrite app_nil_r. split; [exact Hnd|intros elt []].
  - rewrite forEach_cons in H.
    destruct (canSynthesize_element derived elt (names, valid) s)
      as [[names1 valid1] s1|] eqn:Hstep; [|discriminate].
    pose proof (canSynthesize_element_loop_valid_inv _ _ _ _ _ _ _ H) as ->.
    apply canSynthesize_element_true_names in Hstep.
    destruct Hstep as (Hfresh & -> & Hslots).
    apply existsb_eqb_false in Hfresh.
    destruct (IH _ _ _ _ _ H) as [Hall Hrest].
    { apply NoDup_app; [exact Hnd|repeat constructor; intros []|].
      intros x Hx [<-|[]]. contradiction. }
    split.
    + simpl. now rewrite <- app_assoc in Hall.
    + intros e [<-|Hin]; [exact Hslots|now apply Hrest].
Qed.

(** X19. When [canSynthesize] answers true for an enum, for either
    protocol, the names of its cases are pairwise distinct, and within each
    case the coding names of the payload slots (label, or [_<index>]) are
    pairwise distinct. *)
Theorem X19_synthesisable_enum_has_distinct_names :
  forall (derived : DerivedConformance) (requirement : DeclName)
         (s s' : SemaState),
    isa_EnumDecl (Nominal s) = true ->
    canSynthesize derived requirement s = Returned true s' ->
    NoDup (map elt_name (getAllElements (Nominal s)))
    /\ forall elt, In elt (getAllElements (Nominal s)) ->
                   NoDup (map slotCodingName
                              (enumerate (getParameterList elt))).
Proof.
  intros derived requirement s s' Henum H.
  unfold canSynthesize in H.
  apply bind_inv in H. destruct H as (ok & s1 & Hsuper & H).
  destruct ok; simpl in H; [|apply ret_inv in H; destruct H; discriminate].
  apply bind_inv in H. destruct H as (valid & s2 & Hval & H).
  destruct valid; simpl in H; [|apply ret_inv in H; destruct H; discriminate].
  destruct (onlyAddsKeyEnums_canSynthesize_superInit _ _ _ _ _ Hsuper)
    as (added1 & diags1 & -> & _).
  destruct (onlyAddsKeyEnums_validateCodingKeysEnum _ _ _ _ Hval)
    as (added2 & diags2 & -> & _).
  unfold bind at 1, getNominal in H. cbn [Nominal] in H.
  rewrite !isa_EnumDecl_withKeyEnums, Henum in H.
  rewrite !getAllElements_withKeyEnums in H.
  apply bind_inv in H. destruct H as ([names valid] & s3 & Hloop & H).
  apply ret_inv in H. destruct H as [-> _].
  apply canSynthesize_element_loop_true_names in Hloop; [|constructor].
  exact Hloop.
Qed.

Lemma X19_synthesisable_enum_witness :
  NoDup ["load"; "store"; "stop"]%string
  /\ NoDup (map slotCodingName
                (enumerate [payload "key" String_ty None;
                            payload "" (OptionalTy Int_ty) None])).
Proof.
  destruct (X19_synthesisable_enum_has_distinct_names
              derivingDecodable initRequirement (initialState ex_Command)
              (initialState ex_Command_keyed) eq_refl eq_refl)
    as [Hcases Hslots].
  split; [exact Hcases|].
  exact (Hslots {| elt_name := "load";
                   elt_params := Some [payload "key" String_ty None;
                                       payload "" (OptionalTy Int_ty) None] |}
                (or_introl eq_refl)).
Defined.

(** ** A successful [canSynthesize] is silent *)

Lemma canSynthesize_superInit_true derived requirement s s' :
  canSynthesize_superInit derived requirement s = Returned true s' -> s' = s.
Proof.
  unfold canSynthesize_superInit, bind, getNominal, diagnose, ret.
  destruct (dyn_cast_ClassDecl (Nominal s)) as [[sup|]|];
    try (now intros [= <-]).
  destruct (isSpecificProtocol (Protocol derived) Decodable);
    [|now intros [= <-]].
  destruct (lookupMember sup _) as [|c [|c' rest]]; try discriminate.
  destruct (negb (ctor_isDesignatedInit c)); [discriminate|].
  destruct (negb (ctor_isAccessibleFromConformance c)); [discriminate|].
  destruct (ctor_isFailable c); [discriminate|]. now intros [= <-].
Qed.

Lemma validateCodingKeysType_Some_state proto td s e s' :
  validateCodingKeysType proto td s = Returned (Some e) s' ->
  s' = s /\ conformsToCodingKey td = true.
Proof.
  unfold validateCodingKeysType.
  destruct (conformsToCodingKey td); simpl.
  - destruct (getAnyNominal td) as [[e0|name]|]; try discriminate.
    now intros [= _ <-].
  - discriminate.
Qed.

Lemma filter_negb_nil {A} (f : A -> bool) (l : list A) :
  forallb f l = true -> filter (fun x => negb (f x)) l = [].
Proof.
  induction l as [|x l IH]; simpl; [reflexivity|].
  destruct (f x); simpl; [exact IH|discriminate].
Qed.

Lemma validateCodingKeysEnum_varDecls_true_state proto vd td s s' :
  validateCodingKeysEnum_varDecls proto vd td s = Returned true s' -> s' = s.
Proof.
  unfold validateCodingKeysEnum_varDecls. intros H.
  apply bind_inv in H. destruct H as ([ck|] & s1 & Htype & H);
    [|apply ret_inv in H; destruct H; discriminate].
  apply validateCodingKeysType_Some_state in Htype. destruct Htype as [-> _].
  apply bind_inv in H. destruct H as ([vd' valid] & s2 & Hloop & H).
  destruct valid; simpl in H;
    [|apply ret_inv in H; destruct H; discriminate].
  apply validateCodingKeysEnum_case_loop_true in Hloop as Hkeys.
  destruct Hkeys as [_ Hkeys].
  rewrite (validateCodingKeysEnum_case_loop_matched _ _ _ _ _ Hkeys) in Hloop.
  injection Hloop as <- <-.
  destruct (isSpecificProtocol proto Decodable).
  - rewrite validateCodingKeysEnum_remaining_loop in H. simpl in H.
    injection H as Hall <-.
    rewrite (filter_negb_nil (fun e => isDefaultable (snd e)) _ Hall).
    apply emit_nil.
  - apply ret_inv in H. now destruct H.
Qed.

Lemma validateCodingKeysEnum_enum_true_state proto td s s' :
  validateCodingKeysEnum_enum proto td s = Returned true s' -> s' = s.
Proof.
  intros H. pose proof H as H0.
  unfold validateCodingKeysEnum_enum in H. unfold bind at 1, getNominal in H.
  destruct (isa_EnumDecl (Nominal s)) eqn:Henum; simpl in H;
    [|apply ret_inv in H; destruct H; discriminate].
  apply bind_inv in H. destruct H as ([ck|] & s1 & Htype & _);
    [|apply bind_inv in H0; destruct H0 as (n & s2 & Hn & H0);
      injection Hn as <- <-; rewrite Henum in H0; simpl in H0;
      apply bind_inv in H0; destruct H0 as (x & s3 & Hx & H0);
      rewrite Htype in Hx; injection Hx as <- <-;
      apply ret_inv in H0; destruct H0; discriminate].
  pose proof (validateCodingKeysType_Some_inv _ _ _ _ _ Htype) as Hnom.
  apply validateCodingKeysType_Some_state in Htype. destruct Htype as [_ Hconf].
  rewrite (validateCodingKeysEnum_enum_spec _ _ _ _ Henum Hconf Hnom) in H0.
  injection H0 as Hall <-.
  rewrite (filter_negb_nil _ _ Hall). apply emit_nil.
Qed.

Lemma addImplicitCodingKeys_state s e s' :
  addImplicitCodingKeys s = Returned e s' -> Diags s' = Diags s.
Proof.
  unfold addImplicitCodingKeys, bind, getNominal.
  destruct (isa_EnumDecl (Nominal s)).
  - rewrite addImplicitCodingKeys_enum_run. now intros [= _ <-].
  - unfold assert. destruct (lookupDirect (Nominal s) Id_CodingKeys);
      [|discriminate].
    unfold ret, addMember. now intros [= _ <-].
Qed.

Lemma validateCodingKeysEnum_true_state proto s s' :
  validateCodingKeysEnum proto s = Returned true s' -> Diags s' = Diags s.
Proof.
  unfold validateCodingKeysEnum. unfold bind at 1, getNominal.
  destruct (1 <? length (lookupDirect (Nominal s) Id_CodingKeys))%nat;
    [intros H; apply ret_inv in H; destruct H; discriminate|].
  intros H. apply bind_inv in H. destruct H as (result & s1 & Hres & H).
  assert (Hs1 : Diags s1 = Diags s).
  { destruct (lookupDirect (Nominal s) Id_CodingKeys).
    - apply bind_inv in Hres. destruct Hres as (e & s2 & Hadd & Hret).
      apply ret_inv in Hret. destruct Hret as [_ <-].
      exact (addImplicitCodingKeys_state _ _ _ Hadd).
    - apply ret_inv in Hres. now destruct Hres as [_ <-]. }
  destruct result as [v b|e|td|f];
    try (apply bind_inv in H; destruct H as (? & ? & _ & H);
         apply ret_inv in H; destruct H; discriminate).
  destruct (isa_EnumDecl (Nominal s)).
  - apply validateCodingKeysEnum_enum_true_state in H. now subst s'.
  - apply validateCodingKeysEnum_varDecls_true_state in H. now subst s'.
Qed.

Lemma lookupEvaluatedCodingKeysEnum_state target identifier s r s' :
  lookupEvaluatedCodingKeysEnum target identifier s = Returned r s' -> s' = s.
Proof.
  unfold lookupEvaluatedCodingKeysEnum, dyn_cast_EnumDecl, ret, trap.
  destruct (lookupDirect target identifier) as [|d rest];
    [now intros [= _ <-]|].
  destruct d as [v b|elt|t|f]; try (now intros [= _ <-]).
  destruct t as [[e|o] c|name [[e|o]|] c];
    try (now intros [= _ <-]); discriminate.
Qed.

Lemma validateCaseCodingKeysEnum_true_state proto elt s s' :
  validateCaseCodingKeysEnum proto elt s = Returned true s' ->
  Diags s' = Diags s.
Proof.
  unfold validateCaseCodingKeysEnum. unfold bind at 1, getNominal.
  destruct (negb (isa_EnumDecl (Nominal s)));
    [intros H; apply ret_inv in H; destruct H; discriminate|].
  intros H. apply bind_inv in H. destruct H as ([ck|] & s1 & Hck & H);
    [|discriminate].
  apply lookupEvaluatedCodingKeysEnum_state in Hck. subst s1.
  destruct (1 <? length (lookupDirect (Nominal s) (caseCodingKeysIdentifier elt)))%nat;
    [apply ret_inv in H; destruct H; discriminate|].
  apply bind_inv in H. destruct H as (result & s1 & Hres & H).
  assert (Hs1 : Diags s1 = Diags s).
  { destruct (lookupDirect (Nominal s) (caseCodingKeysIdentifier elt)).
    - apply bind_inv in Hres. destruct Hres as (e & s2 & Hadd & Hret).
      apply ret_inv in Hret. destruct Hret as [_ <-].
      unfold addImplicitCaseCodingKeys in Hadd.
      destruct (lookupEnumCase ck (elt_name elt));
        [|now injection Hadd as _ <-].
      unfold bind, addMember, ret in Hadd. now injection Hadd as _ <-.
    - apply ret_inv in Hres. now destruct Hres as [_ <-]. }
  destruct result as [[v b|e|td|f]|]; try discriminate;
    try (apply bind_inv in H; destruct H as (? & ? & _ & H);
         apply ret_inv in H; destruct H; discriminate).
  apply validateCodingKeysEnum_varDecls_true_state in H. now subst s'.
Qed.

Lemma canSynthesize_params_stage_state derived elt valid s s' :
  (if hasAssociatedValues elt then
     '(_, allValid) <-
       forEach (enumerate (getParameterList elt))
               (canSynthesize_param derived elt) ([], valid) ;;
     ret allValid
   else ret valid) s = Returned true s' ->
  s' = s.
Proof.
  destruct (hasAssociatedValues elt).
  - intros H. apply bind_inv in H.
    destruct H as ([params allValid] & s1 & Hloop & Hret).
    apply ret_inv in Hret. destruct Hret as [-> ->].
    apply canSynthesize_param_loop_true in Hloop as Hinv.
    destruct Hinv as (_ & Hnd & Hfresh).
    rewrite (canSynthesize_param_loop_distinct _ _ _ _ _ _ Hnd Hfresh) in Hloop.
    now injection Hloop as _ _ <-.
  - intros H. apply ret_inv in H. now destruct H.
Qed.

Lemma canSynthesize_element_true_state derived elt names valid s names' s' :
  canSynthesize_element derived elt (names, valid) s =
    Returned (names', true) s' ->
  Diags s' = Diags s.
Proof.
  intros H. unfold canSynthesize_element in H.
  apply bind_inv in H. destruct H as ([names1 valid1] & s1 & Hdup & H).
  apply bind_inv in H. destruct H as (valid2 & s2 & Hparams & H).
  pose proof (canSynthesize_params_stage _ _ _ _ _ _ Hparams) as [_ Hinv].
  destruct (existsb (String.eqb (elt_name elt)) names) eqn:Hduplicate.
  - simpl in H. apply ret_inv in H. destruct H as [E _].
    assert (Hvalid2 : valid2 = true) by congruence.
    destruct (Hinv Hvalid2) as [-> _].
    apply bind_inv in Hdup. destruct Hdup as (? & ? & _ & Hdup).
    apply ret_inv in Hdup. destruct Hdup as [E' _]. congruence.
  - simpl in H. apply ret_inv in Hdup. destruct Hdup as [E1 <-].
    apply bind_inv in H. destruct H as (ok & s3 & Hcase & H).
    destruct ok; simpl in H;
      [|apply ret_inv in H; destruct H as [E _]; congruence].
    apply ret_inv in H. destruct H as [E <-].
    assert (Hvalid2 : valid2 = true) by congruence. subst valid2.
    apply canSynthesize_params_stage_state in Hparams. subst s2.
    exact (validateCaseCodingKeysEnum_true_state _ _ _ _ Hcase).
Qed.

Lemma canSynthesize_element_loop_true_state derived elts :
  forall names valid s names' s',
    forEach elts (canSynthesize_element derived) (names, valid) s =
      Returned (names', true) s' ->
    Diags s' = Diags s.
Proof.
  induction elts as [|elt elts IH]; intros names valid s names' s' H.
  - rewrite forEach_nil in H. now injection H as _ _ <-.
  - rewrite forEach_cons in H.
    destruct (canSynthesize_element derived elt (names, valid) s)
      as [[names1 valid1] s1|] eqn:Hstep; [|discriminate].
    pose proof (canSynthesize_element_loop_valid_inv _ _ _ _ _ _ _ H) as ->.
    rewrite (IH _ _ _ _ _ H).
    exact (canSynthesize_element_true_state _ _ _ _ _ _ _ Hstep).
Qed.

(** X20. A successful [canSynthesize] is silent: whenever it answers
    true, for a struct, class or enum and either protocol, it has emitted
    no diagnostic at all.  (Every diagnostic of validation makes the answer
    false; the converse fails, see the ambiguous lookups.) *)
Theorem X20_successful_canSynthesize_is_silent :
  forall (derived : DerivedConformance) (requirement : DeclName)
         (s s' : SemaState),
    canSynthesize derived requirement s = Returned true s' ->
    Diags s' = Diags s.
Proof.
  intros derived requirement s s' H.
  unfold canSynthesize in H.
  apply bind_inv in H. destruct H as (ok & s1 & Hsuper & H).
  destruct ok; simpl in H; [|apply ret_inv in H; destruct H; discriminate].
  apply canSynthesize_superInit_true in Hsuper. subst s1.
  apply bind_inv in H. destruct H as (valid & s2 & Hval & H).
  destruct valid; simpl in H; [|apply ret_inv in H; destruct H; discriminate].
  apply validateCodingKeysEnum_true_state in Hval.
  unfold bind at 1, getNominal in H.
  destruct (isa_EnumDecl (Nominal s2)).
  - apply bind_inv in H. destruct H as ([names valid] & s3 & Hloop & H).
    apply ret_inv in H. destruct H as [-> <-].
    rewrite (canSynthesize_element_loop_true_state _ _ _ _ _ _ _ Hloop).
    exact Hval.
  - apply ret_inv in H. destruct H as [_ <-]. exact Hval.
Qed.

Lemma X20_successful_canSynthesize_witness :
  Diags (initialState ex_Command_keyed) = Diags (initialState ex_Command).
Proof.
  exact (X20_successful_canSynthesize_is_silent
           derivingDecodable initRequirement (initialState ex_Command)
           (initialState ex_Command_keyed) eq_refl).
Defined.

(** ** A case that has neither a key nor a per-case key enumeration *)

Lemma forEach_app {A S} (xs ys : list A) (body : A -> S -> Sema S) :
  forall acc s,
    forEach (xs ++ ys) body acc s =
    match forEach xs body acc s with
    | Returned acc' s' => forEach ys body acc' s'
    | Trapped t => Trapped t
    end.
Proof.
  induction xs as [|x xs IH]; intros acc s; [reflexivity|].
  rewrite <- app_comm_cons, !forEach_cons.
  destruct (body x acc s); [apply IH|reflexivity].
Qed.

Lemma hasCodingKey_name ck e e' :
  elt_name e = elt_name e' -> hasCodingKey ck e = hasCodingKey ck e'.
Proof. unfold hasCodingKey. now intros ->. Qed.

Lemma caseCodingKeysIdentifier_name e e' :
  elt_name e = elt_name e' ->
  caseCodingKeysIdentifier e = caseCodingKeysIdentifier e'.
Proof. unfold caseCodingKeysIdentifier. now intros ->. Qed.

(** What one validation of a per-case key enumeration may add to the
    type: at most the enumeration of that case, and only when the case has a
    key. *)
Lemma validateCaseCodingKeysEnum_adds proto elt ck s r s' :
  evaluatedCodingKeysEnum (Nominal s) Id_CodingKeys = Some ck ->
  validateCaseCodingKeysEnum proto elt s = Returned r s' ->
  exists added,
    Nominal s' = withKeyEnums (Nominal s) added
    /\ forall x, In x added ->
                 enum_name x = caseCodingKeysIdentifier elt
                 /\ hasCodingKey ck elt = true.
Proof.
  intros Hck H. unfold validateCaseCodingKeysEnum in H.
  unfold bind at 1, getNominal in H.
  destruct (negb (isa_EnumDecl (Nominal s))).
  { apply ret_inv in H. destruct H as [_ <-].
    exists []. rewrite withKeyEnums_nil. split; [reflexivity|intros x []]. }
  unfold bind at 1 in H.
  rewrite (lookupEvaluatedCodingKeysEnum_view _ _ _ _ Hck) in H.
  destruct (1 <? length (lookupDirect (Nominal s) (caseCodingKeysIdentifier elt)))%nat.
  { apply ret_inv in H. destruct H as [_ <-].
    exists []. rewrite withKeyEnums_nil. split; [reflexivity|intros x []]. }
  apply bind_inv in H. destruct H as (result & s1 & Hres & H).
  assert (Hs1 : exists added,
             Nominal s1 = withKeyEnums (Nominal s) added
             /\ forall x, In x added ->
                          enum_name x = caseCodingKeysIdentifier elt
                          /\ hasCodingKey ck elt = true).
  { destruct (lookupDirect (Nominal s) (caseCodingKeysIdentifier elt)).
    - apply bind_inv in Hres. destruct Hres as (e & s2 & Hadd & Hret).
      apply ret_inv in Hret. destruct Hret as [_ <-].
      destruct e as [e|].
      + pose proof Hadd as Hkey. unfold addImplicitCaseCodingKeys in Hkey.
        apply addImplicitCaseCodingKeys_Some in Hadd. destruct Hadd as [Hname ->].
        exists [e]. split; [reflexivity|]. intros x [<-|[]].
        split; [exact Hname|]. unfold hasCodingKey.
        destruct (lookupEnumCase ck (elt_name elt)); [reflexivity|discriminate].
      + unfold addImplicitCaseCodingKeys in Hadd.
        destruct (lookupEnumCase ck (elt_name elt)); [discriminate|].
        apply ret_inv in Hadd. destruct Hadd as [_ <-].
        exists []. rewrite withKeyEnums_nil. split; [reflexivity|intros x []].
    - apply ret_inv in Hres. destruct Hres as [_ <-].
      exists []. rewrite withKeyEnums_nil. split; [reflexivity|intros x []]. }
  destruct Hs1 as (added & Hnom & Hadded). exists added. split; [|exact Hadded].
  rewrite <- Hnom.
  destruct result as [[v b|e|td|f]|]; try discriminate;
    try (apply bind_inv in H; destruct H as (? & ? & Hd & H);
         apply ret_inv in H; destruct H as [_ <-];
         exact (preservesNominal_diagnose _ _ _ _ Hd)).
  exact (preservesNominal_validateCodingKeysEnum_varDecls _ _ _ _ _ _ H).
Qed.

Lemma canSynthesize_element_adds derived elt ck names valid s names' valid' s' :
  evaluatedCodingKeysEnum (Nominal s) Id_CodingKeys = Some ck ->
  canSynthesize_element derived elt (names, valid) s =
    Returned (names', valid') s' ->
  (exists added,
      Nominal s' = withKeyEnums (Nominal s) added
      /\ forall x, In x added ->
                   enum_name x = caseCodingKeysIdentifier elt
                   /\ hasCodingKey ck elt = true)
  /\ (forall x, In x names' -> In x names \/ x = elt_name elt).
Proof.
  intros Hck H. unfold canSynthesize_element in H.
  apply bind_inv in H. destruct H as ([names1 valid1] & s1 & Hdup & H).
  apply bind_inv in H. destruct H as (valid2 & s2 & Hparams & H).
  apply canSynthesize_params_stage in Hparams. destruct Hparams as [Hnom2 _].
  assert (Hdup' : Nominal s1 = Nominal s
                  /\ forall x, In x names1 -> In x names \/ x = elt_name elt).
  { destruct (existsb (String.eqb (elt_name elt)) names).
    - apply bind_inv in Hdup. destruct Hdup as (? & ? & Hd & Hdup).
      apply ret_inv in Hdup. destruct Hdup as [[= <- _] <-].
      split; [exact (preservesNominal_diagnose _ _ _ _ Hd)|]. auto.
    - apply ret_inv in Hdup. destruct Hdup as [[= <- _] <-].
      split; [reflexivity|]. intros x Hx. apply in_app_or in Hx.
      destruct Hx as [Hx|[<-|[]]]; auto. }
  destruct Hdup' as [Hnom1 Hnames].
  destruct (negb (existsb (String.eqb (elt_name elt)) names)).
  - apply bind_inv in H. destruct H as (ok & s3 & Hcase & H).
    assert (Hs3 : names' = names1 /\ s' = s3).
    { destruct (negb ok); apply ret_inv in H; destruct H as [[= <- _] <-];
        auto. }
    destruct Hs3 as [-> ->]. split; [|exact Hnames].
    rewrite <- Hnom1, <- Hnom2 in Hck |- *.
    exact (validateCaseCodingKeysEnum_adds _ _ _ _ _ _ Hck Hcase).
  - apply ret_inv in H. destruct H as [[= <- _] <-]. split; [|exact Hnames].
    exists []. rewrite withKeyEnums_nil. split; [congruence|intros x []].
Qed.

Lemma canSynthesize_element_loop_adds derived ck elts :
  forall names valid s names' valid' s',
    evaluatedCodingKeysEnum (Nominal s) Id_CodingKeys = Some ck ->
    forEach elts (canSynthesize_element derived) (names, valid) s =
      Returned (names', valid') s' ->
    (exists added,
        Nominal s' = withKeyEnums (Nominal s) added
        /\ forall x, In x added ->
                     exists e, In e elts
                               /\ enum_name x = caseCodingKeysIdentifier e
                               /\ hasCodingKey ck e = true)
    /\ (forall x, In x names' -> In x names \/ In x (map elt_name elts)).
Proof.
  induction elts as [|elt elts IH];
    intros names valid s names' valid' s' Hck H.
  - rewrite forEach_nil in H. injection H as <- _ <-. split; [|auto].
    exists []. rewrite withKeyEnums_nil. split; [reflexivity|intros x []].
  - rewrite forEach_cons in H.
    destruct (canSynthesize_element derived elt (names, valid) s)
      as [[names1 valid1] s1|] eqn:Hstep; [|discriminate].
    destruct (canSynthesize_element_adds _ _ _ _ _ _ _ _ _ Hck Hstep)
      as [(added1 & Hnom1 & Hadded1) Hnames1].
    assert (Hck1 : evaluatedCodingKeysEnum (Nominal s1) Id_CodingKeys = Some ck).
    { rewrite Hnom1. now apply evaluatedCodingKeysEnum_withKeyEnums. }
    destruct (IH _ _ _ _ _ _ Hck1 H) as [(added2 & Hnom2 & Hadded2) Hnames2].
    split.
    + exists (added1 ++ added2).
      split; [now rewrite Hnom2, Hnom1, withKeyEnums_app|].
      intros x Hx. apply in_app_or in Hx. destruct Hx as [Hx|Hx].
      * exists elt. split; [now left|]. now apply Hadded1.
      * destruct (Hadded2 x Hx) as (e & He & Hrest).
        exists e. split; [now right|exact Hrest].
    + intros x Hx. destruct (Hnames2 x Hx) as [Hx1|Hx2].
      * destruct (Hnames1 x Hx1) as [Hn| ->]; [now left|right; now left].
      * right. now right.
Qed.

Lemma first_occurrence (name : Identifier) (elts : list EnumElementDecl) :
  (exists e, In e elts /\ elt_name e = name) ->
  exists pre e0 post,
    elts = pre ++ e0 :: post
    /\ elt_name e0 = name
    /\ forall x, In x pre -> elt_name x <> name.
Proof.
  induction elts as [|e elts IH]; intros (x & Hin & Hname); [destruct Hin|].
  destruct (string_dec (elt_name e) name) as [Heq|Hne].
  - exists [], e, elts. split; [reflexivity|]. split; [exact Heq|intros y []].
  - destruct Hin as [->|Hin]; [contradiction|].
    destruct IH as (pre & e0 & post & -> & He0 & Hpre); [eauto|].
    exists (e :: pre), e0, post. split; [reflexivity|].
    split; [exact He0|]. intros y [<-|Hy]; auto.
Qed.

Lemma canSynthesize_params_stage_returns derived elt valid s :
  exists valid' s',
    (if hasAssociatedValues elt then
       '(_, allValid) <-
         forEach (enumerate (getParameterList elt))
                 (canSynthesize_param derived elt) ([], valid) ;;
       ret allValid
     else ret valid) s = Returned valid' s'
    /\ Nominal s' = Nominal s.
Proof.
  destruct (hasAssociatedValues elt); [|now exists valid, s].
  assert (Hloop : forall entries acc s0,
             exists acc' s1,
               forEach entries (canSynthesize_param derived elt) acc s0 =
                 Returned acc' s1 /\ Nominal s1 = Nominal s0).
  { induction entries as [|e entries IH]; intros acc s0.
    - now exists acc, s0.
    - rewrite forEach_cons. destruct acc as [params v].
      unfold canSynthesize_param at 1.
      destruct (ParamMap_find params _).
      + unfold bind, ret. rewrite diagnose_emit.
        destruct (IH (params, false) (emit s0 [codable_enum_duplicate_parameter_name_here
                          (param_name (if Identifier_isEmpty
                                            (getVarNameForCoding
                                               (ParamDecl_asVarDecl (snd e)))
                                       then p else snd e))
                          (Protocol derived)
                          (paramCodingIdentifier (fst e) (snd e))
                          (elt_name elt)]))
          as (acc' & s1 & Hrun & Hnom).
        exists acc', s1. split; [exact Hrun|exact Hnom].
      + unfold ret at 1. apply IH. }
  destruct (Hloop (enumerate (getParameterList elt)) ([], valid) s)
    as ([params v] & s1 & Hrun & Hnom).
  exists v, s1. unfold bind. rewrite Hrun. split; [reflexivity|exact Hnom].
Qed.

Lemma canSynthesize_element_traps derived elt ck (names : list Identifier)
      valid s :
  isa_EnumDecl (Nominal s) = true ->
  evaluatedCodingKeysEnum (Nominal s) Id_CodingKeys = Some ck ->
  existsb (String.eqb (elt_name elt)) names = false ->
  hasCodingKey ck elt = false ->
  lookupDirect (Nominal s) (caseCodingKeysIdentifier elt) = [] ->
  canSynthesize_element derived elt (names, valid) s =
    Trapped (NullDereference "dyn_cast<TypeDecl>(result)").
Proof.
  intros Henum Hck Hfresh Hkey Hlookup.
  unfold canSynthesize_element. rewrite Hfresh.
  unfold bind at 1, ret at 1. unfold bind at 1.
  destruct (canSynthesize_params_stage_returns derived elt valid s)
    as (valid' & s1 & -> & Hnom).
  cbn [negb]. unfold bind at 1.
  unfold validateCaseCodingKeysEnum, bind, getNominal.
  rewrite Hnom, Henum. cbn [negb].
  rewrite (lookupEvaluatedCodingKeysEnum_view _ _ _ _ Hck), Hlookup.
  cbn [length Nat.ltb Nat.leb].
  unfold addImplicitCaseCodingKeys. unfold hasCodingKey in Hkey.
  destruct (lookupEnumCase ck (elt_name elt)); [discriminate|].
  reflexivity.
Qed.

(** X21. An enum whose declared [CodingKeys] leaves out a case makes
    [canSynthesize] crash unless a [<Case>CodingKeys] is declared for that
    case: once [CodingKeys] has passed validation, the loop over the cases
    asks [addImplicitCaseCodingKeys] for the enumeration of the case, gets
    null because the case has no key, and hands it to
    [dyn_cast<TypeDecl>].  No answer and no diagnostic is produced. *)
Theorem X21_case_without_key_crashes_validation :
  forall (derived : DerivedConformance) (requirement : DeclName)
         (s : SemaState) (codingKeysTypeDecl : TypeDecl)
         (codingKeysDecl : EnumDecl) (elt : EnumElementDecl),
    isa_EnumDecl (Nominal s) = true ->
    lookupDirect (Nominal s) Id_CodingKeys = [VD_Type codingKeysTypeDecl] ->
    conformsToCodingKey codingKeysTypeDecl = true ->
    getAnyNominal codingKeysTypeDecl = Some (EnumNominal codingKeysDecl) ->
    forallb (namesCase (Nominal s)) (enum_elements codingKeysDecl) = true ->
    In elt (getAllElements (Nominal s)) ->
    hasCodingKey codingKeysDecl elt = false ->
    lookupDirect (Nominal s) (caseCodingKeysIdentifier elt) = [] ->
    (forall e, In e (getAllElements (Nominal s)) ->
               hasCodingKey codingKeysDecl e = true ->
               caseCodingKeysIdentifier e <> caseCodingKeysIdentifier elt) ->
    exists t, canSynthesize derived requirement s = Trapped t.
Proof.
  intros derived requirement s td ck elt Henum Hlookup Hconf Hnom Hall
         Hin Hkey Hnone Hother.
  assert (Hck : evaluatedCodingKeysEnum (Nominal s) Id_CodingKeys = Some ck).
  { unfold evaluatedCodingKeysEnum. now rewrite Hlookup, Hnom. }
  unfold canSynthesize, bind.
  assert (Hsuper : canSynthesize_superInit derived requirement s =
                   Returned true s).
  { unfold canSynthesize_superInit, bind, getNominal, dyn_cast_ClassDecl.
    unfold isa_EnumDecl in Henum.
    destruct (nominal_kind (Nominal s)); try discriminate. reflexivity. }
  rewrite Hsuper. cbn [negb].
  assert (Hval : validateCodingKeysEnum (Protocol derived) s = Returned true s).
  { unfold validateCodingKeysEnum, bind, getNominal.
    rewrite Hlookup, Henum. cbn [length Nat.ltb Nat.leb]. unfold ret at 1.
    rewrite (validateCodingKeysEnum_enum_spec _ _ _ _ Henum Hconf Hnom).
    rewrite Hall, (filter_negb_nil _ _ Hall). now rewrite emit_nil. }
  rewrite Hval. cbn [negb]. unfold getNominal. rewrite Henum.
  destruct (first_occurrence (elt_name elt) (getAllElements (Nominal s)))
    as (pre & e0 & post & Helts & Hname & Hpre); [eauto|].
  rewrite Helts, forEach_app.
  destruct (forEach pre (canSynthesize_element derived) ([], true) s)
    as [[names1 valid1] s1|t] eqn:Hloop; [|now exists t].
  destruct (canSynthesize_element_loop_adds _ _ _ _ _ _ _ _ _ Hck Hloop)
    as [(added & Hnom1 & Hadded) Hnames].
  rewrite forEach_cons.
  rewrite (canSynthesize_element_traps derived e0 ck names1 valid1 s1).
  - eexists. reflexivity.
  - rewrite Hnom1. exact Henum.
  - rewrite Hnom1. now apply evaluatedCodingKeysEnum_withKeyEnums.
  - destruct (existsb (String.eqb (elt_name e0)) names1) eqn:E; [|reflexivity].
    apply existsb_exists in E. destruct E as (x & Hx & Heq).
    apply String.eqb_eq in Heq. subst x.
    destruct (Hnames _ Hx) as [[]|Hx'].
    apply in_map_iff in Hx'. destruct Hx' as (y & Hy & Hyin).
    exfalso. apply (Hpre y Hyin). congruence.
  - rewrite (hasCodingKey_name ck e0 elt Hname). exact Hkey.
  - rewrite Hnom1, lookupDirect_withKeyEnums.
    rewrite (caseCodingKeysIdentifier_name e0 elt Hname), Hnone. cbn [app].
    clear - Hadded Hother Helts.
    induction added as [|x added IH]; [reflexivity|].
    cbn [map filter]. 
    destruct (Hadded x (or_introl eq_refl)) as (e & He & Hxname & Hekey).
    assert (Hne : enum_name x <> caseCodingKeysIdentifier elt).
    { rewrite Hxname. apply Hother; [|exact Hekey].
      rewrite Helts. apply in_or_app. now left. }
    change (ValueDecl_name (EnumDecl_asMember x)) with (enum_name x).
    destruct (String.eqb (enum_name x) (caseCodingKeysIdentifier elt)) eqn:E.
    + apply String.eqb_eq in E. contradiction.
    + apply IH. intros y Hy. apply Hadded. now right.
Qed.

Lemma X21_case_without_key_witness :
  exists t,
    canSynthesize derivingEncodable encodeRequirement (initialState ex_Mode) =
      Trapped t.
Proof.
  apply (X21_case_without_key_crashes_validation
           derivingEncodable encodeRequirement (initialState ex_Mode)
           (NominalDecl (EnumNominal {| enum_name := Id_CodingKeys;
                                        enum_elements := ["on"];
                                        enum_isImplicit := false |}) true)
           {| enum_name := Id_CodingKeys; enum_elements := ["on"];
              enum_isImplicit := false |}
           {| elt_name := "off"; elt_params := None |}
           eq_refl eq_refl eq_refl eq_refl eq_refl
           (or_intror (or_introl eq_refl)) eq_refl eq_refl).
  intros e [<-|[<-|[]]]; simpl; discriminate.
Defined.

(** ** A [CodingKeys] that cannot be used *)

(** X22. When the name [CodingKeys] does not lead to one type
    declaration, [deriveEncodable] gives up without synthesising anything:
    with more than one declaration of that name, validation fails silently
    and only the two generic diagnostics ("type does not conform",
    "no witnesses") are emitted; with a single declaration that is not a
    type (a property or a function, say), the diagnostic "CodingKeys is not
    an enum" for that declaration precedes them.  No key enumeration is
    added in either case. *)
Theorem X22_unusable_CodingKeys_declaration :
  forall (derived : DerivedConformance) (requirement : DeclName) (s : SemaState),
    Protocol derived = Encodable ->
    InDisallowedContext derived = false ->
    name_base requirement = "encode" ->
    isa_Struct_Class_or_Enum (Nominal s) = true ->
    (forall declaration,
        lookupDirect (Nominal s) Id_CodingKeys = [declaration] ->
        (forall t, declaration <> VD_Type t) ->
        deriveEncodable derived requirement s =
          Returned None
            (emit s [codable_codingkeys_type_is_not_an_enum_here
                       (ValueDecl_name declaration) Encodable;
                     type_does_not_conform (nominal_name (Nominal s)) Encodable;
                     no_witnesses requirement Encodable]))
    /\ ((1 < length (lookupDirect (Nominal s) Id_CodingKeys))%nat ->
        deriveEncodable derived requirement s =
          Returned None
            (emit s [type_does_not_conform (nominal_name (Nominal s)) Encodable;
                     no_witnesses requirement Encodable])).
Proof.
  intros derived requirement s Hproto Hctx Hname Hkind.
  assert (Hrun : forall s1,
             validateCodingKeysEnum Encodable s = Returned false s1 ->
             deriveEncodable derived requirement s =
               Returned None
                 (emit s1 [type_does_not_conform (nominal_name (Nominal s))
                                                 Encodable;
                           no_witnesses requirement Encodable])).
  { intros s1 Hval.
    unfold deriveEncodable, bind, getNominal.
    rewrite Hkind, Hname, Hctx.
    change (String.eqb "encode" Id_encode) with true. cbn [negb].
    unfold canSynthesize, bind.
    rewrite (canSynthesize_superInit_encodable _ _ _ Hproto). cbn [negb].
    rewrite Hproto, Hval. cbn [negb]. unfold ret at 1. cbn [negb].
    unfold ret. rewrite !diagnose_emit, emit_emit. reflexivity. }
  split.
  - intros d Hl Hnot.
    rewrite (Hrun (emit s [codable_codingkeys_type_is_not_an_enum_here
                             (ValueDecl_name d) Encodable])).
    + now rewrite emit_emit.
    + unfold validateCodingKeysEnum, bind, getNominal. rewrite Hl.
      destruct d as [v b|e|t|f]; try reflexivity.
      exfalso. now apply (Hnot t).
  - intros Hlen. apply Hrun.
    unfold validateCodingKeysEnum, bind, getNominal.
    apply Nat.ltb_lt in Hlen. now rewrite Hlen.
Qed.

Lemma X22_unusable_CodingKeys_witness :
  deriveEncodable derivingEncodable encodeRequirement (initialState ex_Record) =
    Returned None
      {| Nominal := ex_Record;
         Diags := [codable_codingkeys_type_is_not_an_enum_here
                     "CodingKeys" Encodable;
                   type_does_not_conform "Record" Encodable;
                   no_witnesses encodeRequirement Encodable] |}.
Proof.
  apply (proj1 (X22_unusable_CodingKeys_declaration
                  derivingEncodable encodeRequirement (initialState ex_Record)
                  eq_refl eq_refl eq_refl eq_refl)
               (storedProperty "CodingKeys" Int_ty false uninitialized)
               eq_refl).
  intros t. discriminate.
Defined.
